(** * HiCDOC: the [.hic] reader of [src/parseHiCFile.cpp]

    A shallow embedding of the reader (header, footer, matrix and block
    decoding) and the properties of its specification.

    Conventions of the embedding.
    - Fixed-width integers are [Z] values; a value read from a stream is the
      little-endian reading of its bytes, reinterpreted as signed where the
      C++ variable is signed.  Overflow of a signed [int] operation is
      undefined behaviour ([int_add], [int_mul]).
    - [float] variables are IEEE-754 binary32 values, represented by the
      Standard Library's [spec_float].
    - C++ exceptions ([Rcpp::stop], [std::length_error], ...) and undefined
      behaviour (use of a variable a short read left unset, division by
      zero, signed overflow, a float-to-int conversion out of range, an
      index past the end) are the [Err] outcomes of the [result] type; they
      end the call.  A short read is no error by itself: it leaves the
      stream failed, and the error is the use of the variable it did not
      set.  The buffer of compressed bytes is an array of chars and no such
      variable: what a short read leaves of it unset keeps the unspecified
      chars of the allocation ([uninitialised]), and the reader goes on with
      them.  Memory is not bounded: no allocation fails for lack of it.
    - [std::istream] is an interface ([IStream]); [membuf] (the in-memory
      stream over a decompressed block) and [ifstream] (the file) are its
      two instances.
    - The host is little-endian with a 64-bit [long], and the library is
      that of C++11 or later ([seekg] clears [eofbit]; [new char[n]] throws
      on a negative [n]).
    - The modules [Layout] and [Sample] are not code of the reader: they
      give the byte layouts of the format and a small file, to state the
      properties and to run the reader. *)

From Stdlib Require Import ZArith String Ascii Strings.Byte List Bool Lia.
From Stdlib Require Import QArith Qround SpecFloat DecimalString.
From Stdlib Require DecimalZ DecimalPos.
Import ListNotations.
Local Open Scope Z_scope.

Set Implicit Arguments.

(* ================================================================= *)
(** ** Bytes and fixed-width integers *)

Module Bits.

Definition byte_to_Z (b : byte) : Z := Z.of_N (Byte.to_N b).

Definition byte_of_Z (z : Z) : byte :=
  match Byte.of_N (Z.to_N (z mod 256)) with
  | Some b => b
  | None => x00
  end.

(** The unsigned value of an object stored least significant byte first. *)
Fixpoint le_to_Z (bs : list byte) : Z :=
  match bs with
  | [] => 0
  | b :: rest => byte_to_Z b + 256 * le_to_Z rest
  end.

(** The [n] bytes of the object holding [z], least significant first. *)
Fixpoint Z_to_le (n : nat) (z : Z) : list byte :=
  match n with
  | O => []
  | S n' => byte_of_Z z :: Z_to_le n' (z / 256)
  end.

(** Two's complement reading of a [w]-bit unsigned value. *)
Definition signed (w : Z) (u : Z) : Z :=
  if u <? 2 ^ (w - 1) then u else u - 2 ^ w.

Definition INT_MIN : Z := - 2 ^ 31.
Definition INT_MAX : Z := 2 ^ 31 - 1.

Definition in_int16 (z : Z) : Prop := - 2 ^ 15 <= z < 2 ^ 15.
Definition in_int32 (z : Z) : Prop := - 2 ^ 31 <= z < 2 ^ 31.

End Bits.
Import Bits.

(* ================================================================= *)
(** ** binary32 floats *)

Module Float32.

(** The float whose object representation is the 32-bit pattern [b]. *)
Definition float_of_bits (b : Z) : spec_float :=
  let s := Z.testbit b 31 in
  let e := (b / 2 ^ 23) mod 2 ^ 8 in
  let m := b mod 2 ^ 23 in
  if e =? 255 then (if m =? 0 then S754_infinity s else S754_nan)
  else if e =? 0 then
    match m with
    | Zpos p => S754_finite s p (-149)
    | _ => S754_zero s
    end
  else
    match m + 2 ^ 23 with
    | Zpos p => S754_finite s p (e - 150)
    | _ => S754_zero s
    end.

(** Truncation toward zero of a finite float. *)
Definition trunc (f : spec_float) : option Z :=
  match f with
  | S754_zero _ => Some 0
  | S754_finite s m e =>
      let a := if 0 <=? e then Zpos m * 2 ^ e else Zpos m / 2 ^ (- e) in
      Some (if s then - a else a)
  | S754_infinity _ | S754_nan => None
  end.

(** The exact value of a finite float, as a rational. *)
Definition to_Q (f : spec_float) : option Q :=
  match f with
  | S754_zero _ => Some (inject_Z 0)
  | S754_finite s m e =>
      let v := if s then Zneg m else Zpos m in
      Some (if 0 <=? e then inject_Z (v * 2 ^ e)
            else Qmake v (Z.to_pos (2 ^ (- e))))
  | S754_infinity _ | S754_nan => None
  end.

(** [f == z] for a float [f] and an integer [z] that binary32 represents
    exactly: the comparison of the float with the converted integer.  A NaN
    and an infinity are equal to no integer. *)
Definition eq_Z (f : spec_float) (z : Z) : bool :=
  match f with
  | S754_zero _ => z =? 0
  | S754_finite s m e =>
      let v := if s then Zneg m else Zpos m in
      if 0 <=? e then v * 2 ^ e =? z else v =? z * 2 ^ (- e)
  | S754_infinity _ | S754_nan => false
  end.

End Float32.

(* ================================================================= *)
(** ** Outcomes, and the state-and-error monad of the readers *)

(** Undefined behaviour the reader can run into. *)
Inductive undefined : Set :=
| ShortRead          (* a variable is used after a read that did not fill it *)
| DivisionByZero     (* i / w with w = 0 *)
| FloatToInt         (* float to int conversion, value not representable *)
| SignedOverflow     (* an int operation whose result does not fit *)
| IndexOutOfBounds.  (* operator[] past the end *)

Inductive error : Set :=
| Stop (msg : string)        (* Rcpp::stop *)
| LengthError                (* std::length_error, from vector::reserve *)
| BadArrayNewLength          (* std::bad_array_new_length, from new char[n] *)
| Undefined (u : undefined).

Inductive result (A : Type) : Type :=
| Ok (a : A)
| Err (e : error).
Arguments Err {A} e.

Definition M (S A : Type) : Type := S -> result A * S.

Definition ret {S A : Type} (a : A) : M S A := fun s => (Ok a, s).

Definition throw {S A : Type} (e : error) : M S A := fun s => (Err e, s).

Definition bind {S A B : Type} (m : M S A) (k : A -> M S B) : M S B :=
  fun s =>
    match m s with
    | (Ok a, s') => k a s'
    | (Err e, s') => (Err e, s')
    end.

Definition lift {S A : Type} (r : result A) : M S A := fun s => (r, s).

(** The current state. *)
Definition get {S : Type} : M S S := fun s => (Ok s, s).

(** [a + b] and [a * b] on [int]. *)
Definition int_add (a b : Z) : result Z :=
  if (INT_MIN <=? a + b) && (a + b <=? INT_MAX) then Ok (a + b)
  else Err (Undefined SignedOverflow).

Definition int_mul (a b : Z) : result Z :=
  if (INT_MIN <=? a * b) && (a * b <=? INT_MAX) then Ok (a * b)
  else Err (Undefined SignedOverflow).

Notation "x <- m ;; k" := (bind m (fun x => k))
  (at level 61, m at next level, right associativity).
Notation "m ;;; k" := (bind m (fun _ => k))
  (at level 61, right associativity).

(** [for (int i = start; ...; i++) body], run [n] times over the loop-carried
    value [a]. *)
Fixpoint for_loop {S A : Type} (n : nat) (i : Z) (body : Z -> A -> M S A)
    (a : A) : M S A :=
  match n with
  | O => ret a
  | Datatypes.S n' => a' <- body i a ;; for_loop n' (i + 1) body a'
  end.

(** [for (int i = 0; i < bound; i++) body]. *)
Definition for_upto {S A : Type} (bound : Z) (body : Z -> A -> M S A)
    (a : A) : M S A :=
  for_loop (Z.to_nat bound) 0 body a.

(* ================================================================= *)
(** ** The [std::istream] interface and its fixed-width reads *)

Class IStream (S : Type) : Type := {
  (** [is.read(dst, n)]: the [n] bytes stored into [dst], or [None] when
      the stream could not supply them; [dst] is then not set, and the
      stream stays failed. *)
  read : nat -> M S (option (list byte))
}.

(** The value [f bs] of a variable that a read was to set from the bytes
    [bs]: to use the variable after a short read is undefined behaviour. *)
Definition value_of {S A : Type} (f : list byte -> A)
    (o : option (list byte)) : M S A :=
  match o with
  | Some bs => ret (f bs)
  | None => throw (Undefined ShortRead)
  end.

Definition as_int8 (bs : list byte) : Z := signed 8 (le_to_Z bs).
Definition as_int16 (bs : list byte) : Z := signed 16 (le_to_Z bs).
Definition as_int32 (bs : list byte) : Z := signed 32 (le_to_Z bs).
Definition as_int64 (bs : list byte) : Z := signed 64 (le_to_Z bs).
Definition as_float (bs : list byte) : spec_float :=
  Float32.float_of_bits (le_to_Z bs).

Definition SIZE_OF_CHAR : nat := 1.
Definition SIZE_OF_SHORT : nat := 2.
Definition SIZE_OF_INT : nat := 4.
Definition SIZE_OF_FLOAT : nat := 4.
Definition SIZE_OF_LONG : nat := 8.

Section TypedReads.
Context {S : Type} `{IStream S}.

(** A read into a variable that is used right after it. *)
Definition read_int8 : M S Z :=
  o <- read SIZE_OF_CHAR ;; value_of as_int8 o.
Definition read_int16 : M S Z :=
  o <- read SIZE_OF_SHORT ;; value_of as_int16 o.
Definition read_int32 : M S Z :=
  o <- read SIZE_OF_INT ;; value_of as_int32 o.
Definition read_int64 : M S Z :=
  o <- read SIZE_OF_LONG ;; value_of as_int64 o.
Definition read_float : M S spec_float :=
  o <- read SIZE_OF_FLOAT ;; value_of as_float o.
End TypedReads.

(** [membuf]: a stream over a byte array; the state is what is left to read. *)
Definition membuf : Type := list byte.

Definition membuf_read (n : nat) : M membuf (option (list byte)) :=
  fun s =>
    if (n <=? length s)%nat then (Ok (Some (firstn n s)), skipn n s)
    else (Ok None, skipn n s).

#[export] Instance membuf_IStream : IStream membuf := {| read := membuf_read |}.

(* ================================================================= *)
(** ** Block decoding ([readBlock], after decompression) *)

(** The three local vectors [bins1], [bins2], [counts] of [readBlock]; all
    three, and [outputStr::count], are [std::vector<int>]. *)
Record records : Type := {
  bins1 : list Z;
  bins2 : list Z;
  counts : list Z
}.

Definition no_records : records := {| bins1 := []; bins2 := []; counts := [] |}.

(** The three [push_back]s of one contact. *)
Definition push (r : records) (b1 b2 c : Z) : records :=
  {| bins1 := bins1 r ++ [b1]; bins2 := bins2 r ++ [b2];
     counts := counts r ++ [c] |}.

(** [counts.push_back(count)] with [float count]: the implicit conversion to
    [int] truncates toward zero, and is undefined when the truncated value
    does not fit an [int]. *)
Definition float_to_int (f : spec_float) : result Z :=
  match Float32.trunc f with
  | Some z =>
      if (INT_MIN <=? z) && (z <=? INT_MAX) then Ok z
      else Err (Undefined FloatToInt)
  | None => Err (Undefined FloatToInt)
  end.

(** [v.reserve(n)] with [int32_t n]: a negative [n] converts to a [size_t]
    above [max_size()]. *)
Definition reserve {S : Type} (n : Z) : M S unit :=
  if n <? 0 then throw LengthError else ret tt.

(** The sentinel of the float encoding of a dense block, as the code writes
    it: an [int] literal. *)
Definition NAN_SENTINEL : Z := 0x7fc00000.

Section DecodeBlock.
Context {S : Type} `{IStream S}.

(** Body of the version < 7 loop. *)
Definition decode_record (_ : Z) (r : records) : M S records :=
  binX <- read_int32 ;;
  binY <- read_int32 ;;
  count <- read_float ;;
  c <- lift (float_to_int count) ;;
  ret (push r binX binY c).

(** Body of the inner loop of the list-of-rows representation. *)
Definition decode_column (useShort binXOffset binY : Z) (_ : Z)
    (r : records) : M S records :=
  x <- read_int16 ;;
  binX <- lift (int_add binXOffset x) ;;
  if useShort =? 0 then
    c <- read_int16 ;;
    ret (push r binX binY c)
  else
    count <- read_float ;;
    c <- lift (float_to_int count) ;;
    ret (push r binX binY c).

(** Body of the outer loop of the list-of-rows representation. *)
Definition decode_row (useShort binXOffset binYOffset : Z) (_ : Z)
    (r : records) : M S records :=
  y <- read_int16 ;;
  binY <- lift (int_add y binYOffset) ;;
  totalColumns <- read_int16 ;;
  for_upto totalColumns (decode_column useShort binXOffset binY) r.

(** Body of the loop of the dense representation.  [w] is what the read of
    the row stride stored: the loop body is the first to use it. *)
Definition decode_point (useShort binXOffset binYOffset : Z)
    (w : option (list byte)) (i : Z) (r : records) : M S records :=
  w <- value_of as_int16 w ;;
  if w =? 0 then throw (Undefined DivisionByZero)
  else
    let row := Z.quot i w in
    let column := i - row * w in
    bin1 <- lift (int_add binXOffset column) ;;
    bin2 <- lift (int_add binYOffset row) ;;
    if useShort =? 0 then
      c <- read_int16 ;;
      if negb (c =? -32768) then ret (push r bin1 bin2 c) else ret r
    else
      count <- read_float ;;
      if negb (Float32.eq_Z count NAN_SENTINEL) then
        c <- lift (float_to_int count) ;;
        ret (push r bin1 bin2 c)
      else ret r.

(** [readBlock] from the read of [totalRecords] to the end of the
    version / type case analysis: the contents of the local vectors. *)
Definition decodeBlock (version : Z) : M S records :=
  totalRecords <- read_int32 ;;
  reserve totalRecords ;;;
  if version <? 7 then
    for_upto totalRecords decode_record no_records
  else
    binXOffset <- read_int32 ;;
    binYOffset <- read_int32 ;;
    useShort <- read_int8 ;;
    type <- read_int8 ;;
    if type =? 1 then
      totalRows <- read_int16 ;;
      for_upto totalRows (decode_row useShort binXOffset binYOffset)
        no_records
    else if type =? 2 then
      totalPoints <- read_int32 ;;
      w <- read SIZE_OF_SHORT ;;
      for_upto totalPoints
        (decode_point useShort binXOffset binYOffset w) no_records
    else ret no_records.
End DecodeBlock.


(* ================================================================= *)
(** ** The file stream *)

(** [std::ifstream]: the bytes of the file, the get position and the two
    state bits the reader can set.  [seeks] is a ghost field: the targets of
    the [seekg] calls made so far, newest first. *)
Record ifstream : Type := {
  content : list byte;
  gpos : nat;
  eofbit : bool;
  failbit : bool;
  seeks : list Z
}.

Definition good (s : ifstream) : bool := negb (eofbit s) && negb (failbit s).

(** [fin.read(dst, n)]. *)
Definition ifstream_read (n : nat) : M ifstream (option (list byte)) :=
  fun s =>
    if good s then
      if (gpos s + n <=? length (content s))%nat then
        (Ok (Some (firstn n (skipn (gpos s) (content s)))),
         {| content := content s; gpos := (gpos s + n)%nat; eofbit := false;
            failbit := false; seeks := seeks s |})
      else
        (Ok None,
         {| content := content s; gpos := Nat.max (gpos s) (length (content s));
            eofbit := true; failbit := true; seeks := seeks s |})
    else
      (Ok None,
       {| content := content s; gpos := gpos s; eofbit := eofbit s;
          failbit := true; seeks := seeks s |}).

#[export] Instance ifstream_IStream : IStream ifstream :=
  {| read := ifstream_read |}.

(** [fin.read(dst, n)] into an array [dst] of [n] chars that held [before],
    for a caller that goes on with the array without testing the stream:
    what the array holds afterwards.  The chars extracted (all [n] of them,
    those left in the file, or none on a stream that is not good) are stored
    at its start, the others stay as they were; the stream is left as
    [ifstream_read] leaves it. *)
Definition ifstream_read_into (before : list byte) (n : nat)
    : M ifstream (list byte) :=
  fun s =>
    let extracted :=
      if good s then firstn n (skipn (gpos s) (content s)) else [] in
    (Ok (extracted ++ skipn (length extracted) before),
     snd (ifstream_read n s)).

(** The characters before the first NUL, and what follows that NUL when
    there is one. *)
Fixpoint split_at_nul (bs : list byte) : list byte * option (list byte) :=
  match bs with
  | [] => ([], None)
  | b :: rest =>
      if Byte.eqb b x00 then ([], Some rest)
      else let (l, r) := split_at_nul rest in (b :: l, r)
  end.

(** [getline(fin, str, '\0')] into a freshly constructed [str]: the
    delimiter is extracted and dropped; reaching the end of the file sets
    [eofbit], and [failbit] too when no character was extracted. *)
Definition getline : M ifstream string :=
  fun s =>
    if good s then
      match split_at_nul (skipn (gpos s) (content s)) with
      | (l, Some _) =>
          (Ok (string_of_list_byte l),
           {| content := content s; gpos := (gpos s + length l + 1)%nat;
              eofbit := false; failbit := false; seeks := seeks s |})
      | (l, None) =>
          (Ok (string_of_list_byte l),
           {| content := content s; gpos := (gpos s + length l)%nat;
              eofbit := true;
              failbit := match l with [] => true | _ => false end;
              seeks := seeks s |})
      end
    else
      (Ok EmptyString,
       {| content := content s; gpos := gpos s; eofbit := eofbit s;
          failbit := true; seeks := seeks s |}).

(** [fin.seekg(p, std::ios::beg)]: clears [eofbit]; does nothing more on a
    failed stream; a negative target fails. *)
Definition seekg (p : Z) : M ifstream unit :=
  fun s =>
    if failbit s then
      (Ok tt, {| content := content s; gpos := gpos s; eofbit := false;
                 failbit := true; seeks := p :: seeks s |})
    else if p <? 0 then
      (Ok tt, {| content := content s; gpos := gpos s; eofbit := false;
                 failbit := true; seeks := p :: seeks s |})
    else
      (Ok tt, {| content := content s; gpos := Z.to_nat p; eofbit := false;
                 failbit := false; seeks := p :: seeks s |}).

(** [fin.tellg()]. *)
Definition tellg : M ifstream Z :=
  fun s =>
    if good s then (Ok (Z.of_nat (gpos s)), s)
    else (Ok (-1), {| content := content s; gpos := gpos s;
                      eofbit := eofbit s; failbit := true;
                      seeks := seeks s |}).

(** [fin.open(fname, std::fstream::in)] on a file system that holds
    [file] under that name. *)
Definition open (file : option (list byte)) : ifstream :=
  match file with
  | Some bs => {| content := bs; gpos := 0; eofbit := false;
                  failbit := false; seeks := [] |}
  | None => {| content := []; gpos := 0; eofbit := false;
               failbit := true; seeks := [] |}
  end.

(* ================================================================= *)
(** ** [hicInfo] and [outputStr] *)

Record hicInfo : Type := {
  master : Z;
  availableResolutions : list Z;
  resolution : Z;
  selectedResolutionId : Z;
  version : Z;
  chromosomes : list string;
  chromosomeLengths : list Z;
  totalChromosomes : Z;
  firstChromosomeIsAll : bool
}.

Record outputStr : Type := {
  chromosome : list Z;
  bin1 : list Z;
  bin2 : list Z;
  count : list Z
}.

(** [hicInfo info; info.resolution = resolution;]: the vectors are empty;
    the scalar members are not initialised, and are written before they are
    read (0 stands for them here). *)
Definition hicInfo_init (resolution : Z) : hicInfo :=
  {| master := 0; availableResolutions := []; resolution := resolution;
     selectedResolutionId := 0; version := 0; chromosomes := [];
     chromosomeLengths := []; totalChromosomes := 0;
     firstChromosomeIsAll := false |}.

Definition outputStr_init : outputStr :=
  {| chromosome := []; bin1 := []; bin2 := []; count := [] |}.

Definition set_selectedResolutionId (info : hicInfo) (i : Z) : hicInfo :=
  {| master := master info;
     availableResolutions := availableResolutions info;
     resolution := resolution info; selectedResolutionId := i;
     version := version info; chromosomes := chromosomes info;
     chromosomeLengths := chromosomeLengths info;
     totalChromosomes := totalChromosomes info;
     firstChromosomeIsAll := firstChromosomeIsAll info |}.

Definition set_version (info : hicInfo) (v : Z) : hicInfo :=
  {| master := master info;
     availableResolutions := availableResolutions info;
     resolution := resolution info;
     selectedResolutionId := selectedResolutionId info;
     version := v; chromosomes := chromosomes info;
     chromosomeLengths := chromosomeLengths info;
     totalChromosomes := totalChromosomes info;
     firstChromosomeIsAll := firstChromosomeIsAll info |}.

Definition set_master (info : hicInfo) (m : Z) : hicInfo :=
  {| master := m;
     availableResolutions := availableResolutions info;
     resolution := resolution info;
     selectedResolutionId := selectedResolutionId info;
     version := version info; chromosomes := chromosomes info;
     chromosomeLengths := chromosomeLengths info;
     totalChromosomes := totalChromosomes info;
     firstChromosomeIsAll := firstChromosomeIsAll info |}.

Definition set_totalChromosomes (info : hicInfo) (n : Z) : hicInfo :=
  {| master := master info;
     availableResolutions := availableResolutions info;
     resolution := resolution info;
     selectedResolutionId := selectedResolutionId info;
     version := version info; chromosomes := chromosomes info;
     chromosomeLengths := chromosomeLengths info;
     totalChromosomes := n;
     firstChromosomeIsAll := firstChromosomeIsAll info |}.

Definition set_firstChromosomeIsAll (info : hicInfo) (b : bool) : hicInfo :=
  {| master := master info;
     availableResolutions := availableResolutions info;
     resolution := resolution info;
     selectedResolutionId := selectedResolutionId info;
     version := version info; chromosomes := chromosomes info;
     chromosomeLengths := chromosomeLengths info;
     totalChromosomes := totalChromosomes info;
     firstChromosomeIsAll := b |}.

(** [info.chromosomes.push_back(name);
     info.chromosomeLengths.push_back(length);] *)
Definition push_chromosome (info : hicInfo) (name : string) (len : Z)
    : hicInfo :=
  {| master := master info;
     availableResolutions := availableResolutions info;
     resolution := resolution info;
     selectedResolutionId := selectedResolutionId info;
     version := version info; chromosomes := chromosomes info ++ [name];
     chromosomeLengths := chromosomeLengths info ++ [len];
     totalChromosomes := totalChromosomes info;
     firstChromosomeIsAll := firstChromosomeIsAll info |}.

(** [info.availableResolutions.push_back(resolution);] *)
Definition push_resolution (info : hicInfo) (r : Z) : hicInfo :=
  {| master := master info;
     availableResolutions := availableResolutions info ++ [r];
     resolution := resolution info;
     selectedResolutionId := selectedResolutionId info;
     version := version info; chromosomes := chromosomes info;
     chromosomeLengths := chromosomeLengths info;
     totalChromosomes := totalChromosomes info;
     firstChromosomeIsAll := firstChromosomeIsAll info |}.

(** [std::to_string] of an [int], and what [operator<<] prints for it. *)
Definition to_string (z : Z) : string := NilZero.string_of_int (Z.to_int z).

(** The integer that a decimal numeral denotes: digits, after a minus sign
    for a negative one. *)
Definition decimal_value (s : string) : option Z :=
  option_map Z.of_int (NilZero.int_of_string s).

(* ================================================================= *)
(** ** The header *)

(** [readMagicString]: [str[0] == 'H' && str[1] == 'I' && str[2] == 'C'];
    the short-circuit keeps every index within [str.size()]. *)
Definition readMagicString : M ifstream bool :=
  str <- getline ;;
  ret match str with
      | String "H" (String "I" (String "C" _)) => true
      | _ => false
      end.

(** Body of the attribute loop: both strings are read and dropped. *)
Definition read_attribute (_ : Z) (_ : unit) : M ifstream unit :=
  key <- getline ;;
  value <- getline ;;
  ret tt.

(** Body of the chromosome loop. *)
Definition read_chromosome (_ : Z) (info : hicInfo) : M ifstream hicInfo :=
  name <- getline ;;
  len <- read_int32 ;;
  ret (push_chromosome info name len).

(** Body of the resolution loop. *)
Definition read_resolution (i : Z) (info : hicInfo) : M ifstream hicInfo :=
  r <- read_int32 ;;
  let info := push_resolution info r in
  if r =? resolution info then ret (set_selectedResolutionId info i)
  else ret info.

Definition readHeader (info : hicInfo) : M ifstream hicInfo :=
  let info := set_selectedResolutionId info (-1) in
  magic <- readMagicString ;;
  if negb magic then
    throw (Stop
      "Hi-C magic string is missing, does not appear to be a hic file.")
  else
    v <- read_int32 ;;
    let info := set_version info v in
    if v <? 6 then
      throw (Stop ("Version " ++ to_string v ++ " no longer supported."))
    else
      m <- read_int64 ;;
      let info := set_master info m in
      genome <- getline ;;
      totalAttributes <- read_int32 ;;
      for_upto totalAttributes read_attribute tt ;;;
      n <- read_int32 ;;
      let info := set_totalChromosomes info n in
      info <- for_upto n read_chromosome info ;;
      totalResolutions <- read_int32 ;;
      info <- for_upto totalResolutions read_resolution info ;;
      match chromosomes info with
      | [] => throw (Undefined IndexOutOfBounds)
      | name :: _ =>
          ret (set_firstChromosomeIsAll info
                 (String.eqb name "ALL" || String.eqb name "All"))
      end.

(* ================================================================= *)
(** ** Blocks, matrices, the footer and the entry point *)

(** The end of [readBlock]: [chromosomeIds] gets one copy of
    [chromosomeId] per element of [bins1], and the four local vectors are
    appended to the four vectors of [output]. *)
Definition append_records (output : outputStr) (chromosomeId : Z)
    (r : records) : outputStr :=
  {| chromosome := chromosome output
                     ++ repeat chromosomeId (length (bins1 r));
     bin1 := bin1 output ++ bins1 r;
     bin2 := bin2 output ++ bins2 r;
     count := count output ++ counts r |}.

(** The four R vectors of the returned data frame. *)
Record DataFrame : Type := {
  df_chromosome : list Z;       (* factor codes *)
  df_levels : list string;      (* factor levels *)
  df_position_1 : list Z;
  df_position_2 : list Z;
  df_interaction : list Z
}.

(** [f] on every element, left to right, up to the first [Err]. *)
Fixpoint map_result {A B : Type} (f : A -> result B) (l : list A)
    : result (list B) :=
  match l with
  | [] => Ok []
  | x :: l' =>
      match f x with
      | Ok y =>
          match map_result f l' with
          | Ok ys => Ok (y :: ys)
          | Err e => Err e
          end
      | Err e => Err e
      end
  end.

(** R's integer NA, and Rcpp's sugar [vector + int] and [vector * int]:
    an NA operand gives NA, else the [int] operation. *)
Definition NA_INTEGER : Z := INT_MIN.

Definition sugar_plus (v : list Z) (rhs : Z) : result (list Z) :=
  map_result (fun x => if rhs =? NA_INTEGER then Ok rhs
                       else if x =? NA_INTEGER then Ok x
                       else int_add x rhs) v.

Definition sugar_times (v : list Z) (rhs : Z) : result (list Z) :=
  map_result (fun x => if rhs =? NA_INTEGER then Ok rhs
                       else if x =? NA_INTEGER then Ok x
                       else int_mul x rhs) v.

(** What the entry point leaves behind: the file stream and the text sent
    to [Rcerr]. *)
Record world : Type := {
  fin : ifstream;
  Rcerr : string
}.

Definition tab : string := String (ascii_of_nat 9) EmptyString.
Definition newline : string := String (ascii_of_nat 10) EmptyString.

(** The lines the entry point prints when the resolution was not found. *)
Definition resolution_report (resolution : Z) (available : list Z) : string :=
  ("Cannot find resolution " ++ to_string resolution ++ "." ++ newline
   ++ "Available resolutions:" ++ newline
   ++ String.concat EmptyString
        (map (fun r => tab ++ to_string r ++ newline) available))%string.

Section Reader.

(** zlib's [inflate], an external library: the bytes it produces for a
    compressed input when given room for all of them. *)
Variable inflate : list byte -> list byte.

(** The chars of a freshly allocated [new char[n]], which nothing has set:
    [uninitialised s i] is the char at the index [i] of the array allocated
    when the stream is in the state [s].  They are unspecified, and may be
    other ones at each allocation. *)
Variable uninitialised : ifstream -> nat -> byte.

Definition new_char (s : ifstream) (n : nat) : list byte :=
  map (uninitialised s) (seq 0 n).

(** [readBlock] tests neither the read of the compressed bytes nor what zlib
    returns: it inflates whatever the buffer holds and decodes the result. *)
Definition readBlock (position size chromosomeId : Z) (info : hicInfo)
    (output : outputStr) : M ifstream outputStr :=
  if size =? 0 then ret output
  else if size <? 0 then throw BadArrayNewLength       (* new char[size] *)
  else
    room <- lift (int_mul size 10) ;;                  (* new char[size*10] *)
    s <- get ;;
    seekg position ;;;
    compressedBytes <-
      ifstream_read_into (new_char s (Z.to_nat size)) (Z.to_nat size) ;;
    let uncompressedBytes :=
      firstn (Z.to_nat room) (inflate compressedBytes) in
    r <- lift (fst (decodeBlock (version info) uncompressedBytes)) ;;
    ret (append_records output chromosomeId r).

(** Body of the block loop of [readMatrix]: [blockId] is never used, and
    [blockPosition] and [blockSize] only for the selected resolution. *)
Definition read_block_pointer (resolutionId chromosomeId1 : Z)
    (info : hicInfo) (_ : Z) (output : outputStr) : M ifstream outputStr :=
  blockId <- read SIZE_OF_INT ;;
  blockPosition <- read SIZE_OF_LONG ;;
  blockSize <- read SIZE_OF_INT ;;
  if resolutionId =? selectedResolutionId info then
    pos <- tellg ;;
    blockPosition <- value_of as_int64 blockPosition ;;
    blockSize <- value_of as_int32 blockSize ;;
    output <- readBlock blockPosition blockSize chromosomeId1 info output ;;
    seekg pos ;;;
    ret output
  else ret output.

(** Body of the resolution loop of [readMatrix]: of what it reads, only
    [totalBlocks] is used. *)
Definition read_block_directory (chromosomeId1 : Z) (info : hicInfo)
    (resolutionId : Z) (output : outputStr) : M ifstream outputStr :=
  unit_ <- getline ;;
  resIdx <- read SIZE_OF_INT ;;
  sumCounts <- read SIZE_OF_FLOAT ;;
  occupiedCellCount <- read SIZE_OF_FLOAT ;;
  stdDev <- read SIZE_OF_FLOAT ;;
  percent95 <- read SIZE_OF_FLOAT ;;
  binSize <- read SIZE_OF_INT ;;
  totalBlockBins <- read SIZE_OF_INT ;;
  totalBlockColumns <- read SIZE_OF_INT ;;
  totalBlocks <- read_int32 ;;
  for_upto totalBlocks (read_block_pointer resolutionId chromosomeId1 info)
    output.

Definition readMatrix (start size : Z) (info : hicInfo)
    (output : outputStr) : M ifstream outputStr :=
  if negb (start =? -1) then
    seekg start ;;;
    chromosomeId1 <- read_int32 ;;
    chromosomeId2 <- read_int32 ;;
    if chromosomeId1 =? chromosomeId2 then
      if negb (firstChromosomeIsAll info) || negb (chromosomeId1 =? 0) then
        totalResolutions <- read_int32 ;;
        for_upto totalResolutions (read_block_directory chromosomeId1 info)
          output
      else ret output
    else ret output
  else ret output.

(** Body of the entry loop of [readFooter]. *)
Definition read_entry (info : hicInfo) (_ : Z) (output : outputStr)
    : M ifstream outputStr :=
  str <- getline ;;
  fpos <- read_int64 ;;
  sizeInBytes <- read_int32 ;;
  pos <- tellg ;;
  output <- readMatrix fpos sizeInBytes info output ;;
  seekg pos ;;;
  ret output.

Definition readFooter (info : hicInfo) (output : outputStr)
    : M ifstream outputStr :=
  seekg (master info) ;;;
  totalBytes <- read SIZE_OF_INT ;;
  totalEntries <- read_int32 ;;
  for_upto totalEntries (read_entry info) output.

(** The conversion of the C++ vectors to the columns of the data frame. *)
Definition to_DataFrame (info : hicInfo) (output : outputStr)
    (resolution : Z) : result DataFrame :=
  match (if firstChromosomeIsAll info then Ok (chromosome output)
         else sugar_plus (chromosome output) 1) with
  | Err e => Err e
  | Ok codes =>
      match sugar_times (bin1 output) resolution with
      | Err e => Err e
      | Ok p1 =>
          match sugar_times (bin2 output) resolution with
          | Err e => Err e
          | Ok p2 =>
              Ok {| df_chromosome := codes;
                    df_levels :=
                      if firstChromosomeIsAll info then tl (chromosomes info)
                      else chromosomes info;
                    df_position_1 := p1;
                    df_position_2 := p2;
                    df_interaction := count output |}
          end
      end
  end.

(** A computation on the file stream, run inside the world. *)
Definition on_fin {A : Type} (m : M ifstream A) : M world A :=
  fun w =>
    let (r, s) := m (fin w) in (r, {| fin := s; Rcerr := Rcerr w |}).

(** [Rcerr << text]. *)
Definition print_error (text : string) : M world unit :=
  fun w => (Ok tt, {| fin := fin w; Rcerr := (Rcerr w ++ text)%string |}).

(** [parseHiCFile], from the state in which [fin] was just opened. *)
Definition parse (fname : string) (resolution : Z) : M world DataFrame :=
  fun w =>
    if failbit (fin w) then
      throw (Stop ("File " ++ fname ++ " cannot be opened for reading.")) w
    else
      (info <- on_fin (readHeader (hicInfo_init resolution)) ;;
       if selectedResolutionId info =? -1 then
         print_error
           (resolution_report resolution (availableResolutions info)) ;;;
         throw (Stop "Exiting.")
       else
         output <- on_fin (readFooter info outputStr_init) ;;
         lift (to_DataFrame info output resolution)) w.

(** [parseHiCFile] on a file system [fs]. *)
Definition parseHiCFile (fs : string -> option (list byte)) (fname : string)
    (resolution : Z) : result DataFrame * world :=
  parse fname resolution {| fin := open (fs fname); Rcerr := EmptyString |}.

End Reader.

(* ================================================================= *)
(** ** Byte layouts of the format, used to state the properties *)

Module Layout.

Definition le16 (z : Z) : list byte := Z_to_le 2 z.
Definition le32 (z : Z) : list byte := Z_to_le 4 z.
Definition le64 (z : Z) : list byte := Z_to_le 8 z.

(** A NUL-terminated string. *)
Definition cstring (s : string) : list byte := list_byte_of_string s ++ [x00].

(** One record of a version < 7 block: [binX], [binY] and the bit pattern of
    the float count. *)
Definition raw_record : Type := (Z * Z * Z)%type.

Definition record_bytes (rc : raw_record) : list byte :=
  let '(binX, binY, bits) := rc in le32 binX ++ le32 binY ++ le32 bits.

(** A version < 7 block. *)
Definition block_v6 (recs : list raw_record) : list byte :=
  le32 (Z.of_nat (length recs)) ++ flat_map record_bytes recs.

(** A row of the list-of-rows representation: the relative [y] and the
    [(x, count)] entries, the count as the stored 2- or 4-byte pattern. *)
Definition raw_row : Type := (Z * list (Z * Z))%type.

Definition count_bytes (useShort c : Z) : list byte :=
  if useShort =? 0 then le16 c else le32 c.

Definition column_bytes (useShort : Z) (xc : Z * Z) : list byte :=
  le16 (fst xc) ++ count_bytes useShort (snd xc).

Definition row_bytes (useShort : Z) (row : raw_row) : list byte :=
  le16 (fst row) ++ le16 (Z.of_nat (length (snd row)))
  ++ flat_map (column_bytes useShort) (snd row).

(** A version >= 7 block of representation type 1. *)
Definition block_type1 (totalRecords binXOffset binYOffset useShort : Z)
    (rows : list raw_row) : list byte :=
  le32 totalRecords ++ le32 binXOffset ++ le32 binYOffset
  ++ [byte_of_Z useShort] ++ [x01]
  ++ le16 (Z.of_nat (length rows)) ++ flat_map (row_bytes useShort) rows.

(** A version >= 7 block of representation type 2: [cells] are the stored
    count patterns, in index order. *)
Definition block_type2 (totalRecords binXOffset binYOffset useShort w : Z)
    (cells : list Z) : list byte :=
  le32 totalRecords ++ le32 binXOffset ++ le32 binYOffset
  ++ [byte_of_Z useShort] ++ [x02]
  ++ le32 (Z.of_nat (length cells)) ++ le16 w
  ++ flat_map (count_bytes useShort) cells.

(** The [(x, y, count)] entries of the rows, in stream order. *)
Definition entries (rows : list raw_row) : list raw_record :=
  flat_map (fun row => map (fun xc => (fst xc, fst row, snd xc)) (snd row))
    rows.

(** The same entries with the block offsets added: the content of the
    block as absolute records. *)
Definition absolute (binXOffset binYOffset : Z) (rows : list raw_row)
    : list raw_record :=
  map (fun e => let '(x, y, c) := e in (binXOffset + x, y + binYOffset, c))
    (entries rows).

(** The value the code stores for a count pattern [c]. *)
Definition stored_count (useShort c : Z) : result Z :=
  if useShort =? 0 then Ok c
  else float_to_int (Float32.float_of_bits c).

(** Field ranges. *)
Definition in_uint32 (z : Z) : Prop := 0 <= z < 2 ^ 32.

Definition count_ok (useShort c : Z) : Prop :=
  if useShort =? 0 then in_int16 c else in_uint32 c.

Definition row_ok (useShort : Z) (row : raw_row) : Prop :=
  in_int16 (fst row)
  /\ Z.of_nat (length (snd row)) < 2 ^ 15
  /\ Forall (fun xc => in_int16 (fst xc) /\ count_ok useShort (snd xc))
       (snd row).

Definition record_ok (rc : raw_record) : Prop :=
  let '(binX, binY, bits) := rc in
  in_int32 binX /\ in_int32 binY /\ in_uint32 bits.

(** A header. *)
Definition header (magic : string) (version master : Z) (genome : string)
    (attributes : list (string * string)) (chroms : list (string * Z))
    (resolutions : list Z) : list byte :=
  cstring magic ++ le32 version ++ le64 master ++ cstring genome
  ++ le32 (Z.of_nat (length attributes))
  ++ flat_map (fun kv => cstring (fst kv) ++ cstring (snd kv)) attributes
  ++ le32 (Z.of_nat (length chroms))
  ++ flat_map (fun nl => cstring (fst nl) ++ le32 (snd nl)) chroms
  ++ le32 (Z.of_nat (length resolutions))
  ++ flat_map le32 resolutions.

(** A block pointer, a block directory, a matrix region, a footer. *)
Definition pointer_bytes (p : Z * Z * Z) : list byte :=
  let '(blockId, blockPosition, blockSize) := p in
  le32 blockId ++ le64 blockPosition ++ le32 blockSize.

(** The fields of a block directory, in the order of the file: the unit, the
    index, the four statistics (floats, here their bit patterns), the bin
    size, the two block dimensions, and the block pointers, each a
    [(blockId, blockPosition, blockSize)]. *)
Record directory : Type := {
  dir_unit : string;
  dir_resIdx : Z;
  dir_sumCounts : Z;
  dir_occupiedCellCount : Z;
  dir_stdDev : Z;
  dir_percent95 : Z;
  dir_binSize : Z;
  dir_blockBinCount : Z;
  dir_blockColumnCount : Z;
  dir_pointers : list (Z * Z * Z)
}.

Definition directory_bytes (d : directory) : list byte :=
  cstring (dir_unit d) ++ le32 (dir_resIdx d)
  ++ le32 (dir_sumCounts d) ++ le32 (dir_occupiedCellCount d)
  ++ le32 (dir_stdDev d) ++ le32 (dir_percent95 d)
  ++ le32 (dir_binSize d) ++ le32 (dir_blockBinCount d)
  ++ le32 (dir_blockColumnCount d)
  ++ le32 (Z.of_nat (length (dir_pointers d)))
  ++ flat_map pointer_bytes (dir_pointers d).

Definition matrix_bytes (chromosomeId1 chromosomeId2 : Z)
    (directories : list (list byte)) : list byte :=
  le32 chromosomeId1 ++ le32 chromosomeId2
  ++ le32 (Z.of_nat (length directories)) ++ List.concat directories.

Definition footer_bytes (totalBytes : Z) (entries : list (string * Z * Z))
    : list byte :=
  le32 totalBytes ++ le32 (Z.of_nat (length entries))
  ++ flat_map (fun e => let '(key, fpos, size) := e in
                         cstring key ++ le64 fpos ++ le32 size) entries.

End Layout.
Import Layout.

(* ================================================================= *)
(** ** A small file *)

Module Sample.

(** A stored (not compressed) stream: the identity stands for [inflate]. *)
Definition stored (bs : list byte) : list byte := bs.

(** Fresh arrays that hold zeros. *)
Definition fresh (_ : ifstream) (_ : nat) : byte := x00.

(** A directory in base pairs, with no statistics and blocks of one bin. *)
Definition bp_directory (resIdx binSize : Z) (pointers : list (Z * Z * Z))
    : directory :=
  {| dir_unit := "BP"; dir_resIdx := resIdx; dir_sumCounts := 0;
     dir_occupiedCellCount := 0; dir_stdDev := 0; dir_percent95 := 0;
     dir_binSize := binSize; dir_blockBinCount := 1;
     dir_blockColumnCount := 1; dir_pointers := pointers |}.

(** One block: one row, [y = 3], two short counts. *)
Definition block : list byte :=
  block_type1 2 10 20 0 [(3, [(1, 5); (4, 7)])].

Definition head_bytes (chroms : list (string * Z)) (master : Z) : list byte :=
  header "HIC" 8 master "hg19" [] chroms [5000; 10000].

(** The parts of the file, in order: header, block, matrix, footer.  The
    header's length does not depend on the master offset. *)
Definition file_of (chroms : list (string * Z)) (chromosomeId : Z)
    : list byte :=
  let block_at := Z.of_nat (length (head_bytes chroms 0)) in
  let matrix_at := block_at + Z.of_nat (length block) in
  let matrix :=
    matrix_bytes chromosomeId chromosomeId
      [directory_bytes
         (bp_directory 0 5000 [(0, block_at, Z.of_nat (length block))]);
       directory_bytes (bp_directory 1 10000 [])] in
  let master := matrix_at + Z.of_nat (length matrix) in
  head_bytes chroms master ++ block ++ matrix
  ++ footer_bytes 0 [("0_0"%string, matrix_at, Z.of_nat (length matrix))].

Definition file : list byte := file_of [("chr1"%string, 1000)] 0.

(** The same file with a leading aggregate chromosome; its matrix is that of
    chromosome id 0. *)
Definition file_all : list byte :=
  file_of [("All"%string, 2000); ("chr1"%string, 1000)] 0.

(** A header that lists the resolution 5000 twice, and one that declares no
    chromosome. *)
Definition head_duplicate : list byte :=
  header "HIC" 8 0 "hg19" [] [("chr1"%string, 1000)] [5000; 10000; 5000].

Definition head_no_chromosome : list byte :=
  header "HIC" 8 0 "hg19" [] [] [5000; 10000].

Definition fs (bs : list byte) (name : string) : option (list byte) :=
  if String.eqb name "sample.hic" then Some bs else None.

End Sample.

(* ================================================================= *)
(** ** Predicates used by the properties *)

(** The three components of a record of a block. *)
Definition rec_x (rc : raw_record) : Z := fst (fst rc).
Definition rec_y (rc : raw_record) : Z := snd (fst rc).
Definition rec_count (rc : raw_record) : Z := snd rc.

(** The local vectors after the records [recs] were pushed onto [r], each
    count stored as [stored_count] gives it; the first count that cannot be
    stored ends the run. *)
Fixpoint collect (useShort : Z) (recs : list raw_record) (r : records)
    : result records :=
  match recs with
  | [] => Ok r
  | rc :: recs' =>
      match stored_count useShort (rec_count rc) with
      | Ok c => collect useShort recs' (push r (rec_x rc) (rec_y rc) c)
      | Err e => Err e
      end
  end.

(** Truncation toward zero of a rational. *)
Definition Qtrunc (q : Q) : Z := if Qle_bool 0 q then Qfloor q else Qceiling q.

(** The stored count [c] is the value of the float with pattern [bits]. *)
Definition count_is_float_value (bits c : Z) : Prop :=
  exists q, Float32.to_Q (Float32.float_of_bits bits) = Some q
            /\ Qeq (inject_Z c) q.

(** The stored count [c] is the value of the float with pattern [bits],
    truncated toward zero. *)
Definition count_is_truncated_float (bits c : Z) : Prop :=
  exists q, Float32.to_Q (Float32.float_of_bits bits) = Some q
            /\ c = Qtrunc q.

(** [i] is the first, respectively the last, index of [l] that holds [x]. *)
Definition first_index_of (x : Z) (l : list Z) (i : Z) : Prop :=
  0 <= i < Z.of_nat (length l)
  /\ nth (Z.to_nat i) l 0 = x
  /\ forall j, 0 <= j < i -> nth (Z.to_nat j) l 0 <> x.

Definition last_index_of (x : Z) (l : list Z) (i : Z) : Prop :=
  0 <= i < Z.of_nat (length l)
  /\ nth (Z.to_nat i) l 0 = x
  /\ forall j, i < j < Z.of_nat (length l) -> nth (Z.to_nat j) l 0 <> x.

(** What the resolution loop has recorded once it has visited [l]. *)
Definition selection_of (wanted : Z) (l : list Z) (selected : Z) : Prop :=
  (selected = -1 /\ ~ In wanted l) \/ last_index_of wanted l selected.

(** The start of [readMatrix]: the seek to the region and the read of its
    two chromosome ids. *)
Definition read_region_ids (start : Z) : M ifstream (Z * Z) :=
  seekg start ;;;
  chromosomeId1 <- read_int32 ;;
  chromosomeId2 <- read_int32 ;;
  ret (chromosomeId1, chromosomeId2).

(** The [seekg] calls made so far are [l]. *)
Definition seeks_are (l : list Z) (s : ifstream) : Prop := seeks s = l.

(** [o'] is [o] with the same number of elements appended to each of its
    four vectors. *)
Definition appends_equally (o o' : outputStr) : Prop :=
  exists n : nat,
    length (chromosome o') = (length (chromosome o) + n)%nat
    /\ length (bin1 o') = (length (bin1 o) + n)%nat
    /\ length (bin2 o') = (length (bin2 o) + n)%nat
    /\ length (count o') = (length (count o) + n)%nat.

(** The four columns of a data frame have one length. *)
Definition rectangular (df : DataFrame) : Prop :=
  length (df_chromosome df) = length (df_position_1 df)
  /\ length (df_position_1 df) = length (df_position_2 df)
  /\ length (df_position_2 df) = length (df_interaction df).

(** The test of the dense loop on the count pattern [c]: the point is
    pushed. *)
Definition point_kept (useShort c : Z) : bool :=
  if useShort =? 0 then negb (c =? -32768)
  else negb (Float32.eq_Z (Float32.float_of_bits c) NAN_SENTINEL).

(** The points of a dense block whose cells, from index [i] on, hold the
    count patterns [cells]: [row = i / w], [column = i - row * w]. *)
Fixpoint dense_points (binXOffset binYOffset w i : Z) (cells : list Z)
    : list raw_record :=
  match cells with
  | [] => []
  | c :: cells' =>
      (binXOffset + (i - Z.quot i w * w), binYOffset + Z.quot i w, c)
      :: dense_points binXOffset binYOffset w (i + 1) cells'
  end.

(** The additions of the block offsets stay within [int]. *)
Definition row_sums_ok (binXOffset binYOffset : Z) (row : raw_row) : Prop :=
  in_int32 (fst row + binYOffset)
  /\ Forall (fun xc => in_int32 (binXOffset + fst xc)) (snd row).

(** The four vectors of an [outputStr] have one length. *)
Definition balanced (o : outputStr) : Prop :=
  length (chromosome o) = length (bin1 o)
  /\ length (bin1 o) = length (bin2 o)
  /\ length (bin2 o) = length (count o).

(** The three local vectors of [readBlock] have one length. *)
Definition aligned (r : records) : Prop :=
  length (bins1 r) = length (bins2 r)
  /\ length (bins2 r) = length (counts r).

(** A computation keeps a property of the state, whatever its outcome. *)
Definition keeps {S A : Type} (Q : S -> Prop) (m : M S A) : Prop :=
  forall s r s', Q s -> m s = (r, s') -> Q s'.

(* ================================================================= *)
(** ** Further predicates *)

(** A stream that has not failed, on the bytes [bytes], at the position [p],
    after the seeks [l]. *)
Definition stream_at (bytes : list byte) (p : nat) (l : list Z) : ifstream :=
  {| content := bytes; gpos := p; eofbit := false; failbit := false;
     seeks := l |}.

(** The string holds no NUL character. *)
Definition no_nul (s : string) : Prop := ~ In x00 (list_byte_of_string s).

Definition in_int64 (z : Z) : Prop := - 2 ^ 63 <= z < 2 ^ 63.

(** [o'] is [o] with elements appended, as many to each of the four
    vectors. *)
Definition extends (o o' : outputStr) : Prop :=
  exists c b1 b2 n,
    chromosome o' = chromosome o ++ c /\ bin1 o' = bin1 o ++ b1
    /\ bin2 o' = bin2 o ++ b2 /\ count o' = count o ++ n
    /\ length c = length b1 /\ length b1 = length b2
    /\ length b2 = length n.

(** [o'] is [o] with records appended that all carry the chromosome id
    [id]. *)
Definition extends_with (id : Z) (o o' : outputStr) : Prop :=
  exists k b1 b2 n,
    chromosome o' = chromosome o ++ repeat id k /\ bin1 o' = bin1 o ++ b1
    /\ bin2 o' = bin2 o ++ b2 /\ count o' = count o ++ n
    /\ length b1 = k /\ length b2 = k /\ length n = k.

(** The start of the body of the entry loop of [readFooter]: the key, the
    position and the size of an entry. *)
Definition read_entry_fields : M ifstream (Z * Z) :=
  str <- getline ;;
  fpos <- read_int64 ;;
  sizeInBytes <- read_int32 ;;
  ret (fpos, sizeInBytes).

(** The start of the body of the block loop of [readMatrix]: the three reads
    of a block pointer. *)
Definition read_pointer_fields
    : M ifstream (option (list byte) * option (list byte)) :=
  blockId <- read SIZE_OF_INT ;;
  blockPosition <- read SIZE_OF_LONG ;;
  blockSize <- read SIZE_OF_INT ;;
  ret (blockPosition, blockSize).

(** The string [getline] gives at the start of a file. *)
Definition first_string (bytes : list byte) : string :=
  string_of_list_byte (fst (split_at_nul bytes)).

(** The test of [readMagicString]. *)
Definition starts_with_HIC (str : string) : bool :=
  match str with
  | String "H" (String "I" (String "C" _)) => true
  | _ => false
  end.

(** The selection the resolution loop leaves: the resolutions [rs] are
    visited from the index [i] on, and every match overwrites [selected]. *)
Fixpoint scan_selected (wanted i : Z) (rs : list Z) (selected : Z) : Z :=
  match rs with
  | [] => selected
  | r :: rs' =>
      scan_selected wanted (i + 1) rs' (if r =? wanted then i else selected)
  end.

(** The fields of a directory fit the layout. *)
Definition directory_ok (d : directory) : Prop :=
  no_nul (dir_unit d) /\ Z.of_nat (length (dir_pointers d)) < 2 ^ 31.

(** [output] after the records of the blocks [rs] were appended in order,
    tagged with [chromosomeId]. *)
Definition append_all (output : outputStr) (chromosomeId : Z)
    (rs : list records) : outputStr :=
  fold_left (fun o r => append_records o chromosomeId r) rs output.

(** The pointer [ptr] leads to a block that decodes to the records [r]: a
    block of size 0, which holds no record, or a block that lies within the
    file [bytes], whose inflated bytes decode to [r]. *)
Definition block_at (inflate : list byte -> list byte) (bytes : list byte)
    (ver : Z) (ptr : Z * Z * Z) (r : records) : Prop :=
  let '(_, position, size) := ptr in
  in_int64 position
  /\ ((size = 0 /\ r = no_records)
      \/ (0 <= position /\ 0 < size /\ size * 10 <= INT_MAX
          /\ (Z.to_nat position + Z.to_nat size <= length bytes)%nat
          /\ fst (decodeBlock ver
                    (firstn (Z.to_nat (size * 10))
                       (inflate (firstn (Z.to_nat size)
                                   (skipn (Z.to_nat position) bytes)))))
             = Ok r)).

(** The region stored at [fpos] is one that [readMatrix] reads: both its
    chromosome ids are [c], not the aggregate pseudo-chromosome, and it
    holds the directories [dirs], any number of them.  The pointers of the
    directory whose ordinal is the selected index lead to blocks that decode
    to [rs]; there is no record when the region has no such directory. *)
Definition region_read (inflate : list byte -> list byte)
    (bytes : list byte) (info : hicInfo) (fpos c : Z) (rs : list records)
    : Prop :=
  exists (dirs : list directory) (rest : list byte),
    0 <= fpos /\ in_int32 c
    /\ (firstChromosomeIsAll info = false \/ c <> 0)
    /\ skipn (Z.to_nat fpos) bytes
       = matrix_bytes c c (map directory_bytes dirs) ++ rest
    /\ Z.of_nat (length dirs) < 2 ^ 31
    /\ Forall directory_ok dirs
    /\ match nth_error dirs (Z.to_nat (selectedResolutionId info)) with
       | Some d =>
           Forall2 (block_at inflate bytes (version info)) (dir_pointers d)
             rs
       | None => rs = []
       end.

(** The region stored at [fpos] is one that [readMatrix] skips: there is
    none, or its two chromosome ids differ, or it is the region of the
    aggregate pseudo-chromosome. *)
Definition region_skipped (bytes : list byte) (info : hicInfo) (fpos : Z)
    : Prop :=
  fpos = -1
  \/ exists (c1 c2 : Z) (rest : list byte),
       0 <= fpos /\ in_int32 c1 /\ in_int32 c2
       /\ skipn (Z.to_nat fpos) bytes = le32 c1 ++ le32 c2 ++ rest
       /\ (c1 <> c2 \/ (firstChromosomeIsAll info = true /\ c1 = 0)).

(** A footer entry [(key, fpos, size)] with the chromosome id and the
    block records of the region it leads to (no records when the region is
    skipped). *)
Definition entry : Type := ((string * Z * Z) * (Z * list records))%type.

Definition entry_ok (inflate : list byte -> list byte) (bytes : list byte)
    (info : hicInfo) (e : entry) : Prop :=
  let '((key, fpos, size), (c, rs)) := e in
  no_nul key /\ in_int64 fpos /\ in_int32 size
  /\ (region_read inflate bytes info fpos c rs
      \/ (rs = [] /\ region_skipped bytes info fpos)).

(** [output] after the records of all the entries were appended in order. *)
Definition all_records (entries : list entry) (output : outputStr)
    : outputStr :=
  fold_left (fun o (e : entry) => append_all o (fst (snd e)) (snd (snd e)))
    entries output.

(** The bytes of a footer entry. *)
Definition entry_bytes (e : string * Z * Z) : list byte :=
  let '(key, fpos, size) := e in cstring key ++ le64 fpos ++ le32 size.

(** What [readHeader] leaves in the header record on a laid-out header. *)
Definition header_info (wanted ver mst : Z) (chroms : list (string * Z))
    (resolutions : list Z) : hicInfo :=
  let name := hd EmptyString (map fst chroms) in
  {| master := mst;
     availableResolutions := resolutions;
     resolution := wanted;
     selectedResolutionId := scan_selected wanted 0 resolutions (-1);
     version := ver;
     chromosomes := map fst chroms;
     chromosomeLengths := map snd chroms;
     totalChromosomes := Z.of_nat (length chroms);
     firstChromosomeIsAll := String.eqb name "ALL" || String.eqb name "All" |}.

(** The fields of a header fit the layout: no string holds a NUL, the
    numbers fit their widths, the version is one the reader supports and
    there is a chromosome. *)
Definition header_ok (magic : string) (ver mst : Z) (genome : string)
    (attrs : list (string * string)) (chroms : list (string * Z))
    (resolutions : list Z) : Prop :=
  starts_with_HIC magic = true /\ no_nul magic /\ no_nul genome
  /\ 6 <= ver < 2 ^ 31 /\ in_int64 mst
  /\ Forall (fun kv => no_nul (fst kv) /\ no_nul (snd kv)) attrs
  /\ Forall (fun nl => no_nul (fst nl) /\ in_int32 (snd nl)) chroms
  /\ Forall in_int32 resolutions
  /\ Z.of_nat (length attrs) < 2 ^ 31
  /\ Z.of_nat (length chroms) < 2 ^ 31
  /\ Z.of_nat (length resolutions) < 2 ^ 31
  /\ chroms <> [].

(** The chromosome id from which on a factor code names a chromosome. *)
Definition first_id (info : hicInfo) : Z :=
  if firstChromosomeIsAll info then 1 else 0.

(** The header record, the output and the data frame of the sample file at
    the resolution 5000. *)
Definition sample_info : hicInfo :=
  header_info 5000 8 184 [("chr1"%string, 1000)] [5000; 10000].

Definition sample_records : records :=
  {| bins1 := [11; 14]; bins2 := [23; 23]; counts := [5; 7] |}.

Definition sample_output : outputStr :=
  {| chromosome := [0; 0]; bin1 := [11; 14]; bin2 := [23; 23];
     count := [5; 7] |}.

Definition sample_frame : DataFrame :=
  {| df_chromosome := [1; 1]; df_levels := ["chr1"%string];
     df_position_1 := [55000; 70000]; df_position_2 := [115000; 115000];
     df_interaction := [5; 7] |}.

(** The sample file with other values in the fields that the reader drops:
    a footer whose first field is 123, a first directory with statistics,
    block dimensions 1000 and 3, other block ids and one more pointer, to a
    block of size 0, and a second directory in fragments. *)
Definition sample_directories : list directory :=
  [ {| dir_unit := "BP"; dir_resIdx := 7; dir_sumCounts := 1065353216;
       dir_occupiedCellCount := 1073741824; dir_stdDev := 1077936128;
       dir_percent95 := 2143289344; dir_binSize := 5000;
       dir_blockBinCount := 1000; dir_blockColumnCount := 3;
       dir_pointers := [(9, 50, 28); (10, 0, 0)] |};
    {| dir_unit := "FRAG"; dir_resIdx := 0; dir_sumCounts := 0;
       dir_occupiedCellCount := 0; dir_stdDev := 0; dir_percent95 := 0;
       dir_binSize := 1; dir_blockBinCount := 1; dir_blockColumnCount := 1;
       dir_pointers := [] |} ].

Definition sample_file_2 : list byte :=
  Sample.head_bytes [("chr1"%string, 1000)] 202 ++ Sample.block
  ++ matrix_bytes 0 0 (map directory_bytes sample_directories)
  ++ footer_bytes 123 [("chr1_chr1"%string, 78, 124)].

(* ================================================================= *)
(** * Properties *)

Unset Implicit Arguments.

(** ** Bytes and integers *)

Module BitsFacts.

Lemma byte_to_Z_of_Z (z : Z) : byte_to_Z (byte_of_Z z) = z mod 256.
Proof.
  unfold byte_to_Z, byte_of_Z.
  assert (Hr : 0 <= z mod 256 < 256) by (apply Z.mod_pos_bound; lia).
  destruct (Byte.of_N (Z.to_N (z mod 256))) as [b|] eqn:E.
  - apply Byte.to_of_N in E. rewrite E. apply Z2N.id. lia.
  - apply Byte.of_N_None_iff in E. lia.
Qed.

Lemma byte_to_Z_range (b : byte) : 0 <= byte_to_Z b < 256.
Proof.
  unfold byte_to_Z. pose proof (Byte.to_N_bounded b). lia.
Qed.

Lemma Z_to_le_length (n : nat) (z : Z) : length (Z_to_le n z) = n.
Proof.
  revert z. induction n as [|n IH]; intros z; simpl; [reflexivity|].
  now rewrite IH.
Qed.

Lemma le_to_Z_to_le (n : nat) (z : Z) :
  le_to_Z (Z_to_le n z) = z mod 256 ^ Z.of_nat n.
Proof.
  revert z. induction n as [|n IH]; intros z.
  - simpl. now rewrite Z.mod_1_r.
  - cbn [Z_to_le le_to_Z]. rewrite byte_to_Z_of_Z, IH.
    rewrite Nat2Z.inj_succ, Z.pow_succ_r by lia.
    rewrite Z.rem_mul_r; [reflexivity | lia |].
    apply Z.pow_pos_nonneg; lia.
Qed.

Lemma signed_mod (w z : Z) :
  0 < w -> - 2 ^ (w - 1) <= z < 2 ^ (w - 1) ->
  signed w (z mod 2 ^ w) = z.
Proof.
  intros Hw Hz. unfold signed.
  assert (Hp : 2 ^ w = 2 * 2 ^ (w - 1)).
  { rewrite <- Z.pow_succ_r by lia. f_equal. lia. }
  assert (Hpos : 0 < 2 ^ (w - 1)) by (apply Z.pow_pos_nonneg; lia).
  destruct (Z.neg_nonneg_cases z) as [Hn|Hn].
  - assert (E : z mod 2 ^ w = z + 2 ^ w).
    { symmetry. apply Z.mod_unique with (q := -1); lia. }
    rewrite E. destruct (Z.ltb_spec (z + 2 ^ w) (2 ^ (w - 1))); lia.
  - rewrite Z.mod_small by lia.
    destruct (Z.ltb_spec z (2 ^ (w - 1))); lia.
Qed.

Lemma int8_of_bytes (z : Z) :
  - 2 ^ 7 <= z < 2 ^ 7 -> signed 8 (le_to_Z [byte_of_Z z]) = z.
Proof.
  intros Hz. change [byte_of_Z z] with (Z_to_le 1 z).
  rewrite le_to_Z_to_le. apply signed_mod; lia.
Qed.

Lemma int16_of_bytes (z : Z) :
  in_int16 z -> signed 16 (le_to_Z (le16 z)) = z.
Proof.
  intros Hz. unfold le16. rewrite le_to_Z_to_le.
  apply signed_mod; [lia | exact Hz].
Qed.

Lemma int32_of_bytes (z : Z) :
  in_int32 z -> signed 32 (le_to_Z (le32 z)) = z.
Proof.
  intros Hz. unfold le32. rewrite le_to_Z_to_le.
  apply signed_mod; [lia | exact Hz].
Qed.

Lemma uint32_of_bytes (z : Z) : in_uint32 z -> le_to_Z (le32 z) = z.
Proof.
  intros Hz. unfold le32. rewrite le_to_Z_to_le.
  apply Z.mod_small. exact Hz.
Qed.

End BitsFacts.
Import BitsFacts.

(** ** The monad *)

Lemma bind_run {S A B : Type} (m : M S A) (k : A -> M S B) (s s' : S)
    (a : A) :
  m s = (Ok a, s') -> bind m k s = k a s'.
Proof. intros E. unfold bind. now rewrite E. Qed.
Arguments bind_run {S A B m} k {s s' a} _.

Lemma bind_err {S A B : Type} (m : M S A) (k : A -> M S B) (s s' : S)
    (e : error) :
  m s = (Err e, s') -> bind m k s = (Err e, s').
Proof. intros E. unfold bind. now rewrite E. Qed.

Lemma bind_Ok_inv {S A B : Type} (m : M S A) (k : A -> M S B) (s s' : S)
    (b : B) :
  bind m k s = (Ok b, s') ->
  exists a s1, m s = (Ok a, s1) /\ k a s1 = (Ok b, s').
Proof.
  unfold bind. destruct (m s) as [[a|e] s1]; intros E.
  - now exists a, s1.
  - discriminate.
Qed.

Lemma lift_Ok_inv {S A : Type} (r : result A) (s s' : S) (a : A) :
  lift r s = (Ok a, s') -> r = Ok a /\ s' = s.
Proof. unfold lift. intros E. now inversion E. Qed.

Lemma ret_Ok_inv {S A : Type} (a a' : A) (s s' : S) :
  ret a s = (Ok a', s') -> a' = a /\ s' = s.
Proof. unfold ret. intros E. now inversion E. Qed.

(** A property of the loop-carried value that every successful iteration
    keeps holds after a successful loop. *)
Lemma for_loop_invariant {S A : Type} (P : A -> Prop)
    (body : Z -> A -> M S A) :
  (forall i a s a' s', P a -> body i a s = (Ok a', s') -> P a') ->
  forall n i a s a' s',
    P a -> for_loop n i body a s = (Ok a', s') -> P a'.
Proof.
  intros Hbody. induction n as [|n IH]; intros i a s a' s' Ha E.
  - apply ret_Ok_inv in E. destruct E as [-> _]. exact Ha.
  - cbn [for_loop] in E. apply bind_Ok_inv in E.
    destruct E as (a1 & s1 & E1 & E2).
    eapply IH; [|exact E2]. eapply Hbody; eassumption.
Qed.

Lemma keeps_ret {S A : Type} (Q : S -> Prop) (a : A) : keeps Q (ret a).
Proof. intros s r s' H E. inversion E; subst. exact H. Qed.

Lemma keeps_throw {S A : Type} (Q : S -> Prop) (e : error) :
  keeps Q (@throw S A e).
Proof. intros s r s' H E. inversion E; subst. exact H. Qed.

Lemma keeps_lift {S A : Type} (Q : S -> Prop) (r : result A) :
  keeps Q (@lift S A r).
Proof. intros s r' s' H E. inversion E; subst. exact H. Qed.

Lemma keeps_bind {S A B : Type} (Q : S -> Prop) (m : M S A)
    (k : A -> M S B) :
  keeps Q m -> (forall a, keeps Q (k a)) -> keeps Q (bind m k).
Proof.
  intros Hm Hk s r s' H E. unfold bind in E.
  destruct (m s) as [[a|e] s1] eqn:E1.
  - eapply Hk; [|exact E]. eapply Hm; eassumption.
  - inversion E; subst. eapply Hm; eassumption.
Qed.

Lemma keeps_for_loop {S A : Type} (Q : S -> Prop) (body : Z -> A -> M S A) :
  (forall i a, keeps Q (body i a)) ->
  forall n i a, keeps Q (for_loop n i body a).
Proof.
  intros Hbody. induction n as [|n IH]; intros i a; cbn [for_loop].
  - apply keeps_ret.
  - apply keeps_bind; [apply Hbody | intros a'; apply IH].
Qed.

Lemma keeps_if {S A : Type} (Q : S -> Prop) (b : bool) (m1 m2 : M S A) :
  keeps Q m1 -> keeps Q m2 -> keeps Q (if b then m1 else m2).
Proof. destruct b; auto. Qed.

(** ** Reading a laid-out block from a [membuf] *)

Module MembufFacts.

Lemma membuf_read_app (bs rest : list byte) :
  membuf_read (length bs) (bs ++ rest) = (Ok (Some bs), rest).
Proof.
  unfold membuf_read.
  assert (L : (length bs <=? length (bs ++ rest))%nat = true).
  { apply Nat.leb_le. rewrite length_app. lia. }
  rewrite L. clear L. f_equal.
  - do 2 f_equal. induction bs as [|b bs IH]; simpl; [reflexivity|].
    now rewrite IH.
  - induction bs as [|b bs IH]; simpl; [reflexivity|]. exact IH.
Qed.

Lemma read_le (n : nat) (z : Z) (rest : membuf) :
  read n (Z_to_le n z ++ rest) = (Ok (Some (Z_to_le n z)), rest).
Proof.
  cbn [read membuf_IStream].
  rewrite <- (Z_to_le_length n z) at 1. apply membuf_read_app.
Qed.

Lemma read_int32_le32 (z : Z) (rest : membuf) :
  in_int32 z -> read_int32 (le32 z ++ rest) = (Ok z, rest).
Proof.
  intros Hz. unfold read_int32.
  rewrite (bind_run _ (read_le SIZE_OF_INT z rest)).
  unfold value_of, ret, as_int32. fold (le32 z). now rewrite int32_of_bytes.
Qed.

Lemma read_int16_le16 (z : Z) (rest : membuf) :
  in_int16 z -> read_int16 (le16 z ++ rest) = (Ok z, rest).
Proof.
  intros Hz. unfold read_int16.
  rewrite (bind_run _ (read_le SIZE_OF_SHORT z rest)).
  unfold value_of, ret, as_int16. fold (le16 z). now rewrite int16_of_bytes.
Qed.

Lemma read_int8_byte (z : Z) (rest : membuf) :
  - 2 ^ 7 <= z < 2 ^ 7 -> read_int8 (byte_of_Z z :: rest) = (Ok z, rest).
Proof.
  intros Hz. unfold read_int8.
  rewrite (bind_run _ (read_le SIZE_OF_CHAR z rest)).
  unfold value_of, ret, as_int8. cbn [Z_to_le SIZE_OF_CHAR].
  now rewrite int8_of_bytes.
Qed.

Lemma read_float_le32 (bits : Z) (rest : membuf) :
  in_uint32 bits ->
  read_float (le32 bits ++ rest) = (Ok (Float32.float_of_bits bits), rest).
Proof.
  intros Hz. unfold read_float.
  rewrite (bind_run _ (read_le SIZE_OF_FLOAT bits rest)).
  unfold value_of, ret, as_float. fold (le32 bits).
  now rewrite uint32_of_bytes.
Qed.

Lemma int_add_in_range (a b : Z) : in_int32 (a + b) -> int_add a b = Ok (a + b).
Proof.
  unfold in_int32, int_add, INT_MIN, INT_MAX. intros Hr.
  destruct (Z.leb_spec (- 2 ^ 31) (a + b)); [|lia].
  destruct (Z.leb_spec (a + b) (2 ^ 31 - 1)); [reflexivity|lia].
Qed.

End MembufFacts.
Import MembufFacts.

(** ** Decoding a laid-out block *)

Module DecodeFacts.

Lemma collect_app (u : Z) (l1 l2 : list raw_record) (r : records) :
  collect u (l1 ++ l2) r
  = match collect u l1 r with
    | Ok r1 => collect u l2 r1
    | Err e => Err e
    end.
Proof.
  revert r. induction l1 as [|rc l1 IH]; intros r; cbn [app collect].
  - reflexivity.
  - destruct (stored_count u (rec_count rc)); [apply IH | reflexivity].
Qed.

(** One record of a version < 7 block. *)
Lemma decode_record_layout (i x y c : Z) (r : records) (rest : membuf) :
  record_ok (x, y, c) ->
  decode_record i r (record_bytes (x, y, c) ++ rest)
  = (match stored_count 1 c with
     | Ok z => Ok (push r x y z)
     | Err e => Err e
     end, rest).
Proof.
  intros (Hx & Hy & Hc). unfold decode_record, record_bytes.
  rewrite <- !app_assoc.
  rewrite (bind_run _ (read_int32_le32 _ _ Hx)).
  rewrite (bind_run _ (read_int32_le32 _ _ Hy)).
  rewrite (bind_run _ (read_float_le32 _ _ Hc)).
  change (stored_count 1 c) with (float_to_int (Float32.float_of_bits c)).
  unfold bind, lift, ret.
  now destruct (float_to_int (Float32.float_of_bits c)).
Qed.

(** The loop of a version < 7 block. *)
Lemma decode_records_layout (recs : list raw_record) :
  Forall record_ok recs ->
  forall (i : Z) (r : records) (rest : membuf),
  exists s',
    for_loop (length recs) i decode_record r
      (flat_map record_bytes recs ++ rest)
    = (collect 1 recs r, s')
    /\ (forall r', collect 1 recs r = Ok r' -> s' = rest).
Proof.
  induction 1 as [|[[x y] c] recs Hrc _ IH]; intros i r rest.
  - exists rest. split; reflexivity.
  - cbn [length for_loop flat_map collect rec_x rec_y rec_count fst snd].
    rewrite <- app_assoc. unfold bind.
    rewrite (decode_record_layout i x y c r _ Hrc).
    destruct (stored_count 1 c) as [z|e].
    + apply IH.
    + exists (flat_map record_bytes recs ++ rest). split; [reflexivity|].
      discriminate.
Qed.


Lemma bind_lift_Ok {S A B : Type} (a : A) (k : A -> M S B) (s : S) :
  bind (lift (Ok a)) k s = k a s.
Proof. reflexivity. Qed.

Lemma value_of_Some {S A B : Type} (f : list byte -> A) (bs : list byte)
    (k : A -> M S B) (s : S) :
  bind (value_of f (Some bs)) k s = k (f bs) s.
Proof. reflexivity. Qed.

(** One entry of a row. *)
Lemma decode_column_layout (u xo binY j x c : Z) (r : records)
    (rest : membuf) :
  in_int16 x -> count_ok u c -> in_int32 (xo + x) ->
  decode_column u xo binY j r (column_bytes u (x, c) ++ rest)
  = (match stored_count u c with
     | Ok z => Ok (push r (xo + x) binY z)
     | Err e => Err e
     end, rest).
Proof.
  intros Hx Hc Hs. unfold decode_column, column_bytes, count_bytes, count_ok,
    stored_count in *. cbn [fst snd].
  rewrite <- app_assoc.
  rewrite (bind_run _ (read_int16_le16 _ _ Hx)).
  rewrite (int_add_in_range _ _ Hs), bind_lift_Ok.
  destruct (u =? 0).
  - now rewrite (bind_run _ (read_int16_le16 _ _ Hc)).
  - rewrite (bind_run _ (read_float_le32 _ _ Hc)).
    unfold bind, lift, ret.
    now destruct (float_to_int (Float32.float_of_bits c)).
Qed.

(** The entries of a row. *)
Lemma decode_columns_layout (u xo binY : Z) (cols : list (Z * Z)) :
  Forall (fun xc => in_int16 (fst xc) /\ count_ok u (snd xc)) cols ->
  Forall (fun xc => in_int32 (xo + fst xc)) cols ->
  forall (j : Z) (r : records) (rest : membuf),
  exists s',
    for_loop (length cols) j (decode_column u xo binY) r
      (flat_map (column_bytes u) cols ++ rest)
    = (collect u (map (fun xc => (xo + fst xc, binY, snd xc)) cols) r, s')
    /\ (forall r',
          collect u (map (fun xc => (xo + fst xc, binY, snd xc)) cols) r
          = Ok r' -> s' = rest).
Proof.
  induction 1 as [|[x c] cols [Hx Hc] _ IH]; intros Hsum j r rest.
  - exists rest. split; reflexivity.
  - inversion Hsum as [|? ? Hs Hsum']; subst.
    cbn [length for_loop flat_map map collect rec_x rec_y rec_count fst snd]
      in *.
    rewrite <- app_assoc. unfold bind.
    rewrite (decode_column_layout u xo binY j x c r _ Hx Hc Hs).
    destruct (stored_count u c) as [z|e].
    + apply IH. exact Hsum'.
    + exists (flat_map (column_bytes u) cols ++ rest).
      split; [reflexivity | discriminate].
Qed.

Lemma absolute_cons (xo yo : Z) (row : raw_row) (rows : list raw_row) :
  absolute xo yo (row :: rows)
  = map (fun xc => (xo + fst xc, fst row + yo, snd xc)) (snd row)
    ++ absolute xo yo rows.
Proof.
  unfold absolute, entries. cbn [flat_map]. rewrite map_app, map_map.
  reflexivity.
Qed.

(** One row. *)
Lemma decode_row_layout (u xo yo i : Z) (row : raw_row) (r : records)
    (rest : membuf) :
  row_ok u row -> row_sums_ok xo yo row ->
  exists s',
    decode_row u xo yo i r (row_bytes u row ++ rest)
    = (collect u
         (map (fun xc => (xo + fst xc, fst row + yo, snd xc)) (snd row)) r,
       s')
    /\ (forall r',
          collect u
            (map (fun xc => (xo + fst xc, fst row + yo, snd xc)) (snd row)) r
          = Ok r' -> s' = rest).
Proof.
  intros (Hy & Hn & Hcols) (Hsy & Hsx). unfold decode_row, row_bytes.
  rewrite <- !app_assoc.
  rewrite (bind_run _ (read_int16_le16 _ _ Hy)).
  rewrite (int_add_in_range _ _ Hsy), bind_lift_Ok.
  assert (Hlen : in_int16 (Z.of_nat (length (snd row)))).
  { unfold in_int16. lia. }
  rewrite (bind_run _ (read_int16_le16 _ _ Hlen)).
  unfold for_upto. rewrite Nat2Z.id.
  apply decode_columns_layout; assumption.
Qed.

(** The rows of a block. *)
Lemma decode_rows_layout (u xo yo : Z) (rows : list raw_row) :
  Forall (row_ok u) rows -> Forall (row_sums_ok xo yo) rows ->
  forall (i : Z) (r : records) (rest : membuf),
  exists s',
    for_loop (length rows) i (decode_row u xo yo) r
      (flat_map (row_bytes u) rows ++ rest)
    = (collect u (absolute xo yo rows) r, s')
    /\ (forall r', collect u (absolute xo yo rows) r = Ok r' -> s' = rest).
Proof.
  induction 1 as [|row rows Hrow _ IH]; intros Hsum i r rest.
  - exists rest. split; reflexivity.
  - inversion Hsum as [|? ? Hs Hsum']; subst.
    cbn [length for_loop flat_map]. rewrite <- app_assoc.
    rewrite absolute_cons, collect_app.
    destruct (decode_row_layout u xo yo i row r
                (flat_map (row_bytes u) rows ++ rest) Hrow Hs)
      as (s1 & E1 & R1).
    unfold bind. rewrite E1.
    destruct (collect u _ r) as [r1|e].
    + rewrite (R1 r1 eq_refl). apply IH. exact Hsum'.
    + exists s1. split; [reflexivity | discriminate].
Qed.


Lemma collect_spec (u : Z) (recs : list raw_record) (r : records) :
  collect u recs r
  = match map_result (stored_count u) (map rec_count recs) with
    | Ok cs => Ok {| bins1 := bins1 r ++ map rec_x recs;
                     bins2 := bins2 r ++ map rec_y recs;
                     counts := counts r ++ cs |}
    | Err e => Err e
    end.
Proof.
  revert r. induction recs as [|rc recs IH]; intros r; cbn [collect map map_result].
  - destruct r; cbn. now rewrite !app_nil_r.
  - destruct (stored_count u (rec_count rc)) as [c|e]; [|reflexivity].
    rewrite IH. destruct (map_result _ _) as [cs|e]; [|reflexivity].
    cbn [push bins1 bins2 counts]. now rewrite <- !app_assoc.
Qed.

Lemma reserve_run {S B : Type} (n : Z) (k : unit -> M S B) (s : S) :
  0 <= n -> bind (reserve n) k s = k tt s.
Proof.
  intros Hn. unfold reserve.
  destruct (Z.ltb_spec n 0); [lia | reflexivity].
Qed.

(** A version < 7 block. *)
Lemma decodeBlock_v6 (version : Z) (recs : list raw_record) (rest : membuf) :
  version < 7 -> Forall record_ok recs ->
  Z.of_nat (length recs) < 2 ^ 31 ->
  exists s',
    decodeBlock version (block_v6 recs ++ rest)
    = (collect 1 recs no_records, s')
    /\ (forall r', collect 1 recs no_records = Ok r' -> s' = rest).
Proof.
  intros Hv Hrecs Hlen. unfold decodeBlock, block_v6.
  rewrite <- app_assoc.
  assert (Hn : in_int32 (Z.of_nat (length recs))) by (unfold in_int32; lia).
  rewrite (bind_run _ (read_int32_le32 _ _ Hn)).
  rewrite reserve_run by lia.
  destruct (Z.ltb_spec version 7); [|lia].
  unfold for_upto. rewrite Nat2Z.id.
  apply decode_records_layout. exact Hrecs.
Qed.

(** A version >= 7 block of type 1. *)
Lemma decodeBlock_type1 (version totalRecords xo yo u : Z)
    (rows : list raw_row) (rest : membuf) :
  7 <= version -> 0 <= totalRecords < 2 ^ 31 ->
  in_int32 xo -> in_int32 yo -> - 2 ^ 7 <= u < 2 ^ 7 ->
  Z.of_nat (length rows) < 2 ^ 15 ->
  Forall (row_ok u) rows -> Forall (row_sums_ok xo yo) rows ->
  exists s',
    decodeBlock version (block_type1 totalRecords xo yo u rows ++ rest)
    = (collect u (absolute xo yo rows) no_records, s')
    /\ (forall r',
          collect u (absolute xo yo rows) no_records = Ok r' -> s' = rest).
Proof.
  intros Hv Hn Hxo Hyo Hu Hlen Hrows Hsums. unfold decodeBlock, block_type1.
  rewrite <- !app_assoc. cbn [app].
  assert (Hn' : in_int32 totalRecords) by (unfold in_int32; lia).
  rewrite (bind_run _ (read_int32_le32 _ _ Hn')).
  rewrite reserve_run by lia.
  destruct (Z.ltb_spec version 7); [lia|].
  rewrite (bind_run _ (read_int32_le32 _ _ Hxo)).
  rewrite (bind_run _ (read_int32_le32 _ _ Hyo)).
  rewrite (bind_run _ (read_int8_byte _ _ Hu)).
  change x01 with (byte_of_Z 1).
  rewrite (bind_run _ (read_int8_byte 1 _ ltac:(lia))).
  cbn [Z.eqb Pos.eqb].
  assert (Hl : in_int16 (Z.of_nat (length rows))) by (unfold in_int16; lia).
  rewrite (bind_run _ (read_int16_le16 _ _ Hl)).
  unfold for_upto. rewrite Nat2Z.id.
  apply decode_rows_layout; assumption.
Qed.

End DecodeFacts.
Import DecodeFacts.

(** ** Floats *)

Module Float32Facts.

Lemma Qtrunc_inject_Z (k : Z) : Qtrunc (inject_Z k) = k.
Proof.
  unfold Qtrunc. destruct (Qle_bool 0 (inject_Z k)).
  - apply Qfloor_Z.
  - apply Qceiling_Z.
Qed.

(** [trunc] is the truncation toward zero of the value of the float. *)
Lemma trunc_to_Q (f : spec_float) (z : Z) :
  Float32.trunc f = Some z ->
  exists q, Float32.to_Q f = Some q /\ z = Qtrunc q.
Proof.
  destruct f as [s|s| |s m e]; cbn [Float32.trunc Float32.to_Q]; intros E;
    try discriminate; inversion E; subst; clear E.
  - exists (inject_Z 0). split; [reflexivity|]. now rewrite Qtrunc_inject_Z.
  - destruct (Z.leb_spec 0 e) as [He|He].
    + eexists. split; [reflexivity|]. rewrite Qtrunc_inject_Z.
      destruct s; [|reflexivity].
      rewrite <- Pos2Z.opp_pos. now rewrite Z.mul_opp_l.
    + eexists. split; [reflexivity|].
      assert (Hd : 0 < 2 ^ (- e)) by (apply Z.pow_pos_nonneg; lia).
      unfold Qtrunc, Qle_bool, Qceiling, Qfloor, Qopp. cbn [Qnum Qden].
      rewrite Z2Pos.id by exact Hd.
      destruct s.
      * destruct (Z.leb_spec (0 * 2 ^ (- e)) (Z.neg m * 1)); [lia|].
        reflexivity.
      * destruct (Z.leb_spec (0 * 2 ^ (- e)) (Z.pos m * 1)); [|lia].
        reflexivity.
Qed.

Lemma float_to_int_Ok (f : spec_float) (c : Z) :
  float_to_int f = Ok c ->
  (exists q, Float32.to_Q f = Some q /\ c = Qtrunc q)
  /\ INT_MIN <= c <= INT_MAX.
Proof.
  unfold float_to_int. destruct (Float32.trunc f) as [z|] eqn:E;
    [|discriminate].
  destruct (Z.leb_spec INT_MIN z); [|discriminate].
  destruct (Z.leb_spec z INT_MAX); [|discriminate].
  cbn [andb]. intros Hc. inversion Hc; subst.
  split; [now apply trunc_to_Q | lia].
Qed.

End Float32Facts.
Import Float32Facts.

(** ** The header *)

Module HeaderFacts.

(** A loop invariant that follows the loop counter. *)
Lemma for_loop_invariant_at {S A : Type} (P : Z -> A -> Prop)
    (body : Z -> A -> M S A) :
  (forall i a s a' s', P i a -> body i a s = (Ok a', s') -> P (i + 1) a') ->
  forall n i a s a' s',
    P i a -> for_loop n i body a s = (Ok a', s') -> P (i + Z.of_nat n) a'.
Proof.
  intros Hbody. induction n as [|n IH]; intros i a s a' s' Ha E.
  - apply ret_Ok_inv in E. destruct E as [-> _].
    now rewrite Z.add_0_r.
  - cbn [for_loop] in E. apply bind_Ok_inv in E.
    destruct E as (a1 & s1 & E1 & E2).
    replace (i + Z.of_nat (Datatypes.S n)) with (i + 1 + Z.of_nat n) by lia.
    eapply IH; [|exact E2]. eapply Hbody; eassumption.
Qed.

Lemma selection_of_nil (wanted : Z) : selection_of wanted [] (-1).
Proof. left. split; [reflexivity | intros []]. Qed.

Lemma last_index_of_In (x : Z) (l : list Z) (i : Z) :
  last_index_of x l i -> In x l.
Proof.
  intros (Hi & Hx & _). rewrite <- Hx. apply nth_In. lia.
Qed.

(** Visiting one more resolution [r] at index [length l]. *)
Lemma selection_of_snoc (wanted : Z) (l : list Z) (selected r : Z) :
  selection_of wanted l selected ->
  selection_of wanted (l ++ [r])
    (if r =? wanted then Z.of_nat (length l) else selected).
Proof.
  intros Hsel. destruct (Z.eqb_spec r wanted) as [->|Hne].
  - right. repeat split.
    + lia.
    + rewrite length_app. cbn [length]. lia.
    + rewrite Nat2Z.id, nth_middle. reflexivity.
    + rewrite length_app. cbn [length]. lia.
  - destruct Hsel as [[-> Hnot]|(Hi & Hx & Hlast)].
    + left. split; [reflexivity|]. rewrite in_app_iff. cbn [In]. tauto.
    + right. repeat split.
      * lia.
      * rewrite length_app. lia.
      * rewrite app_nth1 by lia. exact Hx.
      * intros j Hj. rewrite length_app in Hj. cbn [length] in Hj.
        destruct (Z.eq_dec j (Z.of_nat (length l))) as [->|Hjl].
        -- rewrite Nat2Z.id, nth_middle. exact Hne.
        -- rewrite app_nth1 by lia. apply Hlast. lia.
Qed.


(** The state of the selection while the resolution loop runs. *)
Lemma read_resolution_step (wanted : Z) (chs : list string) (i : Z)
    (info : hicInfo) (s : ifstream) (info' : hicInfo) (s' : ifstream) :
  (resolution info = wanted
   /\ i = Z.of_nat (length (availableResolutions info))
   /\ selection_of wanted (availableResolutions info)
        (selectedResolutionId info)
   /\ chromosomes info = chs) ->
  read_resolution i info s = (Ok info', s') ->
  resolution info' = wanted
  /\ i + 1 = Z.of_nat (length (availableResolutions info'))
  /\ selection_of wanted (availableResolutions info')
       (selectedResolutionId info')
  /\ chromosomes info' = chs.
Proof.
  intros (Hw & Hi & Hsel & Hc) E. unfold read_resolution in E.
  apply bind_Ok_inv in E. destruct E as (r & s1 & _ & E).
  pose proof (selection_of_snoc wanted _ _ r Hsel) as Hsnoc.
  cbn [push_resolution resolution] in E. rewrite Hw in E.
  rewrite <- Hi in Hsnoc.
  destruct (r =? wanted); apply ret_Ok_inv in E; destruct E as [-> _];
    cbn [set_selectedResolutionId push_resolution resolution
         availableResolutions selectedResolutionId chromosomes];
    rewrite length_app; cbn [length]; repeat split; try assumption; lia.
Qed.

Lemma read_resolutions_selection (wanted : Z) (chs : list string) (n : nat)
    (info info' : hicInfo) (s s' : ifstream) :
  resolution info = wanted -> availableResolutions info = [] ->
  selectedResolutionId info = -1 -> chromosomes info = chs ->
  for_loop n 0 read_resolution info s = (Ok info', s') ->
  resolution info' = wanted
  /\ selection_of wanted (availableResolutions info')
       (selectedResolutionId info')
  /\ chromosomes info' = chs.
Proof.
  intros Hw Ha Hs Hc E.
  pose proof (for_loop_invariant_at
    (fun i info =>
       resolution info = wanted
       /\ i = Z.of_nat (length (availableResolutions info))
       /\ selection_of wanted (availableResolutions info)
            (selectedResolutionId info)
       /\ chromosomes info = chs)
    read_resolution (read_resolution_step wanted chs) n 0 info s info' s')
    as Inv.
  destruct Inv as (Hw' & _ & Hsel & Hc').
  - rewrite Ha, Hs. repeat split; try assumption.
    apply selection_of_nil.
  - exact E.
  - repeat split; assumption.
Qed.

Lemma read_chromosomes_keep (wanted : Z) (n : nat) (i : Z)
    (info info' : hicInfo) (s s' : ifstream) :
  (resolution info = wanted /\ availableResolutions info = []
   /\ selectedResolutionId info = -1) ->
  for_loop n i read_chromosome info s = (Ok info', s') ->
  resolution info' = wanted /\ availableResolutions info' = []
  /\ selectedResolutionId info' = -1.
Proof.
  apply (for_loop_invariant
    (fun info => resolution info = wanted /\ availableResolutions info = []
                 /\ selectedResolutionId info = -1)).
  clear. intros i a s a' s' H E. unfold read_chromosome in E.
  apply bind_Ok_inv in E. destruct E as (name & s1 & _ & E).
  apply bind_Ok_inv in E. destruct E as (len & s2 & _ & E).
  apply ret_Ok_inv in E. destruct E as [-> _]. exact H.
Qed.

(** What a normal return of [readHeader] went through. *)
Lemma readHeader_Ok_inv (wanted : Z) (s s' : ifstream) (info : hicInfo) :
  readHeader (hicInfo_init wanted) s = (Ok info, s') ->
  exists info2 name rest,
    chromosomes info2 = name :: rest
    /\ info = set_firstChromosomeIsAll info2
                (String.eqb name "ALL" || String.eqb name "All")
    /\ resolution info2 = wanted
    /\ selection_of wanted (availableResolutions info2)
         (selectedResolutionId info2).
Proof.
  intros E. unfold readHeader in E.
  apply bind_Ok_inv in E. destruct E as (magic & s1 & _ & E).
  destruct (negb magic); [discriminate|].
  apply bind_Ok_inv in E. destruct E as (v & s2 & _ & E).
  destruct (v <? 6); [discriminate|].
  apply bind_Ok_inv in E. destruct E as (m & s3 & _ & E).
  apply bind_Ok_inv in E. destruct E as (genome & s4 & _ & E).
  apply bind_Ok_inv in E. destruct E as (totalAttributes & s5 & _ & E).
  apply bind_Ok_inv in E. destruct E as (u & s6 & _ & E).
  apply bind_Ok_inv in E. destruct E as (n & s7 & _ & E).
  apply bind_Ok_inv in E. destruct E as (info1 & s8 & E1 & E).
  apply bind_Ok_inv in E. destruct E as (totalResolutions & s9 & _ & E).
  apply bind_Ok_inv in E. destruct E as (info2 & s10 & E2 & E).
  apply (read_chromosomes_keep wanted) in E1;
    [|repeat split; reflexivity].
  destruct E1 as (Hw & Ha & Hs).
  apply (read_resolutions_selection wanted (chromosomes info1)) in E2;
    try assumption; try reflexivity.
  destruct E2 as (Hw2 & Hsel & Hc).
  destruct (chromosomes info2) as [|name rest] eqn:Hch; [discriminate|].
  apply ret_Ok_inv in E. destruct E as [-> _].
  exists info2, name, rest. repeat split; assumption.
Qed.

(** The selection a normal return of [readHeader] leaves. *)
Lemma readHeader_selection (wanted : Z) (s s' : ifstream) (info : hicInfo) :
  readHeader (hicInfo_init wanted) s = (Ok info, s') ->
  selection_of wanted (availableResolutions info)
    (selectedResolutionId info)
  /\ chromosomes info <> [].
Proof.
  intros E. apply readHeader_Ok_inv in E.
  destruct E as (info2 & name & rest & Hch & -> & _ & Hsel).
  cbn [set_firstChromosomeIsAll availableResolutions selectedResolutionId
       chromosomes].
  split; [exact Hsel | now rewrite Hch].
Qed.

End HeaderFacts.
Import HeaderFacts.

(** ** The file stream and the output vectors *)

Module StreamFacts.

Lemma keeps_read (l : list Z) (n : nat) : keeps (seeks_are l) (read n).
Proof.
  intros s r s' H E. cbn [read ifstream_IStream] in E.
  unfold ifstream_read in E.
  destruct (good s); [destruct (_ <=? _)%nat|]; inversion E; subst; exact H.
Qed.

Lemma keeps_getline (l : list Z) : keeps (seeks_are l) getline.
Proof.
  intros s r s' H E. unfold getline in E.
  destruct (good s);
    [destruct (split_at_nul _) as [b [t|]]|]; inversion E; subst; exact H.
Qed.

Lemma keeps_value_of {A : Type} (l : list Z) (f : list byte -> A)
    (o : option (list byte)) :
  keeps (seeks_are l) (value_of f o).
Proof. destruct o; [apply keeps_ret | apply keeps_throw]. Qed.

Lemma keeps_read_int32 (l : list Z) : keeps (seeks_are l) read_int32.
Proof.
  apply keeps_bind; [apply keeps_read | intros; apply keeps_value_of].
Qed.

Lemma keeps_read_int64 (l : list Z) : keeps (seeks_are l) read_int64.
Proof.
  apply keeps_bind; [apply keeps_read | intros; apply keeps_value_of].
Qed.

Ltac keeps_step :=
  first [ apply keeps_ret | apply keeps_throw | apply keeps_lift
        | apply keeps_read_int32 | apply keeps_read_int64
        | apply keeps_getline
        | apply keeps_bind; [|intros ?]
        | apply keeps_for_loop; intros ? ?
        | apply keeps_if ].

(** [readHeader] never seeks. *)
Lemma keeps_readHeader (l : list Z) (info : hicInfo) :
  keeps (seeks_are l) (readHeader info).
Proof.
  unfold readHeader, readMagicString, for_upto.
  repeat keeps_step;
    try (unfold read_attribute; repeat keeps_step);
    try (unfold read_chromosome; repeat keeps_step);
    try (unfold read_resolution; repeat keeps_step).
  destruct (chromosomes _); repeat keeps_step.
Qed.

End StreamFacts.
Import StreamFacts.

Module OutputFacts.

(** Inversion of a run that returned normally. *)
Ltac inv_run E :=
  repeat
    match type of E with
    | bind _ _ _ = (Ok _, _) =>
        let a := fresh "a" in
        let s := fresh "s" in
        let E1 := fresh "E" in
        apply bind_Ok_inv in E; destruct E as (a & s & E1 & E)
    | ret _ _ = (Ok _, _) => apply ret_Ok_inv in E; destruct E as [-> _]
    | throw _ _ = (Ok _, _) => discriminate E
    | (if ?b then _ else _) _ = (Ok _, _) => destruct b eqn:?
    end.

Lemma push_aligned (r : records) (b1 b2 c : Z) :
  aligned r -> aligned (push r b1 b2 c).
Proof.
  intros [H1 H2]. unfold aligned, push. cbn [bins1 bins2 counts].
  rewrite !length_app. cbn [length]. lia.
Qed.

Section Aligned.
Context {S : Type} `{IStream S}.

Lemma decode_record_aligned (i : Z) (r : records) (s : S) (r' : records)
    (s' : S) :
  aligned r -> decode_record i r s = (Ok r', s') -> aligned r'.
Proof.
  intros Hr E. unfold decode_record in E. inv_run E.
  now apply push_aligned.
Qed.

Lemma decode_column_aligned (u xo binY i : Z) (r : records) (s : S)
    (r' : records) (s' : S) :
  aligned r -> decode_column u xo binY i r s = (Ok r', s') -> aligned r'.
Proof.
  intros Hr E. unfold decode_column in E. inv_run E; now apply push_aligned.
Qed.

Lemma decode_row_aligned (u xo yo i : Z) (r : records) (s : S)
    (r' : records) (s' : S) :
  aligned r -> decode_row u xo yo i r s = (Ok r', s') -> aligned r'.
Proof.
  intros Hr E. unfold decode_row in E. inv_run E.
  unfold for_upto in E.
  eapply for_loop_invariant; [|exact Hr|exact E].
  intros; eapply decode_column_aligned; eassumption.
Qed.

Lemma decode_point_aligned (u xo yo : Z) (w : option (list byte)) (i : Z)
    (r : records) (s : S) (r' : records) (s' : S) :
  aligned r -> decode_point u xo yo w i r s = (Ok r', s') -> aligned r'.
Proof.
  intros Hr E. unfold decode_point in E.
  inv_run E; try assumption; now apply push_aligned.
Qed.

(** The local vectors of [readBlock] have one length at its end. *)
Lemma decodeBlock_aligned (version : Z) (s : S) (r : records) (s' : S) :
  decodeBlock version s = (Ok r, s') -> aligned r.
Proof.
  assert (H0 : aligned no_records) by (split; reflexivity).
  intros E. unfold decodeBlock in E. inv_run E; unfold for_upto in *.
  - eapply for_loop_invariant; [|exact H0|exact E].
    intros; eapply decode_record_aligned; eassumption.
  - eapply for_loop_invariant; [|exact H0|exact E].
    intros; eapply decode_row_aligned; eassumption.
  - eapply for_loop_invariant; [|exact H0|exact E].
    intros; eapply decode_point_aligned; eassumption.
  - exact H0.
Qed.

End Aligned.


Lemma appends_equally_refl (o : outputStr) : appends_equally o o.
Proof. exists 0%nat. repeat split; lia. Qed.

Lemma appends_equally_balanced (o o' : outputStr) :
  balanced o -> appends_equally o o' -> balanced o'.
Proof.
  intros (H1 & H2 & H3) (n & E1 & E2 & E3 & E4). unfold balanced. lia.
Qed.

Lemma append_records_equally (o : outputStr) (chromosomeId : Z)
    (r : records) :
  aligned r -> appends_equally o (append_records o chromosomeId r).
Proof.
  intros [H1 H2]. exists (length (bins1 r)).
  unfold append_records. cbn [chromosome bin1 bin2 count].
  rewrite !length_app, repeat_length. repeat split; lia.
Qed.

Section Files.
Variable inflate : list byte -> list byte.
Variable uninitialised : ifstream -> nat -> byte.

(** Every call of [readBlock] that returns appends the same number of
    elements to the four vectors. *)
Lemma readBlock_appends_equally (position size chromosomeId : Z)
    (info : hicInfo) (output : outputStr) (s : ifstream)
    (output' : outputStr) (s' : ifstream) :
  readBlock inflate uninitialised position size chromosomeId info output s
  = (Ok output', s') ->
  appends_equally output output'.
Proof.
  intros E. unfold readBlock in E. inv_run E.
  - apply appends_equally_refl.
  - match goal with
    | D : lift (fst (decodeBlock _ _)) _ = (Ok _, _) |- _ =>
        apply lift_Ok_inv in D; destruct D as [D _];
        apply append_records_equally;
        destruct (decodeBlock (version info) _) as [res rest] eqn:Dec;
        cbn [fst] in D; subst res
    end.
    exact (decodeBlock_aligned _ _ _ _ Dec).
Qed.

Lemma read_block_pointer_balanced (resolutionId chromosomeId1 : Z)
    (info : hicInfo) (i : Z) (output : outputStr) (s : ifstream)
    (output' : outputStr) (s' : ifstream) :
  balanced output ->
  read_block_pointer inflate uninitialised resolutionId chromosomeId1 info i output s
  = (Ok output', s') ->
  balanced output'.
Proof.
  intros Hb E. unfold read_block_pointer in E. inv_run E; [|exact Hb].
  eapply appends_equally_balanced; [exact Hb|].
  eapply readBlock_appends_equally. eassumption.
Qed.

Lemma read_block_directory_balanced (chromosomeId1 : Z) (info : hicInfo)
    (resolutionId : Z) (output : outputStr) (s : ifstream)
    (output' : outputStr) (s' : ifstream) :
  balanced output ->
  read_block_directory inflate uninitialised chromosomeId1 info resolutionId output s
  = (Ok output', s') ->
  balanced output'.
Proof.
  intros Hb E. unfold read_block_directory in E. inv_run E.
  unfold for_upto in E.
  eapply for_loop_invariant; [|exact Hb|exact E].
  intros; eapply read_block_pointer_balanced; eassumption.
Qed.

Lemma readMatrix_balanced (start size : Z) (info : hicInfo)
    (output : outputStr) (s : ifstream) (output' : outputStr)
    (s' : ifstream) :
  balanced output ->
  readMatrix inflate uninitialised start size info output s = (Ok output', s') ->
  balanced output'.
Proof.
  intros Hb E. unfold readMatrix in E. inv_run E; try exact Hb.
  unfold for_upto in E.
  eapply for_loop_invariant; [|exact Hb|exact E].
  intros; eapply read_block_directory_balanced; eassumption.
Qed.

Lemma readFooter_balanced (info : hicInfo) (output : outputStr)
    (s : ifstream) (output' : outputStr) (s' : ifstream) :
  balanced output ->
  readFooter inflate uninitialised info output s = (Ok output', s') ->
  balanced output'.
Proof.
  intros Hb E. unfold readFooter in E. inv_run E.
  unfold for_upto in E.
  eapply for_loop_invariant; [|exact Hb|exact E].
  clear. intros i a s a' s' Ha E. unfold read_entry in E. inv_run E.
  eapply readMatrix_balanced; eassumption.
Qed.

Lemma map_result_length {A B : Type} (f : A -> result B) (l : list A)
    (l' : list B) :
  map_result f l = Ok l' -> length l' = length l.
Proof.
  revert l'. induction l as [|x l IH]; intros l' E; cbn [map_result] in E.
  - inversion E. reflexivity.
  - destruct (f x); [|discriminate].
    destruct (map_result f l) as [ys|]; [|discriminate].
    inversion E. cbn [length]. now rewrite (IH ys eq_refl).
Qed.

Lemma to_DataFrame_rectangular (info : hicInfo) (output : outputStr)
    (resolution : Z) (df : DataFrame) :
  balanced output -> to_DataFrame info output resolution = Ok df ->
  rectangular df.
Proof.
  intros (H1 & H2 & H3) E. unfold to_DataFrame in E.
  destruct (if firstChromosomeIsAll info then _ else _) as [codes|] eqn:Ec;
    [|discriminate].
  destruct (sugar_times (bin1 output) resolution) as [p1|] eqn:E1;
    [|discriminate].
  destruct (sugar_times (bin2 output) resolution) as [p2|] eqn:E2;
    [|discriminate].
  inversion E; subst; clear E. unfold rectangular.
  cbn [df_chromosome df_position_1 df_position_2 df_interaction].
  apply map_result_length in E1, E2.
  assert (Hc : length codes = length (chromosome output)).
  { destruct (firstChromosomeIsAll info).
    - now inversion Ec.
    - now apply map_result_length in Ec. }
  lia.
Qed.

Lemma on_fin_Ok_inv {A : Type} (m : M ifstream A) (w w' : world) (a : A) :
  on_fin m w = (Ok a, w') -> m (fin w) = (Ok a, fin w').
Proof.
  unfold on_fin. destruct (m (fin w)) as [r s]. intros E.
  inversion E; subst. reflexivity.
Qed.

(** A parse that returns gives a data frame whose columns have one
    length. *)
Lemma parseHiCFile_rectangular (fs : string -> option (list byte))
    (fname : string) (resolution : Z) (df : DataFrame) (w : world) :
  parseHiCFile inflate uninitialised fs fname resolution = (Ok df, w) -> rectangular df.
Proof.
  unfold parseHiCFile, parse. intros E.
  destruct (failbit _); [discriminate|].
  inv_run E.
  apply lift_Ok_inv in E. destruct E as [E _].
  eapply to_DataFrame_rectangular; [|exact E].
  match goal with
  | F : on_fin (readFooter _ _ _ _) _ = (Ok _, _) |- _ =>
      apply on_fin_Ok_inv in F; eapply readFooter_balanced; [|exact F]
  end.
  repeat split.
Qed.

End Files.

End OutputFacts.
Import OutputFacts.

(** ** Records of a block, as lists *)

Module RecordFacts.

Lemma absolute_counts (xo yo : Z) (rows : list raw_row) :
  map rec_count (absolute xo yo rows) = map rec_count (entries rows).
Proof.
  unfold absolute. rewrite map_map. apply map_ext.
  intros [[x y] c]. reflexivity.
Qed.

Lemma absolute_xs (xo yo : Z) (rows : list raw_row) :
  map rec_x (absolute xo yo rows)
  = map (fun e => xo + rec_x e) (entries rows).
Proof.
  unfold absolute. rewrite map_map. apply map_ext.
  intros [[x y] c]. reflexivity.
Qed.

Lemma absolute_ys (xo yo : Z) (rows : list raw_row) :
  map rec_y (absolute xo yo rows)
  = map (fun e => yo + rec_y e) (entries rows).
Proof.
  unfold absolute. rewrite map_map. apply map_ext.
  intros [[x y] c]. unfold rec_y. cbn [fst snd]. lia.
Qed.

Lemma absolute_length (xo yo : Z) (rows : list raw_row) :
  length (absolute xo yo rows) = length (entries rows).
Proof. unfold absolute. apply length_map. Qed.

Lemma absolute_record_ok (xo yo : Z) (rows : list raw_row) :
  Forall (row_ok 1) rows -> Forall (row_sums_ok xo yo) rows ->
  Forall record_ok (absolute xo yo rows).
Proof.
  induction 1 as [|row rows (_ & _ & Hcols) _ IH]; intros Hs.
  - constructor.
  - inversion Hs as [|? ? (Hy & Hx) Hs']; subst.
    rewrite absolute_cons. apply Forall_app. split; [|now apply IH].
    clear IH Hs Hs'. induction Hcols as [|[x c] cols [_ Hc] _ IH].
    + constructor.
    + inversion Hx as [|? ? Hx1 Hx']; subst. cbn [map].
      constructor; [|now apply IH].
      cbn [fst snd] in *. change (in_uint32 c) in Hc.
      unfold record_ok. tauto.
Qed.

Lemma map_result_Forall2 {A B : Type} (f : A -> result B) (l : list A)
    (l' : list B) :
  map_result f l = Ok l' -> Forall2 (fun x y => f x = Ok y) l l'.
Proof.
  revert l'. induction l as [|x l IH]; intros l' E; cbn [map_result] in E.
  - inversion E. constructor.
  - destruct (f x) as [y|] eqn:Ex; [|discriminate].
    destruct (map_result f l) as [ys|]; [|discriminate].
    inversion E; subst. constructor; [exact Ex | now apply IH].
Qed.

Lemma map_result_short (cs : list Z) :
  map_result (stored_count 0) cs = Ok cs.
Proof.
  induction cs as [|c cs IH]; cbn [map_result]; [reflexivity|].
  cbn [stored_count Z.eqb]. now rewrite IH.
Qed.

End RecordFacts.
Import RecordFacts.

(** ** Dense blocks *)

Module DenseFacts.

(** One point of a dense block. *)
Lemma decode_point_layout (u xo yo w i c : Z) (r : records) (rest : membuf) :
  in_int16 w -> w <> 0 -> count_ok u c ->
  in_int32 (xo + (i - Z.quot i w * w)) -> in_int32 (yo + Z.quot i w) ->
  decode_point u xo yo (Some (le16 w)) i r (count_bytes u c ++ rest)
  = (if point_kept u c then
       match stored_count u c with
       | Ok z => Ok (push r (xo + (i - Z.quot i w * w)) (yo + Z.quot i w) z)
       | Err e => Err e
       end
     else Ok r, rest).
Proof.
  intros Hw16 Hw Hc Hx Hy.
  unfold decode_point, count_bytes, count_ok, point_kept, stored_count in *.
  rewrite value_of_Some. unfold as_int16. rewrite (int16_of_bytes _ Hw16).
  destruct (Z.eqb_spec w 0); [contradiction|].
  rewrite (int_add_in_range _ _ Hx), bind_lift_Ok.
  rewrite (int_add_in_range _ _ Hy), bind_lift_Ok.
  destruct (u =? 0).
  - rewrite (bind_run _ (read_int16_le16 _ _ Hc)).
    now destruct (negb (c =? -32768)).
  - rewrite (bind_run _ (read_float_le32 _ _ Hc)).
    destruct (negb (Float32.eq_Z _ _)); [|reflexivity].
    unfold bind, lift, ret.
    now destruct (float_to_int (Float32.float_of_bits c)).
Qed.

(** The points of a dense block. *)
Lemma decode_points_layout (u xo yo w : Z) (cells : list Z) :
  in_int16 w -> w <> 0 -> Forall (count_ok u) cells ->
  forall (i : Z) (r : records) (rest : membuf),
  Forall (fun rc => in_int32 (rec_x rc) /\ in_int32 (rec_y rc))
    (dense_points xo yo w i cells) ->
  exists s',
    for_loop (length cells) i (decode_point u xo yo (Some (le16 w))) r
      (flat_map (count_bytes u) cells ++ rest)
    = (collect u
         (filter (fun rc => point_kept u (rec_count rc))
            (dense_points xo yo w i cells)) r, s')
    /\ (forall r',
          collect u
            (filter (fun rc => point_kept u (rec_count rc))
               (dense_points xo yo w i cells)) r = Ok r' -> s' = rest).
Proof.
  intros Hw16 Hw. induction 1 as [|c cells Hc _ IH]; intros i r rest Hsum.
  - exists rest. split; reflexivity.
  - cbn [dense_points] in Hsum.
    inversion Hsum as [|? ? [Hx Hy] Hsum']; subst.
    cbn [length for_loop flat_map dense_points filter rec_count rec_x rec_y
         fst snd] in *.
    rewrite <- app_assoc. unfold bind.
    rewrite (decode_point_layout u xo yo w i c r _ Hw16 Hw Hc Hx Hy).
    destruct (point_kept u c).
    + cbn [collect rec_count rec_x rec_y fst snd].
      destruct (stored_count u c) as [z|e].
      * apply IH. exact Hsum'.
      * exists (flat_map (count_bytes u) cells ++ rest).
        split; [reflexivity | discriminate].
    + apply IH. exact Hsum'.
Qed.

(** A version >= 7 block of type 2 with a stride that is not 0. *)
Lemma decodeBlock_type2 (version totalRecords xo yo u w : Z)
    (cells : list Z) (rest : membuf) :
  7 <= version -> 0 <= totalRecords < 2 ^ 31 ->
  in_int32 xo -> in_int32 yo -> - 2 ^ 7 <= u < 2 ^ 7 ->
  in_int16 w -> w <> 0 ->
  Z.of_nat (length cells) < 2 ^ 31 ->
  Forall (count_ok u) cells ->
  Forall (fun rc => in_int32 (rec_x rc) /\ in_int32 (rec_y rc))
    (dense_points xo yo w 0 cells) ->
  exists s',
    decodeBlock version (block_type2 totalRecords xo yo u w cells ++ rest)
    = (collect u
         (filter (fun rc => point_kept u (rec_count rc))
            (dense_points xo yo w 0 cells)) no_records, s')
    /\ (forall r',
          collect u
            (filter (fun rc => point_kept u (rec_count rc))
               (dense_points xo yo w 0 cells)) no_records = Ok r' ->
          s' = rest).
Proof.
  intros Hv Hn Hxo Hyo Hu Hw16 Hw Hlen Hcells Hsums.
  unfold decodeBlock, block_type2.
  rewrite <- !app_assoc. cbn [app].
  assert (Hn' : in_int32 totalRecords) by (unfold in_int32; lia).
  rewrite (bind_run _ (read_int32_le32 _ _ Hn')).
  rewrite reserve_run by lia.
  destruct (Z.ltb_spec version 7); [lia|].
  rewrite (bind_run _ (read_int32_le32 _ _ Hxo)).
  rewrite (bind_run _ (read_int32_le32 _ _ Hyo)).
  rewrite (bind_run _ (read_int8_byte _ _ Hu)).
  change x02 with (byte_of_Z 2).
  rewrite (bind_run _ (read_int8_byte 2 _ ltac:(lia))).
  cbn [Z.eqb Pos.eqb].
  assert (Hl : in_int32 (Z.of_nat (length cells))) by (unfold in_int32; lia).
  rewrite (bind_run _ (read_int32_le32 _ _ Hl)).
  rewrite (bind_run _ (read_le SIZE_OF_SHORT w _)). fold (le16 w).
  unfold for_upto. rewrite Nat2Z.id.
  apply decode_points_layout; assumption.
Qed.

(** X2.  With short counts and a stride that is not 0, the points of a
    dense block that are emitted are those whose count is not -32768, each
    at [bin1 = binXOffset + column], [bin2 = binYOffset + row], with its
    count. *)
Lemma dense_short_block_decodes (version totalRecords xo yo w : Z)
    (cells : list Z) (rest : membuf) :
  7 <= version -> 0 <= totalRecords < 2 ^ 31 ->
  in_int32 xo -> in_int32 yo -> in_int16 w -> w <> 0 ->
  Z.of_nat (length cells) < 2 ^ 31 ->
  Forall in_int16 cells ->
  Forall (fun rc => in_int32 (rec_x rc) /\ in_int32 (rec_y rc))
    (dense_points xo yo w 0 cells) ->
  let kept := filter (fun rc => negb (rec_count rc =? -32768))
                (dense_points xo yo w 0 cells) in
  decodeBlock version (block_type2 totalRecords xo yo 0 w cells ++ rest)
  = (Ok {| bins1 := map rec_x kept; bins2 := map rec_y kept;
           counts := map rec_count kept |}, rest).
Proof.
  intros Hv Hn Hxo Hyo Hw16 Hw Hlen Hcells Hsums kept.
  destruct (decodeBlock_type2 version totalRecords xo yo 0 w cells rest
              Hv Hn Hxo Hyo ltac:(lia) Hw16 Hw Hlen Hcells Hsums)
    as (s' & E & R).
  change (fun rc => point_kept 0 (rec_count rc))
    with (fun rc => negb (rec_count rc =? -32768)) in E, R.
  fold kept in E, R.
  rewrite collect_spec, map_result_short in E, R.
  cbn [no_records bins1 bins2 counts app] in E, R.
  now rewrite (R _ eq_refl) in E.
Qed.

End DenseFacts.
Import DenseFacts.

(** ** A block in a file *)

Lemma new_char_length (uninitialised : ifstream -> nat -> byte)
    (s : ifstream) (n : nat) :
  length (new_char uninitialised s n) = n.
Proof. unfold new_char. now rewrite length_map, length_seq. Qed.

(** A read into a buffer that the file can fill: the buffer holds the chars
    of the file and nothing of what it held before. *)
Lemma read_into_within (before : list byte) (n : nat) (s : ifstream) :
  good s = true -> (gpos s + n <= length (content s))%nat ->
  length before = n ->
  ifstream_read_into before n s
  = (Ok (firstn n (skipn (gpos s) (content s))),
     {| content := content s; gpos := (gpos s + n)%nat; eofbit := false;
        failbit := false; seeks := seeks s |}).
Proof.
  intros Hg Hfit Hlen. unfold ifstream_read_into, ifstream_read.
  rewrite Hg. destruct (Nat.leb_spec (gpos s + n) (length (content s)));
    [|lia].
  cbv zeta. cbn [snd].
  replace (skipn (length (firstn n (skipn (gpos s) (content s)))) before)
    with (@nil byte).
  - now rewrite app_nil_r.
  - symmetry. apply skipn_all2. rewrite length_firstn, length_skipn. lia.
Qed.

(** X1.  [readBlock] on a stream that has not failed, for a block that lies
    within the file: the outcome is that of decoding the inflated bytes (at
    most ten times the compressed size of them), the records tagged with
    the chromosome id; the stream is left at the end of the block. *)
Lemma readBlock_run (inflate : list byte -> list byte)
    (uninitialised : ifstream -> nat -> byte)
    (position size chromosomeId : Z) (info : hicInfo) (output : outputStr)
    (s : ifstream) :
  failbit s = false -> 0 < size -> size * 10 <= INT_MAX -> 0 <= position ->
  (Z.to_nat position + Z.to_nat size <= length (content s))%nat ->
  readBlock inflate uninitialised position size chromosomeId info output s
  = (match fst (decodeBlock (version info)
                  (firstn (Z.to_nat (size * 10))
                     (inflate (firstn (Z.to_nat size)
                                 (skipn (Z.to_nat position) (content s))))))
     with
     | Ok r => Ok (append_records output chromosomeId r)
     | Err e => Err e
     end,
     {| content := content s;
        gpos := (Z.to_nat position + Z.to_nat size)%nat;
        eofbit := false; failbit := false; seeks := position :: seeks s |}).
Proof.
  intros Hf Hsize Hroom Hpos Hfit. unfold readBlock.
  destruct (Z.eqb_spec size 0); [lia|].
  destruct (Z.ltb_spec size 0); [lia|].
  assert (Hmul : int_mul size 10 = Ok (size * 10)).
  { unfold int_mul, INT_MIN, INT_MAX in *.
    destruct (Z.leb_spec (- 2 ^ 31) (size * 10)); [|lia].
    destruct (Z.leb_spec (size * 10) (2 ^ 31 - 1)); [reflexivity|lia]. }
  rewrite Hmul, bind_lift_Ok.
  unfold bind at 1. unfold get.
  unfold bind at 1. unfold seekg. rewrite Hf.
  destruct (Z.ltb_spec position 0); [lia|].
  unfold bind at 1.
  rewrite read_into_within;
    [|reflexivity|exact Hfit|apply new_char_length].
  cbn [content gpos seeks].
  unfold bind, ret, lift.
  destruct (fst (decodeBlock _ _)); reflexivity.
Qed.

(* ================================================================= *)
(** * The claims *)

(** C4. A version >= 7 block of representation type 1 that holds the
    entries [(x, y, count)] of [rows] decodes to exactly one record per
    entry, in stream order, with [bin1 = binXOffset + x] and
    [bin2 = binYOffset + y]; no entry is filtered out.  The count of an entry
    occupies 2 bytes and is read as a short when [useShort] is 0, and
    occupies 4 bytes and is read as a float otherwise ([count_bytes],
    [stored_count]).  The hypotheses say that the fields fit their widths
    and that the decoding is defined (no [int] overflow, every float count
    converts to [int]). *)
Theorem type1_block_decodes (version totalRecords binXOffset binYOffset
    useShort : Z) (rows : list raw_row) (rest : membuf) (cs : list Z) :
  7 <= version -> 0 <= totalRecords < 2 ^ 31 ->
  in_int32 binXOffset -> in_int32 binYOffset ->
  - 2 ^ 7 <= useShort < 2 ^ 7 ->
  Z.of_nat (length rows) < 2 ^ 15 ->
  Forall (row_ok useShort) rows ->
  Forall (row_sums_ok binXOffset binYOffset) rows ->
  map_result (stored_count useShort) (map rec_count (entries rows)) = Ok cs ->
  decodeBlock version
    (block_type1 totalRecords binXOffset binYOffset useShort rows ++ rest)
  = (Ok {| bins1 := map (fun e => binXOffset + rec_x e) (entries rows);
           bins2 := map (fun e => binYOffset + rec_y e) (entries rows);
           counts := cs |}, rest)
  /\ length cs = length (entries rows)
  /\ (useShort = 0 -> cs = map rec_count (entries rows))
  /\ (useShort <> 0 ->
      Forall2 (fun e c =>
                 float_to_int (Float32.float_of_bits (rec_count e)) = Ok c)
        (entries rows) cs).
Proof.
  intros Hv Hn Hxo Hyo Hu Hlen Hrows Hsums Hcs.
  destruct (decodeBlock_type1 version totalRecords binXOffset binYOffset
              useShort rows rest Hv Hn Hxo Hyo Hu Hlen Hrows Hsums)
    as (s' & E & R).
  rewrite collect_spec, absolute_counts, Hcs in E, R.
  rewrite absolute_xs, absolute_ys in E, R. cbn [no_records bins1 bins2
    counts app] in E, R.
  rewrite (R _ eq_refl) in E. split; [exact E|].
  split.
  { apply map_result_length in Hcs. now rewrite Hcs, length_map. }
  split.
  - intros ->. rewrite map_result_short in Hcs. now inversion Hcs.
  - intros Hne. apply map_result_Forall2 in Hcs.
    assert (Hf : (useShort =? 0) = false) by now apply Z.eqb_neq.
    clear - Hcs Hf. revert cs Hcs.
    induction (entries rows) as [|e l IH]; intros cs Hcs;
      inversion Hcs as [|? c ? cs' Hec Hcs']; subst; constructor.
    + unfold stored_count in Hec. now rewrite Hf in Hec.
    + apply IH. exact Hcs'.
Qed.

Lemma type1_block_decodes_witness :
  decodeBlock 8 (Sample.block ++ [])
  = (Ok {| bins1 := [11; 14]; bins2 := [23; 23]; counts := [5; 7] |}, []).
Proof.
  apply (type1_block_decodes 8 2 10 20 0 [(3, [(1, 5); (4, 7)])] [] [5; 7]);
    try (unfold in_int32; lia); try reflexivity.
  - repeat constructor; cbn; unfold in_int16; lia.
  - repeat constructor; cbn; unfold in_int32; lia.
Defined.

(** C6. The version < 7 layout of the records of a block (int, int, float
    triples) and the version >= 7 type 1 layout of the same records with
    [useShort = 1] (float counts) decode to the same outcome, and, when every
    count converts to [int], to the same three vectors: one record per
    entry, in the same order. *)
Theorem version_layouts_agree (v6 v7 totalRecords binXOffset binYOffset : Z)
    (rows : list raw_row) (rest6 rest7 : membuf) :
  v6 < 7 -> 7 <= v7 -> 0 <= totalRecords < 2 ^ 31 ->
  in_int32 binXOffset -> in_int32 binYOffset ->
  Z.of_nat (length rows) < 2 ^ 15 ->
  Forall (row_ok 1) rows ->
  Forall (row_sums_ok binXOffset binYOffset) rows ->
  Z.of_nat (length (entries rows)) < 2 ^ 31 ->
  fst (decodeBlock v6
         (block_v6 (absolute binXOffset binYOffset rows) ++ rest6))
  = fst (decodeBlock v7
           (block_type1 totalRecords binXOffset binYOffset 1 rows ++ rest7))
  /\ (forall cs,
        map_result (stored_count 1) (map rec_count (entries rows)) = Ok cs ->
        exists r,
          decodeBlock v6
            (block_v6 (absolute binXOffset binYOffset rows) ++ rest6)
          = (Ok r, rest6)
          /\ decodeBlock v7
               (block_type1 totalRecords binXOffset binYOffset 1 rows
                ++ rest7)
             = (Ok r, rest7)
          /\ length (counts r) = length (entries rows)).
Proof.
  intros H6 H7 Hn Hxo Hyo Hlen Hrows Hsums Hent.
  destruct (decodeBlock_v6 v6 (absolute binXOffset binYOffset rows) rest6 H6
              (absolute_record_ok _ _ _ Hrows Hsums)) as (s6 & E6 & R6).
  { now rewrite absolute_length. }
  destruct (decodeBlock_type1 v7 totalRecords binXOffset binYOffset 1 rows
              rest7 H7 Hn Hxo Hyo ltac:(lia) Hlen Hrows Hsums)
    as (s7 & E7 & R7).
  rewrite E6, E7. split; [reflexivity|].
  intros cs Hcs.
  rewrite collect_spec, absolute_counts, Hcs in R6, R7 |- *.
  eexists. rewrite (R6 _ eq_refl), (R7 _ eq_refl).
  repeat split. cbn [counts no_records app].
  apply map_result_length in Hcs. now rewrite Hcs, length_map.
Qed.

Lemma version_layouts_agree_witness :
  fst (decodeBlock 6
         (block_v6 [(11, 23, 0x40200000); (14, 23, 0x3f800000)] ++ []))
  = fst (decodeBlock 8
           (block_type1 2 10 20 1
              [(3, [(1, 0x40200000); (4, 0x3f800000)])] ++ [])).
Proof.
  apply (version_layouts_agree 6 8 2 10 20
           [(3, [(1, 0x40200000); (4, 0x3f800000)])] [] []);
    try (unfold in_int32; lia); try (cbn; lia).
  - repeat constructor; cbn; unfold in_int16, in_uint32; lia.
  - repeat constructor; cbn; unfold in_int32; lia.
Defined.

(** C1 (as the code has it).  The counts of a block are stored in
    [std::vector<int>]: a count read as a float is converted to [int], that
    is truncated toward zero (a stored 2.5 is returned as 2).  This holds for
    the version < 7 layout, and for the type 1 and type 2 layouts with float
    counts (for type 2: the counts of the points that are kept). *)
Theorem float_counts_are_truncated (version totalRecords binXOffset
    binYOffset useShort w : Z) (recs : list raw_record)
    (rows : list raw_row) (cells : list Z) (rest : membuf) (r : records)
    (s' : membuf) :
  (version < 7 -> Forall record_ok recs ->
   Z.of_nat (length recs) < 2 ^ 31 ->
   decodeBlock version (block_v6 recs ++ rest) = (Ok r, s') ->
   Forall2 (fun rc c => count_is_truncated_float (rec_count rc) c)
     recs (counts r))
  /\ (7 <= version -> 0 <= totalRecords < 2 ^ 31 ->
      in_int32 binXOffset -> in_int32 binYOffset ->
      - 2 ^ 7 <= useShort < 2 ^ 7 -> useShort <> 0 ->
      Z.of_nat (length rows) < 2 ^ 15 ->
      Forall (row_ok useShort) rows ->
      Forall (row_sums_ok binXOffset binYOffset) rows ->
      decodeBlock version
        (block_type1 totalRecords binXOffset binYOffset useShort rows
         ++ rest) = (Ok r, s') ->
      Forall2 (fun rc c => count_is_truncated_float (rec_count rc) c)
        (entries rows) (counts r))
  /\ (7 <= version -> 0 <= totalRecords < 2 ^ 31 ->
      in_int32 binXOffset -> in_int32 binYOffset ->
      - 2 ^ 7 <= useShort < 2 ^ 7 -> useShort <> 0 ->
      in_int16 w -> w <> 0 ->
      Z.of_nat (length cells) < 2 ^ 31 ->
      Forall (count_ok useShort) cells ->
      Forall (fun rc => in_int32 (rec_x rc) /\ in_int32 (rec_y rc))
        (dense_points binXOffset binYOffset w 0 cells) ->
      decodeBlock version
        (block_type2 totalRecords binXOffset binYOffset useShort w cells
         ++ rest) = (Ok r, s') ->
      Forall2 (fun rc c => count_is_truncated_float (rec_count rc) c)
        (filter (fun rc => point_kept useShort (rec_count rc))
           (dense_points binXOffset binYOffset w 0 cells))
        (counts r)).
Proof.
  assert (Key : forall u l cs,
             (u =? 0) = false ->
             map_result (stored_count u) (map rec_count l) = Ok cs ->
             Forall2 (fun rc c => count_is_truncated_float (rec_count rc) c)
               l cs).
  { intros u l. induction l as [|rc l IH]; intros cs Hu Hcs;
      cbn [map map_result] in Hcs.
    - inversion Hcs. constructor.
    - destruct (stored_count u (rec_count rc)) as [c|] eqn:Ec;
        [|discriminate].
      destruct (map_result _ _) as [cs'|] eqn:Ecs; [|discriminate].
      inversion Hcs; subst. constructor; [|now apply IH].
      unfold stored_count in Ec. rewrite Hu in Ec.
      apply float_to_int_Ok in Ec. exact (proj1 Ec). }
  split; [|split].
  - intros Hv Hrecs Hlen E.
    destruct (decodeBlock_v6 version recs rest Hv Hrecs Hlen)
      as (s1 & E1 & _).
    rewrite E in E1. inversion E1 as [[Hc Hs]].
    rewrite collect_spec in Hc.
    destruct (map_result _ _) as [cs|] eqn:Ecs; [|discriminate].
    inversion Hc; subst. cbn [counts no_records app].
    now apply (Key 1).
  - intros Hv Hn Hxo Hyo Hu Hne Hlen Hrows Hsums E.
    destruct (decodeBlock_type1 version totalRecords binXOffset binYOffset
                useShort rows rest Hv Hn Hxo Hyo Hu Hlen Hrows Hsums)
      as (s1 & E1 & _).
    rewrite E in E1. inversion E1 as [[Hc Hs]].
    rewrite collect_spec, absolute_counts in Hc.
    destruct (map_result _ _) as [cs|] eqn:Ecs; [|discriminate].
    inversion Hc; subst. cbn [counts no_records app].
    apply (Key useShort); [now apply Z.eqb_neq | exact Ecs].
  - intros Hv Hn Hxo Hyo Hu Hne Hw16 Hw Hlen Hcells Hsums E.
    destruct (decodeBlock_type2 version totalRecords binXOffset binYOffset
                useShort w cells rest Hv Hn Hxo Hyo Hu Hw16 Hw Hlen Hcells
                Hsums) as (s1 & E1 & _).
    rewrite E in E1. inversion E1 as [[Hc Hs]].
    rewrite collect_spec in Hc.
    destruct (map_result _ _) as [cs|] eqn:Ecs; [|discriminate].
    inversion Hc; subst. cbn [counts no_records app].
    apply (Key useShort); [now apply Z.eqb_neq | exact Ecs].
Qed.

Lemma float_counts_are_truncated_witness :
  Forall2 (fun rc c => count_is_truncated_float (rec_count rc) c)
    [(3, 7, 0x40200000)] [2].
Proof.
  apply (proj1 (float_counts_are_truncated 6 0 0 0 0 0
                  [(3, 7, 0x40200000)] [] [] []
                  {| bins1 := [3]; bins2 := [7]; counts := [2] |} []));
    try reflexivity; try (cbn; lia).
  repeat constructor; cbn; unfold in_int32, in_uint32; lia.
Defined.

(** C1, as stated, fails: the version < 7 block with the single record
    [(3, 7, 2.5)] (the float 2.5 has the pattern 0x40200000) is decoded to
    the count 2, which is not the value of the float. *)
Lemma count_is_not_the_float_value :
  decodeBlock 6 (block_v6 [(3, 7, 0x40200000)])
  = (Ok {| bins1 := [3]; bins2 := [7]; counts := [2] |}, [])
  /\ (exists q, Float32.to_Q (Float32.float_of_bits 0x40200000) = Some q
                /\ Qeq q (5 # 2))
  /\ ~ count_is_float_value 0x40200000 2.
Proof.
  split; [reflexivity|]. split.
  - eexists. split; [reflexivity|]. reflexivity.
  - intros (q & Hq & Heq). vm_compute in Hq. inversion Hq; subst.
    unfold Qeq in Heq. cbn in Heq. discriminate.
Qed.

(** C5 (the code departs from it in the float encoding).  Three dense
    blocks with [w = 3] and nine points.  With short counts, the point of
    index 4 holding -32768 is dropped, and the eight others are emitted: the
    point at row 1, column 1 is the one left out.  With float counts the code
    compares the count with the [int] 0x7fc00000, that is with the float
    2143289344.0: the NaN of pattern 0x7fc00000 differs from it (a NaN
    differs from everything), so the point is not dropped and its count goes
    on to the conversion to [int], which is undefined for a NaN; and the
    float 2143289344.0 (pattern 0x4eff8000), which is not the sentinel, is
    dropped. *)
Theorem dense_float_sentinel_is_not_filtered :
  decodeBlock 8
    (block_type2 9 100 200 0 3 [1; 1; 1; 1; -32768; 1; 1; 1; 1])
  = (Ok {| bins1 := [100; 101; 102; 100; 102; 100; 101; 102];
           bins2 := [200; 200; 200; 201; 201; 202; 202; 202];
           counts := [1; 1; 1; 1; 1; 1; 1; 1] |}, [])
  /\ Float32.float_of_bits 0x7fc00000 = S754_nan
  /\ Float32.eq_Z (Float32.float_of_bits 0x7fc00000) NAN_SENTINEL = false
  /\ fst (decodeBlock 8
            (block_type2 9 100 200 1 3
               [0x3f800000; 0x3f800000; 0x3f800000; 0x3f800000; 0x7fc00000;
                0x3f800000; 0x3f800000; 0x3f800000; 0x3f800000]))
     = Err (Undefined FloatToInt)
  /\ Float32.to_Q (Float32.float_of_bits 0x4eff8000)
     = Some (inject_Z 2143289344)
  /\ decodeBlock 8
       (block_type2 9 100 200 1 3
          [0x3f800000; 0x3f800000; 0x3f800000; 0x3f800000; 0x4eff8000;
           0x3f800000; 0x3f800000; 0x3f800000; 0x3f800000])
     = (Ok {| bins1 := [100; 101; 102; 100; 102; 100; 101; 102];
              bins2 := [200; 200; 200; 201; 201; 202; 202; 202];
              counts := [1; 1; 1; 1; 1; 1; 1; 1] |}, []).
Proof. repeat split; vm_compute; reflexivity. Qed.

(** C9 (the code departs from it).  A dense block that declares one point
    and the row stride [w = 0]: the first iteration computes [0 / 0]. *)
Theorem dense_zero_stride_divides_by_zero :
  fst (decodeBlock 8 (block_type2 1 100 200 0 0 [7]))
  = Err (Undefined DivisionByZero).
Proof. vm_compute. reflexivity. Qed.

(** X3.  Every dense block with [w = 0] and at least one point ends in the
    division by zero. *)
Lemma zero_stride_is_undefined (version totalRecords binXOffset binYOffset
    useShort : Z) (cells : list Z) (rest : membuf) :
  7 <= version -> 0 <= totalRecords < 2 ^ 31 ->
  in_int32 binXOffset -> in_int32 binYOffset ->
  - 2 ^ 7 <= useShort < 2 ^ 7 ->
  cells <> [] -> Z.of_nat (length cells) < 2 ^ 31 ->
  fst (decodeBlock version
         (block_type2 totalRecords binXOffset binYOffset useShort 0 cells
          ++ rest))
  = Err (Undefined DivisionByZero).
Proof.
  intros Hv Hn Hxo Hyo Hu Hne Hlen. unfold decodeBlock, block_type2.
  rewrite <- !app_assoc. cbn [app].
  assert (Hn' : in_int32 totalRecords) by (unfold in_int32; lia).
  rewrite (bind_run _ (read_int32_le32 _ _ Hn')).
  rewrite reserve_run by lia.
  destruct (Z.ltb_spec version 7); [lia|].
  rewrite (bind_run _ (read_int32_le32 _ _ Hxo)).
  rewrite (bind_run _ (read_int32_le32 _ _ Hyo)).
  rewrite (bind_run _ (read_int8_byte _ _ Hu)).
  change x02 with (byte_of_Z 2).
  rewrite (bind_run _ (read_int8_byte 2 _ ltac:(lia))).
  cbn [Z.eqb Pos.eqb].
  assert (Hl : in_int32 (Z.of_nat (length cells))) by (unfold in_int32; lia).
  rewrite (bind_run _ (read_int32_le32 _ _ Hl)).
  rewrite (bind_run _ (read_le SIZE_OF_SHORT 0 _)).
  unfold for_upto. rewrite Nat2Z.id.
  destruct cells as [|c cells]; [contradiction|].
  reflexivity.
Qed.

(** C2 (as the code has it).  The resolution loop has no [break] and
    overwrites the selection at every match: when the header reader
    returns and the list holds the requested resolution, the selected index
    is the last index that holds it. *)
Theorem last_matching_resolution_is_selected (wanted : Z) (s : ifstream)
    (info : hicInfo) (s' : ifstream) :
  readHeader (hicInfo_init wanted) s = (Ok info, s') ->
  In wanted (availableResolutions info) ->
  last_index_of wanted (availableResolutions info)
    (selectedResolutionId info).
Proof.
  intros E Hin. apply readHeader_selection in E.
  destruct E as [[[_ Hnot]|Hlast] _]; [contradiction | exact Hlast].
Qed.

Lemma last_matching_resolution_is_selected_witness :
  last_index_of 5000 [5000; 10000; 5000] 2.
Proof.
  refine (last_matching_resolution_is_selected 5000
            (open (Some Sample.head_duplicate))
            {| master := 0; availableResolutions := [5000; 10000; 5000];
               resolution := 5000; selectedResolutionId := 2; version := 8;
               chromosomes := ["chr1"%string]; chromosomeLengths := [1000];
               totalChromosomes := 1; firstChromosomeIsAll := false |}
            _ _ _).
  - cbv. reflexivity.
  - cbn. auto.
Defined.

(** C2, as stated, fails: on a header whose resolutions are 5000, 10000,
    5000 and for the requested resolution 5000, whose first index is 0, the
    selected index is 2. *)
Lemma first_match_does_not_win :
  exists info s',
    readHeader (hicInfo_init 5000) (open (Some Sample.head_duplicate))
    = (Ok info, s')
    /\ availableResolutions info = [5000; 10000; 5000]
    /\ first_index_of 5000 (availableResolutions info) 0
    /\ selectedResolutionId info = 2
    /\ ~ first_index_of 5000 (availableResolutions info)
           (selectedResolutionId info).
Proof.
  eexists. eexists. split; [vm_compute; reflexivity|].
  cbn [availableResolutions selectedResolutionId].
  split; [reflexivity|]. split.
  - unfold first_index_of. cbn. repeat split; lia.
  - split; [reflexivity|]. intros (_ & _ & H). apply (H 0); [lia|].
    reflexivity.
Qed.

(** What [to_string] gives is a decimal numeral of its argument. *)
Lemma to_string_decimal (z : Z) : decimal_value (to_string z) = Some z.
Proof.
  unfold decimal_value, to_string.
  rewrite NilZero.isi.
  - cbn [option_map]. now rewrite DecimalZ.of_to.
  - destruct z; cbn; try discriminate.
    intros E. inversion E as [E'].
    now apply DecimalPos.Unsigned.to_uint_nonnil in E'.
  - destruct z; cbn; try discriminate.
    intros E. inversion E as [E'].
    now apply DecimalPos.Unsigned.to_uint_nonnil in E'.
Qed.

(** C3.  When the header reader returns and the resolution list does not
    hold the requested resolution, the parse ends in the error of
    [stop("Exiting.")]: no data frame is returned.  What [Rcerr] holds is
    spelled out: the line "Cannot find resolution <wanted>.", the line
    "Available resolutions:", and then one line per resolution of the
    header, all of them and in the order of the header, each a tab followed
    by the resolution in decimal; every number printed reads back as the
    number it stands for.  The file stream is as the header reader left it,
    with no [seekg] ever made: the footer is neither sought nor read. *)
Theorem missing_resolution_stops_before_footer
    (inflate : list byte -> list byte)
    (uninitialised : ifstream -> nat -> byte)
    (fs : string -> option (list byte))
    (fname : string) (wanted : Z) (bytes : list byte) (info : hicInfo)
    (s' : ifstream) :
  fs fname = Some bytes ->
  readHeader (hicInfo_init wanted) (open (Some bytes)) = (Ok info, s') ->
  ~ In wanted (availableResolutions info) ->
  parseHiCFile inflate uninitialised fs fname wanted
  = (Err (Stop "Exiting."),
     {| fin := s';
        Rcerr :=
          ("Cannot find resolution " ++ to_string wanted ++ "."
           ++ String "010" ""
           ++ "Available resolutions:" ++ String "010" ""
           ++ String.concat ""
                (map (fun r => String "009" "" ++ to_string r
                               ++ String "010" "")
                   (availableResolutions info)))%string |})
  /\ Forall (fun r => decimal_value (to_string r) = Some r)
       (wanted :: availableResolutions info)
  /\ seeks s' = [].
Proof.
  intros Hfs E Hnot. split; [|split].
  - assert (Hsel : selectedResolutionId info = -1).
    { apply readHeader_selection in E.
      destruct E as [[[Hs _]|Hlast] _]; [exact Hs|].
      now apply last_index_of_In in Hlast. }
    unfold parseHiCFile, parse. rewrite Hfs.
    change (failbit (fin {| fin := open (Some bytes);
                            Rcerr := EmptyString |})) with false.
    cbv iota.
    unfold bind at 1. unfold on_fin at 1. cbn [fin Rcerr]. rewrite E.
    rewrite Hsel. reflexivity.
  - apply Forall_forall. intros r _. apply to_string_decimal.
  - exact (keeps_readHeader [] (hicInfo_init wanted) (open (Some bytes))
             (Ok info) s' eq_refl E).
Qed.

Lemma missing_resolution_stops_before_footer_witness :
  fst (parseHiCFile Sample.stored Sample.fresh (Sample.fs Sample.file)
         "sample.hic" 700)
  = Err (Stop "Exiting.")
  /\ Rcerr (snd (parseHiCFile Sample.stored Sample.fresh
                   (Sample.fs Sample.file) "sample.hic" 700))
     = ("Cannot find resolution 700." ++ String "010" ""
        ++ "Available resolutions:" ++ String "010" ""
        ++ String "009" "5000" ++ String "010" ""
        ++ String "009" "10000" ++ String "010" "")%string
  /\ decimal_value "700" = Some 700
  /\ decimal_value "5000" = Some 5000
  /\ decimal_value "10000" = Some 10000
  /\ seeks (fin (snd (parseHiCFile Sample.stored Sample.fresh
                        (Sample.fs Sample.file) "sample.hic" 700))) = [].
Proof.
  destruct (missing_resolution_stops_before_footer Sample.stored
              Sample.fresh
              (Sample.fs Sample.file) "sample.hic" 700 Sample.file
              {| master := 184; availableResolutions := [5000; 10000];
                 resolution := 700; selectedResolutionId := -1;
                 version := 8; chromosomes := ["chr1"%string];
                 chromosomeLengths := [1000]; totalChromosomes := 1;
                 firstChromosomeIsAll := false |}
              (snd (readHeader (hicInfo_init 700) (open (Some Sample.file))))
              eq_refl) as (E & D & S).
  - vm_compute. reflexivity.
  - cbn. intros [H|[H|[]]]; discriminate H.
  - rewrite E. cbn [fst snd fin Rcerr availableResolutions].
    split; [reflexivity|]. split; [reflexivity|].
    inversion D as [|? ? D1 D']; subst.
    inversion D' as [|? ? D2 D'']; subst.
    inversion D'' as [|? ? D3 _]; subst.
    split; [exact D1|]. split; [exact D2|]. split; [exact D3 | exact S].
Defined.

(** C7.  A matrix region emits no record when its position is the absent
    marker -1 (the stream is not touched), and, once its two chromosome ids
    were read, when they differ or when the id is 0 while
    [firstChromosomeIsAll] holds: the output is returned as it was and the
    stream is left right after the two ids, whatever follows them. *)
Theorem skipped_regions_emit_nothing (inflate : list byte -> list byte)
    (uninitialised : ifstream -> nat -> byte)
    (start size : Z) (info : hicInfo) (output : outputStr) (s : ifstream) :
  (start = -1 ->
   readMatrix inflate uninitialised start size info output s = (Ok output, s))
  /\ (forall c1 c2 s1,
        read_region_ids start s = (Ok (c1, c2), s1) ->
        c1 <> c2 \/ (firstChromosomeIsAll info = true /\ c1 = 0) ->
        readMatrix inflate uninitialised start size info output s = (Ok output, s1)).
Proof.
  split.
  - intros ->. reflexivity.
  - intros c1 c2 s1 E Hskip. unfold read_region_ids in E.
    apply bind_Ok_inv in E. destruct E as ([] & sa & Ea & E).
    apply bind_Ok_inv in E. destruct E as (c1' & sb & Eb & E).
    apply bind_Ok_inv in E. destruct E as (c2' & sc & Ec & E).
    apply ret_Ok_inv in E. destruct E as [E ->].
    inversion E; subst c1' c2'; clear E.
    unfold readMatrix. destruct (Z.eqb_spec start (-1)) as [->|Hstart].
    + exfalso. clear - Ea Eb. unfold seekg in Ea.
      assert (Hf : failbit sa = true).
      { destruct (failbit s); inversion Ea; reflexivity. }
      unfold read_int32, bind in Eb. cbn [read ifstream_IStream] in Eb.
      unfold ifstream_read, good in Eb. rewrite Hf in Eb.
      rewrite andb_false_r in Eb. discriminate.
    + cbn [negb].
      rewrite (bind_run _ Ea), (bind_run _ Eb), (bind_run _ Ec).
      destruct (Z.eqb_spec c1 c2) as [Heq|Hne]; [|reflexivity].
      destruct Hskip as [Hd|[Hall H0]]; [contradiction|].
      rewrite Hall, H0. reflexivity.
Qed.

Lemma skipped_regions_emit_nothing_witness :
  exists s1,
    readMatrix Sample.stored Sample.fresh 86 106
      {| master := 192; availableResolutions := [5000; 10000];
         resolution := 5000; selectedResolutionId := 0; version := 8;
         chromosomes := ["All"%string; "chr1"%string];
         chromosomeLengths := [2000; 1000]; totalChromosomes := 2;
         firstChromosomeIsAll := true |}
      outputStr_init (open (Some Sample.file_all))
    = (Ok outputStr_init, s1).
Proof.
  eexists.
  refine (proj2 (skipped_regions_emit_nothing Sample.stored Sample.fresh 86 106 _
                   outputStr_init (open (Some Sample.file_all)))
            0 0 _ _ _).
  - cbv. reflexivity.
  - right. split; reflexivity.
Defined.

(** C8.  A call of [readBlock] that returns has appended the same number
    of elements to the four vectors of the output, so four vectors of one
    length stay so; and a parse that returns gives a data frame whose four
    columns have one length. *)
Theorem output_vectors_grow_together (inflate : list byte -> list byte)
    (uninitialised : ifstream -> nat -> byte)
    (position size chromosomeId : Z) (info : hicInfo)
    (output output' : outputStr) (s s' : ifstream)
    (fs : string -> option (list byte)) (fname : string) (wanted : Z)
    (df : DataFrame) (w : world) :
  (readBlock inflate uninitialised position size chromosomeId info output s
   = (Ok output', s') ->
   appends_equally output output' /\ (balanced output -> balanced output'))
  /\ (parseHiCFile inflate uninitialised fs fname wanted = (Ok df, w) -> rectangular df).
Proof.
  split.
  - intros E. apply readBlock_appends_equally in E. split; [exact E|].
    intros Hb. exact (appends_equally_balanced _ _ Hb E).
  - apply parseHiCFile_rectangular.
Qed.

Lemma output_vectors_grow_together_witness :
  appends_equally outputStr_init
    {| chromosome := [0; 0]; bin1 := [11; 14]; bin2 := [23; 23];
       count := [5; 7] |}
  /\ rectangular
       {| df_chromosome := [1; 1]; df_levels := ["chr1"%string];
          df_position_1 := [55000; 70000];
          df_position_2 := [115000; 115000]; df_interaction := [5; 7] |}.
Proof.
  pose proof (output_vectors_grow_together Sample.stored Sample.fresh 50 28 0
                (set_version (hicInfo_init 5000) 8)
                outputStr_init
                {| chromosome := [0; 0]; bin1 := [11; 14]; bin2 := [23; 23];
                   count := [5; 7] |}
                (open (Some Sample.file))
                (snd (readBlock Sample.stored Sample.fresh 50 28 0
                        (set_version (hicInfo_init 5000) 8) outputStr_init
                        (open (Some Sample.file))))
                (Sample.fs Sample.file) "sample.hic" 5000
                {| df_chromosome := [1; 1]; df_levels := ["chr1"%string];
                   df_position_1 := [55000; 70000];
                   df_position_2 := [115000; 115000];
                   df_interaction := [5; 7] |}
                (snd (parseHiCFile Sample.stored Sample.fresh (Sample.fs Sample.file)
                        "sample.hic" 5000))) as [B P].
  split.
  - apply B. vm_compute. reflexivity.
  - apply P. vm_compute. reflexivity.
Defined.

(** C10 (the code departs from it).  On a header that declares no
    chromosome the table is empty when [info.chromosomes[0]] is read. *)
Theorem empty_chromosome_table_is_indexed :
  fst (readHeader (hicInfo_init 5000)
         (open (Some Sample.head_no_chromosome)))
  = Err (Undefined IndexOutOfBounds).
Proof. vm_compute. reflexivity. Qed.

(** X4.  The header reader returns only with a chromosome table that is
    not empty: with an empty one it always ends in an error. *)
Lemma readHeader_needs_a_chromosome (wanted : Z) (s : ifstream)
    (info : hicInfo) (s' : ifstream) :
  readHeader (hicInfo_init wanted) s = (Ok info, s') ->
  chromosomes info <> [].
Proof. intros E. apply readHeader_selection in E. exact (proj2 E). Qed.

(* ================================================================= *)
(** * More of the readers *)

(** ** Edge cases of block decoding *)

Module BlockEdges.

(** X5.  A version >= 7 block whose representation type is neither 1 nor 2
    gives no record and is no error; what follows the type byte is not
    read. *)
Lemma unknown_type_is_empty (version totalRecords xo yo u t : Z)
    (rest : membuf) :
  7 <= version -> 0 <= totalRecords < 2 ^ 31 ->
  in_int32 xo -> in_int32 yo ->
  - 2 ^ 7 <= u < 2 ^ 7 -> - 2 ^ 7 <= t < 2 ^ 7 -> t <> 1 -> t <> 2 ->
  decodeBlock version
    (le32 totalRecords ++ le32 xo ++ le32 yo
     ++ [byte_of_Z u; byte_of_Z t] ++ rest)
  = (Ok no_records, rest).
Proof.
  intros Hv Hn Hxo Hyo Hu Ht H1 H2. unfold decodeBlock. cbn [app].
  assert (Hn' : in_int32 totalRecords) by (unfold in_int32; lia).
  rewrite (bind_run _ (read_int32_le32 _ _ Hn')).
  rewrite reserve_run by lia.
  destruct (Z.ltb_spec version 7); [lia|].
  rewrite (bind_run _ (read_int32_le32 _ _ Hxo)).
  rewrite (bind_run _ (read_int32_le32 _ _ Hyo)).
  rewrite (bind_run _ (read_int8_byte _ _ Hu)).
  rewrite (bind_run _ (read_int8_byte _ _ Ht)).
  destruct (Z.eqb_spec t 1); [contradiction|].
  destruct (Z.eqb_spec t 2); [contradiction|].
  reflexivity.
Qed.

(** X6.  A block whose record count is negative ends in
    [std::length_error], whatever the version and whatever follows. *)
Lemma negative_record_count_throws (version totalRecords : Z)
    (rest : membuf) :
  - 2 ^ 31 <= totalRecords < 0 ->
  decodeBlock version (le32 totalRecords ++ rest) = (Err LengthError, rest).
Proof.
  intros Hn. unfold decodeBlock.
  assert (Hn' : in_int32 totalRecords) by (unfold in_int32; lia).
  rewrite (bind_run _ (read_int32_le32 _ _ Hn')).
  unfold reserve. destruct (Z.ltb_spec totalRecords 0); [|lia].
  reflexivity.
Qed.


(** A loop invariant that follows the counter and the stream. *)
Lemma for_loop_relation {S A : Type} (P : Z -> A -> S -> Prop)
    (body : Z -> A -> M S A) :
  (forall i a s a' s',
     P i a s -> body i a s = (Ok a', s') -> P (i + 1) a' s') ->
  forall n i a s a' s',
    P i a s -> for_loop n i body a s = (Ok a', s') ->
    P (i + Z.of_nat n) a' s'.
Proof.
  intros Hbody. induction n as [|n IH]; intros i a s a' s' Ha E.
  - apply ret_Ok_inv in E. destruct E as [-> ->].
    now rewrite Z.add_0_r.
  - cbn [for_loop] in E. apply bind_Ok_inv in E.
    destruct E as (a1 & s1 & E1 & E2).
    replace (i + Z.of_nat (Datatypes.S n)) with (i + 1 + Z.of_nat n) by lia.
    eapply IH; [|exact E2]. eapply Hbody; eassumption.
Qed.

(** A read that set its variable took its bytes from the front. *)
Lemma membuf_read_Some (n : nat) (s s' : membuf) (bs : list byte) :
  read n s = (Ok (Some bs), s') ->
  bs = firstn n s /\ s' = skipn n s /\ length s = (n + length s')%nat.
Proof.
  cbn [read membuf_IStream]. unfold membuf_read.
  destruct (Nat.leb_spec n (length s)); intros E; inversion E; subst.
  repeat split. rewrite length_skipn. lia.
Qed.

Lemma membuf_value_consumes {A : Type} (n : nat) (f : list byte -> A)
    (s s' : membuf) (a : A) :
  bind (read n) (value_of f) s = (Ok a, s') ->
  a = f (firstn n s) /\ s' = skipn n s /\ length s = (n + length s')%nat.
Proof.
  intros E. apply bind_Ok_inv in E. destruct E as ([bs|] & s1 & E1 & E2).
  - apply membuf_read_Some in E1. destruct E1 as (-> & -> & Hl).
    apply ret_Ok_inv in E2. destruct E2 as [-> ->]. auto.
  - discriminate.
Qed.

(** One record of a version < 7 block takes 12 bytes and pushes one
    element on each vector. *)
Lemma decode_record_consumes (i : Z) (r r' : records) (s s' : membuf) :
  decode_record i r s = (Ok r', s') ->
  length s = (12 + length s')%nat
  /\ length (bins1 r') = Datatypes.S (length (bins1 r))
  /\ length (bins2 r') = Datatypes.S (length (bins2 r))
  /\ length (counts r') = Datatypes.S (length (counts r)).
Proof.
  intros E. unfold decode_record in E.
  apply bind_Ok_inv in E. destruct E as (x & s1 & E1 & E).
  apply bind_Ok_inv in E. destruct E as (y & s2 & E2 & E).
  apply bind_Ok_inv in E. destruct E as (c & s3 & E3 & E).
  apply bind_Ok_inv in E. destruct E as (z & s4 & E4 & E).
  apply lift_Ok_inv in E4. destruct E4 as [_ ->].
  apply ret_Ok_inv in E. destruct E as [-> ->].
  apply membuf_value_consumes in E1, E2, E3.
  destruct E1 as (_ & _ & L1), E2 as (_ & _ & L2), E3 as (_ & _ & L3).
  cbn [push bins1 bins2 counts]. rewrite !length_app.
  unfold SIZE_OF_INT, SIZE_OF_FLOAT in *. cbn [length]. repeat split; lia.
Qed.

(** X7.  A version < 7 decoding that returns has emitted exactly as many
    records as the block declares in its first four bytes, and has taken
    4 bytes and 12 bytes per record from the buffer: a buffer too short for
    the declared count never gives a shorter list. *)
Lemma v6_decodes_the_declared_count (version : Z) (s : membuf) (r : records)
    (s' : membuf) :
  version < 7 -> decodeBlock version s = (Ok r, s') ->
  exists n : nat,
    as_int32 (firstn 4 s) = Z.of_nat n
    /\ length (bins1 r) = n /\ length (bins2 r) = n
    /\ length (counts r) = n
    /\ length s = (4 + 12 * n + length s')%nat.
Proof.
  intros Hv E. unfold decodeBlock in E.
  apply bind_Ok_inv in E. destruct E as (total & s1 & E1 & E).
  apply membuf_value_consumes in E1. destruct E1 as (Ht & Hs1 & L1).
  apply bind_Ok_inv in E. destruct E as ([] & s2 & E2 & E).
  unfold reserve in E2. destruct (Z.ltb_spec total 0); [discriminate|].
  apply ret_Ok_inv in E2. destruct E2 as [_ ->].
  destruct (Z.ltb_spec version 7); [|lia].
  unfold for_upto in E.
  apply (for_loop_relation
           (fun i r s =>
              0 <= i /\ length (bins1 r) = Z.to_nat i
              /\ length (bins2 r) = Z.to_nat i
              /\ length (counts r) = Z.to_nat i
              /\ length s1 = (12 * Z.to_nat i + length s)%nat)) in E.
  - exists (Z.to_nat total). rewrite Z.add_0_l, Nat2Z.id in E.
    destruct E as (_ & B1 & B2 & B3 & L).
    unfold SIZE_OF_INT in *. rewrite <- Ht, Z2Nat.id by lia.
    repeat split; try assumption; lia.
  - clear. intros i a s a' s' (Hi & B1 & B2 & B3 & L) E.
    apply decode_record_consumes in E. destruct E as (L' & C1 & C2 & C3).
    rewrite Z2Nat.inj_add by lia. cbn. repeat split; lia.
  - cbn. repeat split; lia.
Qed.


Lemma Qtrunc_comp (q q' : Q) : Qeq q q' -> Qtrunc q = Qtrunc q'.
Proof.
  intros Hq. unfold Qtrunc. rewrite Hq.
  destruct (Qle_bool 0 q'); now rewrite Hq.
Qed.

(** A float whose value is an integer within [int] converts to that
    integer. *)
Lemma integer_float_converts_exactly (f : spec_float) (q : Q) (n : Z) :
  Float32.to_Q f = Some q -> Qeq q (inject_Z n) ->
  INT_MIN <= n <= INT_MAX ->
  float_to_int f = Ok n.
Proof.
  intros Hf Hq Hn. unfold float_to_int.
  destruct (Float32.trunc f) as [z|] eqn:Ez.
  - apply trunc_to_Q in Ez. destruct Ez as (q' & Hq' & ->).
    rewrite Hf in Hq'. inversion Hq'; subst q'.
    rewrite (Qtrunc_comp _ _ Hq), Qtrunc_inject_Z.
    destruct (Z.leb_spec INT_MIN n); [|lia].
    destruct (Z.leb_spec n INT_MAX); [reflexivity|lia].
  - destruct f; cbn in Hf, Ez; discriminate.
Qed.

(** X8.  A version < 7 block whose float counts all have integer values
    within [int] decodes to exactly these records: [binX], [binY] and the
    integer, one per triple and in order. *)
Lemma integer_counts_round_trip (version : Z) (recs : list raw_record)
    (ns : list Z) (rest : membuf) :
  version < 7 -> Forall record_ok recs ->
  Z.of_nat (length recs) < 2 ^ 31 ->
  Forall2 (fun rc n =>
             exists q,
               Float32.to_Q (Float32.float_of_bits (rec_count rc)) = Some q
               /\ Qeq q (inject_Z n) /\ INT_MIN <= n <= INT_MAX)
    recs ns ->
  decodeBlock version (block_v6 recs ++ rest)
  = (Ok {| bins1 := map rec_x recs; bins2 := map rec_y recs;
           counts := ns |}, rest).
Proof.
  intros Hv Hrecs Hlen Hns.
  destruct (decodeBlock_v6 version recs rest Hv Hrecs Hlen) as (s' & E & R).
  assert (Hcs : map_result (stored_count 1) (map rec_count recs) = Ok ns).
  { clear - Hns. induction Hns as [|rc n recs ns (q & Hq & He & Hn) _ IH].
    - reflexivity.
    - cbn [map map_result]. rewrite IH.
      change (stored_count 1 (rec_count rc))
        with (float_to_int (Float32.float_of_bits (rec_count rc))).
      now rewrite (integer_float_converts_exactly _ q n Hq He Hn). }
  rewrite collect_spec, Hcs in E, R. cbn [no_records bins1 bins2 counts app]
    in E, R.
  now rewrite (R _ eq_refl) in E.
Qed.

Lemma dense_points_in_grid (xo yo w : Z) (cells : list Z) (i : Z) :
  0 < w -> 0 <= i ->
  Forall (fun rc =>
            xo <= rec_x rc < xo + w
            /\ yo <= rec_y rc <= yo + (i + Z.of_nat (length cells) - 1) / w)
    (dense_points xo yo w i cells).
Proof.
  intros Hw. revert i. induction cells as [|c cells IH]; intros i Hi;
    cbn [dense_points length].
  - constructor.
  - constructor.
    + unfold rec_x, rec_y. cbn [fst snd].
      rewrite Z.quot_div_nonneg by lia.
      pose proof (Z.mod_pos_bound i w Hw) as Hm.
      pose proof (Z.mod_eq i w ltac:(lia)) as He.
      assert (Hd : 0 <= i / w) by (apply Z.div_pos; lia).
      assert (Hle : i / w <= (i + Z.of_nat (Datatypes.S (length cells)) - 1) / w)
        by (apply Z.div_le_mono; lia).
      split; [|lia]. nia.
    + replace (i + Z.of_nat (Datatypes.S (length cells)) - 1)
        with (i + 1 + Z.of_nat (length cells) - 1) by lia.
      apply IH. lia.
Qed.

(** X9.  With a positive stride [w], every record a dense block emits lies
    in the grid of the block: [bin1] in [binXOffset, binXOffset + w) and
    [bin2] from [binYOffset] to the row of the last point; at most one record
    per point is emitted. *)
Lemma dense_records_lie_in_the_grid (version totalRecords xo yo u w : Z)
    (cells : list Z) (rest : membuf) (r : records) (s' : membuf) :
  7 <= version -> 0 <= totalRecords < 2 ^ 31 ->
  in_int32 xo -> in_int32 yo -> - 2 ^ 7 <= u < 2 ^ 7 ->
  in_int16 w -> 0 < w ->
  Z.of_nat (length cells) < 2 ^ 31 ->
  Forall (count_ok u) cells ->
  Forall (fun rc => in_int32 (rec_x rc) /\ in_int32 (rec_y rc))
    (dense_points xo yo w 0 cells) ->
  decodeBlock version (block_type2 totalRecords xo yo u w cells ++ rest)
  = (Ok r, s') ->
  Forall (fun b => xo <= b < xo + w) (bins1 r)
  /\ Forall (fun b => yo <= b <= yo + (Z.of_nat (length cells) - 1) / w)
       (bins2 r)
  /\ (length (bins1 r) <= length cells)%nat.
Proof.
  intros Hv Hn Hxo Hyo Hu Hw16 Hw Hlen Hcells Hsums E.
  destruct (decodeBlock_type2 version totalRecords xo yo u w cells rest
              Hv Hn Hxo Hyo Hu Hw16 ltac:(lia) Hlen Hcells Hsums)
    as (s1 & E1 & _).
  rewrite E in E1. inversion E1 as [[Hc Hs]]. clear E1.
  rewrite collect_spec in Hc.
  destruct (map_result _ _) as [cs|]; [|discriminate].
  inversion Hc; subst r. cbn [bins1 bins2 no_records app].
  pose proof (dense_points_in_grid xo yo w cells 0 Hw ltac:(lia)) as G.
  rewrite Z.add_0_l in G.
  assert (Hlenp : forall i, length (dense_points xo yo w i cells)
                            = length cells).
  { clear. induction cells as [|c cells IH]; intros i; cbn;
      [reflexivity | now rewrite IH]. }
  repeat split.
  - apply Forall_map. apply Forall_forall. intros rc Hin.
    apply filter_In in Hin. destruct Hin as [Hin _].
    rewrite Forall_forall in G. apply (G rc Hin).
  - apply Forall_map. apply Forall_forall. intros rc Hin.
    apply filter_In in Hin. destruct Hin as [Hin _].
    rewrite Forall_forall in G. apply (G rc Hin).
  - rewrite length_map. rewrite <- (Hlenp 0). apply filter_length_le.
Qed.

End BlockEdges.
Import BlockEdges.

(** ** What the readers append, and where they seek *)

Module AppendFacts.

Ltac inv_run E :=
  repeat
    match type of E with
    | bind _ _ _ = (Ok _, _) =>
        let a := fresh "a" in
        let s := fresh "s" in
        let E1 := fresh "E" in
        apply bind_Ok_inv in E; destruct E as (a & s & E1 & E)
    | ret _ _ = (Ok _, _) => apply ret_Ok_inv in E; destruct E as [-> _]
    | throw _ _ = (Ok _, _) => discriminate E
    | (if ?b then _ else _) _ = (Ok _, _) => destruct b eqn:?
    end.

Lemma extends_with_refl (id : Z) (o : outputStr) : extends_with id o o.
Proof.
  exists 0%nat, [], [], []. cbn [repeat]. rewrite !app_nil_r.
  repeat split.
Qed.

Lemma extends_with_trans (id : Z) (o1 o2 o3 : outputStr) :
  extends_with id o1 o2 -> extends_with id o2 o3 -> extends_with id o1 o3.
Proof.
  intros (k & b1 & b2 & n & C & B1 & B2 & N & L1 & L2 & L3)
         (k' & b1' & b2' & n' & C' & B1' & B2' & N' & L1' & L2' & L3').
  exists (k + k')%nat, (b1 ++ b1'), (b2 ++ b2'), (n ++ n').
  rewrite C', B1', B2', N', C, B1, B2, N, repeat_app, <- !app_assoc.
  rewrite !length_app. repeat split; lia.
Qed.

Lemma extends_with_extends (id : Z) (o o' : outputStr) :
  extends_with id o o' -> extends o o'.
Proof.
  intros (k & b1 & b2 & n & C & B1 & B2 & N & L1 & L2 & L3).
  exists (repeat id k), b1, b2, n. rewrite repeat_length.
  repeat split; try assumption; lia.
Qed.

Lemma extends_refl (o : outputStr) : extends o o.
Proof. apply (extends_with_extends 0), extends_with_refl. Qed.

Lemma extends_trans (o1 o2 o3 : outputStr) :
  extends o1 o2 -> extends o2 o3 -> extends o1 o3.
Proof.
  intros (c & b1 & b2 & n & C & B1 & B2 & N & L1 & L2 & L3)
         (c' & b1' & b2' & n' & C' & B1' & B2' & N' & L1' & L2' & L3').
  exists (c ++ c'), (b1 ++ b1'), (b2 ++ b2'), (n ++ n').
  rewrite C', B1', B2', N', C, B1, B2, N, <- !app_assoc.
  rewrite !length_app. repeat split; lia.
Qed.

Section Files.
Variable inflate : list byte -> list byte.
Variable uninitialised : ifstream -> nat -> byte.

(** What a call of [readBlock] that returns has appended. *)
Lemma readBlock_extends (position size chromosomeId : Z) (info : hicInfo)
    (output : outputStr) (s : ifstream) (output' : outputStr)
    (s' : ifstream) :
  readBlock inflate uninitialised position size chromosomeId info output s
  = (Ok output', s') ->
  extends_with chromosomeId output output'.
Proof.
  intros E. unfold readBlock in E. inv_run E.
  - apply extends_with_refl.
  - match goal with
    | D : lift (fst (decodeBlock _ _)) _ = (Ok ?r, _) |- _ =>
        apply lift_Ok_inv in D; destruct D as [D _];
        destruct (decodeBlock (version info) _) as [res rest] eqn:Dec;
        cbn [fst] in D; subst res;
        pose proof (decodeBlock_aligned _ _ _ _ Dec) as [A1 A2];
        exists (length (bins1 r)), (bins1 r), (bins2 r), (counts r)
    end.
    unfold append_records. cbn [chromosome bin1 bin2 count].
    repeat split; lia.
Qed.

Lemma read_block_pointer_extends (resolutionId chromosomeId1 : Z)
    (info : hicInfo) (i : Z) (output : outputStr) (s : ifstream)
    (output' : outputStr) (s' : ifstream) :
  extends_with chromosomeId1 output output ->
  read_block_pointer inflate uninitialised resolutionId chromosomeId1 info i output s
  = (Ok output', s') ->
  extends_with chromosomeId1 output output'.
Proof.
  intros _ E. unfold read_block_pointer in E. inv_run E.
  - eapply readBlock_extends. eassumption.
  - apply extends_with_refl.
Qed.

Lemma read_block_directory_extends (chromosomeId1 : Z) (info : hicInfo)
    (resolutionId : Z) (output : outputStr) (s : ifstream)
    (output' : outputStr) (s' : ifstream) :
  read_block_directory inflate uninitialised chromosomeId1 info resolutionId output s
  = (Ok output', s') ->
  extends_with chromosomeId1 output output'.
Proof.
  intros E. unfold read_block_directory in E. inv_run E.
  unfold for_upto in E.
  eapply (for_loop_invariant (extends_with chromosomeId1 output));
    [|apply extends_with_refl|exact E].
  intros j o1 t o2 t' Ho Eb.
  eapply extends_with_trans; [exact Ho|].
  eapply read_block_pointer_extends; [apply extends_with_refl|exact Eb].
Qed.

Lemma readMatrix_extends (start size : Z) (info : hicInfo)
    (output : outputStr) (s : ifstream) (output' : outputStr)
    (s' : ifstream) :
  readMatrix inflate uninitialised start size info output s = (Ok output', s') ->
  exists id, extends_with id output output'.
Proof.
  intros E. unfold readMatrix in E. inv_run E;
    try (exists 0; apply extends_with_refl).
  match goal with
  | _ : read_int32 _ = (Ok ?c, _), _ : (?c =? _) = true |- _ => exists c
  end.
  unfold for_upto in E.
  eapply (for_loop_invariant (extends_with _ output));
    [|apply extends_with_refl|exact E].
  intros j o1 t o2 t' Ho Eb.
  eapply extends_with_trans; [exact Ho|].
  eapply read_block_directory_extends. exact Eb.
Qed.

(** X11.  What a call of [readBlock] that returns has appended: as many
    elements to each of the four vectors, every new element of the
    chromosome vector being its [chromosomeId]; what the output held before
    is kept, in place. *)
Lemma blocks_append_tagged_records (position size chromosomeId : Z)
    (info : hicInfo) (output : outputStr) (s : ifstream)
    (output' : outputStr) (s' : ifstream) :
  readBlock inflate uninitialised position size chromosomeId info output s
  = (Ok output', s') ->
  extends_with chromosomeId output output'.
Proof. apply readBlock_extends. Qed.

(** X12.  What a call of [readMatrix] on a region that returns has
    appended: every new record is tagged with the first of the two
    chromosome ids stored at the start of the region, whatever its
    directories and blocks hold; what the output held before is kept, in
    place. *)
Lemma regions_append_tagged_records (start size : Z) (info : hicInfo)
    (output : outputStr) (s : ifstream) (output' : outputStr)
    (s' : ifstream) :
  start <> -1 ->
  readMatrix inflate uninitialised start size info output s = (Ok output', s') ->
  exists c1 c2 s1,
    read_region_ids start s = (Ok (c1, c2), s1)
    /\ extends_with c1 output output'.
Proof.
  intros Hs E. unfold readMatrix in E.
  destruct (Z.eqb_spec start (-1)); [contradiction|]. cbn [negb] in E.
  apply bind_Ok_inv in E. destruct E as ([] & sa & Ea & E).
  apply bind_Ok_inv in E. destruct E as (c1 & sb & Eb & E).
  apply bind_Ok_inv in E. destruct E as (c2 & sc & Ec & E).
  exists c1, c2, sc. split.
  - unfold read_region_ids.
    now rewrite (bind_run _ Ea), (bind_run _ Eb), (bind_run _ Ec).
  - destruct (c1 =? c2);
      [|apply ret_Ok_inv in E; destruct E as [-> _];
        apply extends_with_refl].
    destruct (negb (firstChromosomeIsAll info) || negb (c1 =? 0));
      [|apply ret_Ok_inv in E; destruct E as [-> _];
        apply extends_with_refl].
    apply bind_Ok_inv in E. destruct E as (total & sd & _ & E).
    unfold for_upto in E.
    eapply (for_loop_invariant (extends_with c1 output));
      [|apply extends_with_refl|exact E].
    intros j o1 t o2 t' Ho Eo.
    eapply extends_with_trans; [exact Ho|].
    eapply read_block_directory_extends. exact Eo.
Qed.

(** X13.  [readFooter] only appends: when it returns, the output it gives
    is the one it was given followed by new elements, as many for each of the
    four vectors. *)
Lemma readFooter_only_appends (info : hicInfo) (output : outputStr)
    (s : ifstream) (output' : outputStr) (s' : ifstream) :
  readFooter inflate uninitialised info output s = (Ok output', s') ->
  extends output output'.
Proof.
  intros E. unfold readFooter in E. inv_run E. unfold for_upto in E.
  eapply (for_loop_invariant (extends output));
    [|apply extends_refl|exact E].
  clear. intros j o1 t o2 t' Ho Eb.
  eapply extends_trans; [exact Ho|]. unfold read_entry in Eb. inv_run Eb.
  match goal with
  | Em : readMatrix _ _ _ _ _ _ _ = (Ok _, _) |- _ =>
      destruct (readMatrix_extends _ _ _ _ _ _ _ Em) as [id Hid]
  end.
  eapply extends_with_extends. exact Hid.
Qed.



Lemma keeps_seeks_read_block_pointer (l : list Z)
    (resolutionId chromosomeId1 : Z) (info : hicInfo) (i : Z)
    (output : outputStr) :
  resolutionId <> selectedResolutionId info ->
  keeps (seeks_are l)
    (read_block_pointer inflate uninitialised resolutionId chromosomeId1 info i output).
Proof.
  intros Hne. unfold read_block_pointer.
  destruct (Z.eqb_spec resolutionId (selectedResolutionId info));
    [contradiction|].
  repeat (apply keeps_bind; [apply keeps_read | intros ?]).
  apply keeps_ret.
Qed.

(** X14.  A block directory whose ordinal in the matrix is not the selected
    resolution index is walked without any block being read: no [seekg] is
    made, and when the walk returns the output is as it was. *)
Lemma other_directories_read_no_block (chromosomeId1 : Z) (info : hicInfo)
    (resolutionId : Z) (output : outputStr) (s : ifstream)
    (r : result outputStr) (s' : ifstream) :
  resolutionId <> selectedResolutionId info ->
  read_block_directory inflate uninitialised chromosomeId1 info resolutionId output s
  = (r, s') ->
  seeks s' = seeks s /\ (forall output', r = Ok output' -> output' = output).
Proof.
  intros Hne E. split.
  - assert (K : keeps (seeks_are (seeks s))
                  (read_block_directory inflate uninitialised chromosomeId1 info
                     resolutionId output)).
    { unfold read_block_directory.
      apply keeps_bind; [apply keeps_getline | intros ?].
      repeat (apply keeps_bind; [apply keeps_read | intros ?]).
      apply keeps_bind; [apply keeps_read_int32 | intros ?].
      apply keeps_for_loop. intros j o.
      now apply keeps_seeks_read_block_pointer. }
    exact (K s r s' eq_refl E).
  - intros output' ->. unfold read_block_directory in E. inv_run E.
    unfold for_upto in E.
    eapply (for_loop_invariant (fun o => o = output)); [|reflexivity|exact E].
    intros j o1 t o2 t' -> Eb. unfold read_block_pointer in Eb.
    destruct (Z.eqb_spec resolutionId (selectedResolutionId info));
      [contradiction|].
    inv_run Eb. reflexivity.
Qed.

End Files.

(** A read that set its variable leaves the stream good. *)
Lemma ifstream_read_Some (n : nat) (s s' : ifstream) (bs : list byte) :
  read n s = (Ok (Some bs), s') ->
  eofbit s' = false /\ failbit s' = false /\ content s' = content s
  /\ seeks s' = seeks s.
Proof.
  cbn [read ifstream_IStream]. unfold ifstream_read.
  destruct (good s); [destruct (_ <=? _)%nat|]; intros E; inversion E;
    subst; repeat split.
Qed.

Lemma ifstream_value_good {A : Type} (n : nat) (f : list byte -> A)
    (s s' : ifstream) (a : A) :
  bind (read n) (value_of f) s = (Ok a, s') ->
  eofbit s' = false /\ failbit s' = false.
Proof.
  intros E. apply bind_Ok_inv in E. destruct E as ([bs|] & s1 & E1 & E2).
  - apply ifstream_read_Some in E1. destruct E1 as (He & Hf & _).
    apply ret_Ok_inv in E2. destruct E2 as [_ ->]. auto.
  - discriminate.
Qed.

Lemma tellg_good (s : ifstream) :
  eofbit s = false -> failbit s = false ->
  tellg s = (Ok (Z.of_nat (gpos s)), s).
Proof. intros He Hf. unfold tellg, good. now rewrite He, Hf. Qed.

Lemma seekg_back (p : nat) (s s' : ifstream) :
  seekg (Z.of_nat p) s = (Ok tt, s') -> failbit s' = false -> gpos s' = p.
Proof.
  unfold seekg. destruct (failbit s).
  - intros E Hf. inversion E; subst. discriminate.
  - destruct (Z.ltb_spec (Z.of_nat p) 0); [lia|].
    intros E _. inversion E; subst. cbn. apply Nat2Z.id.
Qed.

(** X15.  When the body of the entry loop of [readFooter] returns and the
    stream has not failed, the stream is back right after the three fields
    of the entry, wherever the matrix and its blocks were read. *)
Lemma entry_body_returns_to_its_entry (inflate : list byte -> list byte)
    (uninitialised : ifstream -> nat -> byte)
    (info : hicInfo) (i : Z) (output : outputStr) (s : ifstream)
    (output' : outputStr) (s' : ifstream) :
  read_entry inflate uninitialised info i output s = (Ok output', s') ->
  failbit s' = false ->
  exists fields s1,
    read_entry_fields s = (Ok fields, s1) /\ gpos s' = gpos s1.
Proof.
  intros E Hf. unfold read_entry in E.
  apply bind_Ok_inv in E. destruct E as (str & sa & Ea & E).
  apply bind_Ok_inv in E. destruct E as (fpos & sb & Eb & E).
  apply bind_Ok_inv in E. destruct E as (size & sc & Ec & E).
  exists (fpos, size), sc. split.
  - unfold read_entry_fields.
    now rewrite (bind_run _ Ea), (bind_run _ Eb), (bind_run _ Ec).
  - destruct (ifstream_value_good _ _ _ _ _ Ec) as [Hce Hcf].
    rewrite (bind_run _ (tellg_good sc Hce Hcf)) in E.
    apply bind_Ok_inv in E. destruct E as (o & sd & _ & E).
    apply bind_Ok_inv in E. destruct E as ([] & se & Ese & E).
    apply ret_Ok_inv in E. destruct E as [_ E]. subst se.
    exact (seekg_back _ _ _ Ese Hf).
Qed.

(** X16.  When the body of the block loop of [readMatrix] returns and the
    stream has not failed, the stream is right after the three fields of
    the block pointer, whether the block was read or not. *)
Lemma pointer_body_returns_to_its_pointer
    (inflate : list byte -> list byte)
    (uninitialised : ifstream -> nat -> byte) (info : hicInfo)
    (resolutionId chromosomeId1 i : Z) (output : outputStr) (s : ifstream)
    (output' : outputStr) (s' : ifstream) :
  read_block_pointer inflate uninitialised resolutionId chromosomeId1 info i output s
  = (Ok output', s') ->
  failbit s' = false ->
  exists fields s1,
    read_pointer_fields s = (Ok fields, s1) /\ gpos s' = gpos s1.
Proof.
  intros E Hf. unfold read_block_pointer in E.
  apply bind_Ok_inv in E. destruct E as (bi & sa & Ea & E).
  apply bind_Ok_inv in E. destruct E as (bp & sb & Eb & E).
  apply bind_Ok_inv in E. destruct E as (bs & sc & Ec & E).
  exists (bp, bs), sc. split.
  - unfold read_pointer_fields.
    now rewrite (bind_run _ Ea), (bind_run _ Eb), (bind_run _ Ec).
  - destruct (resolutionId =? selectedResolutionId info).
    + apply bind_Ok_inv in E. destruct E as (pos & sd & Et & E).
      apply bind_Ok_inv in E. destruct E as (p & se & Ep & E).
      apply bind_Ok_inv in E. destruct E as (z & sf & Ez & E).
      destruct bs as [bs|]; [|discriminate].
      apply ifstream_read_Some in Ec. destruct Ec as (Hce & Hcf & _).
      rewrite (tellg_good sc Hce Hcf) in Et. inversion Et; subst pos sd.
      apply bind_Ok_inv in E. destruct E as (o & sg & _ & E).
      apply bind_Ok_inv in E. destruct E as ([] & sh & Esh & E).
      apply ret_Ok_inv in E. destruct E as [_ E]. subst sh.
      exact (seekg_back _ _ _ Esh Hf).
    + apply ret_Ok_inv in E. destruct E as [_ ->]. reflexivity.
Qed.

End AppendFacts.
Import AppendFacts.

(** ** Reading a laid-out file *)

Module FileLayoutFacts.

Lemma skipn_advance (bytes bs rest : list byte) (p : nat) :
  skipn p bytes = bs ++ rest -> skipn (p + length bs) bytes = rest.
Proof.
  intros H. rewrite Nat.add_comm, <- skipn_skipn, H. clear H.
  induction bs as [|b bs IH]; [reflexivity | exact IH].
Qed.

Lemma read_at (bytes bs rest : list byte) (p : nat) (l : list Z) :
  skipn p bytes = bs ++ rest -> bs <> [] ->
  read (length bs) (stream_at bytes p l)
  = (Ok (Some bs), stream_at bytes (p + length bs) l).
Proof.
  intros H Hne. cbn [read ifstream_IStream]. unfold ifstream_read, stream_at.
  cbn [good eofbit failbit negb andb gpos content seeks].
  assert (Hlen : (p + length bs <= length bytes)%nat).
  { pose proof (length_skipn p bytes) as L. rewrite H, length_app in L.
    destruct bs; [contradiction|]. cbn [length] in *. lia. }
  destruct (Nat.leb_spec (p + length bs) (length bytes)); [|lia].
  rewrite H. do 3 f_equal. clear.
  induction bs as [|b bs IH]; cbn; [reflexivity | now rewrite IH].
Qed.

Lemma int64_of_bytes (z : Z) :
  in_int64 z -> signed 64 (le_to_Z (le64 z)) = z.
Proof.
  intros Hz. unfold le64. rewrite le_to_Z_to_le.
  apply signed_mod; [lia | exact Hz].
Qed.

Lemma read_int32_at (bytes rest : list byte) (p : nat) (l : list Z) (z : Z) :
  skipn p bytes = le32 z ++ rest -> in_int32 z ->
  read_int32 (stream_at bytes p l) = (Ok z, stream_at bytes (p + 4) l).
Proof.
  intros H Hz. unfold read_int32.
  pose proof (read_at bytes (le32 z) rest p l H) as R.
  unfold le32 in R at 2 4. rewrite Z_to_le_length in R.
  rewrite (bind_run _ (R ltac:(discriminate))).
  unfold value_of, ret, as_int32. now rewrite int32_of_bytes.
Qed.

Lemma read_int64_at (bytes rest : list byte) (p : nat) (l : list Z) (z : Z) :
  skipn p bytes = le64 z ++ rest -> in_int64 z ->
  read_int64 (stream_at bytes p l) = (Ok z, stream_at bytes (p + 8) l).
Proof.
  intros H Hz. unfold read_int64.
  pose proof (read_at bytes (le64 z) rest p l H) as R.
  unfold le64 in R at 2 4. rewrite Z_to_le_length in R.
  rewrite (bind_run _ (R ltac:(discriminate))).
  unfold value_of, ret, as_int64. now rewrite int64_of_bytes.
Qed.

Lemma split_at_nul_cstring (lb rest : list byte) :
  ~ In x00 lb -> split_at_nul (lb ++ x00 :: rest) = (lb, Some rest).
Proof.
  induction lb as [|b lb IH]; intros Hn; cbn [app split_at_nul].
  - reflexivity.
  - destruct (Byte.eqb b x00) eqn:Eb.
    + apply Byte.byte_dec_bl in Eb. subst b. exfalso. apply Hn. now left.
    + rewrite IH; [reflexivity|]. intros Hin. apply Hn. now right.
Qed.

Lemma cstring_length (str : string) :
  length (cstring str) = Datatypes.S (length (list_byte_of_string str)).
Proof. unfold cstring. rewrite length_app. cbn. lia. Qed.

Lemma getline_at (bytes rest : list byte) (p : nat) (l : list Z)
    (str : string) :
  skipn p bytes = cstring str ++ rest -> no_nul str ->
  getline (stream_at bytes p l)
  = (Ok str, stream_at bytes (p + length (cstring str)) l).
Proof.
  intros H Hn. unfold getline, stream_at.
  cbn [good eofbit failbit negb andb gpos content seeks].
  rewrite H, cstring_length. unfold cstring. rewrite <- app_assoc.
  cbn [app].
  rewrite (split_at_nul_cstring _ _ Hn), string_of_list_byte_of_string.
  replace (p + length (list_byte_of_string str) + 1)%nat
    with (p + Datatypes.S (length (list_byte_of_string str)))%nat by lia.
  reflexivity.
Qed.


Lemma stream_at_eq (bytes : list byte) (p q : nat) (l : list Z) :
  p = q -> stream_at bytes p l = stream_at bytes q l.
Proof. now intros ->. Qed.

(** The attribute loop on laid-out attributes. *)
Lemma read_attributes_at (bytes : list byte) (l : list Z)
    (attrs : list (string * string)) :
  Forall (fun kv => no_nul (fst kv) /\ no_nul (snd kv)) attrs ->
  forall (p : nat) (i : Z) (rest : list byte),
  skipn p bytes
  = flat_map (fun kv => cstring (fst kv) ++ cstring (snd kv)) attrs ++ rest ->
  for_loop (length attrs) i read_attribute tt (stream_at bytes p l)
  = (Ok tt,
     stream_at bytes
       (p + length (flat_map (fun kv => cstring (fst kv) ++ cstring (snd kv))
                      attrs)) l).
Proof.
  induction 1 as [|[k v] attrs [Hk Hv] _ IH]; intros p i rest H.
  - cbn. now rewrite Nat.add_0_r.
  - cbn [flat_map length for_loop fst snd] in *.
    rewrite <- !app_assoc in H.
    assert (B : read_attribute i tt (stream_at bytes p l)
                = (Ok tt, stream_at bytes
                            (p + length (cstring k) + length (cstring v)) l)).
    { unfold read_attribute.
      rewrite (bind_run _ (getline_at _ _ _ _ _ H Hk)).
      apply skipn_advance in H.
      now rewrite (bind_run _ (getline_at _ _ _ _ _ H Hv)). }
    rewrite (bind_run _ B).
    do 2 apply skipn_advance in H.
    rewrite (IH _ (i + 1) rest H). f_equal. apply stream_at_eq.
    rewrite !length_app. lia.
Qed.

(** The chromosome loop on laid-out chromosomes. *)
Lemma read_chromosomes_at (bytes : list byte) (l : list Z)
    (chroms : list (string * Z)) :
  Forall (fun nl => no_nul (fst nl) /\ in_int32 (snd nl)) chroms ->
  forall (p : nat) (i : Z) (info : hicInfo) (rest : list byte),
  skipn p bytes
  = flat_map (fun nl => cstring (fst nl) ++ le32 (snd nl)) chroms ++ rest ->
  for_loop (length chroms) i read_chromosome info (stream_at bytes p l)
  = (Ok {| master := master info;
           availableResolutions := availableResolutions info;
           resolution := resolution info;
           selectedResolutionId := selectedResolutionId info;
           version := version info;
           chromosomes := chromosomes info ++ map fst chroms;
           chromosomeLengths := chromosomeLengths info ++ map snd chroms;
           totalChromosomes := totalChromosomes info;
           firstChromosomeIsAll := firstChromosomeIsAll info |},
     stream_at bytes
       (p + length (flat_map (fun nl => cstring (fst nl) ++ le32 (snd nl))
                      chroms)) l).
Proof.
  induction 1 as [|[name len] chroms [Hn Hl] _ IH]; intros p i info rest H.
  - cbn. rewrite Nat.add_0_r, !app_nil_r. now destruct info.
  - cbn [flat_map length for_loop fst snd map] in *.
    rewrite <- !app_assoc in H.
    assert (B : read_chromosome i info (stream_at bytes p l)
                = (Ok (push_chromosome info name len),
                   stream_at bytes (p + length (cstring name) + 4) l)).
    { unfold read_chromosome.
      rewrite (bind_run _ (getline_at _ _ _ _ _ H Hn)).
      apply skipn_advance in H.
      now rewrite (bind_run _ (read_int32_at _ _ _ _ _ H Hl)). }
    rewrite (bind_run _ B).
    do 2 apply skipn_advance in H.
    unfold le32 in H at 1.
    rewrite Z_to_le_length in H.
    rewrite (IH _ (i + 1) _ rest H).
    cbn [push_chromosome master availableResolutions resolution
         selectedResolutionId version chromosomes chromosomeLengths
         totalChromosomes firstChromosomeIsAll].
    rewrite <- !app_assoc. cbn [app]. f_equal. apply stream_at_eq.
    rewrite !length_app. unfold le32. rewrite Z_to_le_length. lia.
Qed.

(** The resolution loop on laid-out resolutions. *)
Lemma read_resolutions_at (bytes : list byte) (l : list Z) (rs : list Z) :
  Forall in_int32 rs ->
  forall (p : nat) (i : Z) (info : hicInfo) (rest : list byte),
  skipn p bytes = flat_map le32 rs ++ rest ->
  for_loop (length rs) i read_resolution info (stream_at bytes p l)
  = (Ok {| master := master info;
           availableResolutions := availableResolutions info ++ rs;
           resolution := resolution info;
           selectedResolutionId :=
             scan_selected (resolution info) i rs (selectedResolutionId info);
           version := version info;
           chromosomes := chromosomes info;
           chromosomeLengths := chromosomeLengths info;
           totalChromosomes := totalChromosomes info;
           firstChromosomeIsAll := firstChromosomeIsAll info |},
     stream_at bytes (p + length (flat_map le32 rs)) l).
Proof.
  induction 1 as [|r rs Hr _ IH]; intros p i info rest H.
  - cbn. rewrite Nat.add_0_r, !app_nil_r. now destruct info.
  - cbn [flat_map length for_loop scan_selected] in *.
    rewrite <- !app_assoc in H.
    assert (B : read_resolution i info (stream_at bytes p l)
                = (Ok (if r =? resolution info
                       then set_selectedResolutionId
                              (push_resolution info r) i
                       else push_resolution info r),
                   stream_at bytes (p + 4) l)).
    { unfold read_resolution.
      rewrite (bind_run _ (read_int32_at _ _ _ _ _ H Hr)).
      cbn [push_resolution resolution]. now destruct (r =? resolution info). }
    rewrite (bind_run _ B).
    apply skipn_advance in H. unfold le32 in H at 1.
    rewrite Z_to_le_length in H.
    rewrite (IH _ (i + 1) _ rest H).
    f_equal.
    + destruct (r =? resolution info);
        cbn [set_selectedResolutionId push_resolution master
             availableResolutions resolution selectedResolutionId version
             chromosomes chromosomeLengths totalChromosomes
             firstChromosomeIsAll];
        now rewrite <- !app_assoc.
    + apply stream_at_eq. rewrite !length_app. unfold le32.
      rewrite Z_to_le_length. lia.
Qed.

End FileLayoutFacts.
Import FileLayoutFacts.

(** ** The header, laid out *)

Module HeaderLayoutFacts.

Lemma readMagicString_at (bytes rest : list byte) (p : nat) (l : list Z)
    (magic : string) :
  skipn p bytes = cstring magic ++ rest -> no_nul magic ->
  readMagicString (stream_at bytes p l)
  = (Ok (starts_with_HIC magic),
     stream_at bytes (p + length (cstring magic)) l).
Proof.
  intros H Hn. unfold readMagicString.
  now rewrite (bind_run _ (getline_at _ _ _ _ _ H Hn)).
Qed.

Lemma readHeader_layout (wanted : Z) (magic : string) (ver mst : Z)
    (genome : string) (attrs : list (string * string))
    (chroms : list (string * Z)) (resolutions : list Z) (rest : list byte) :
  starts_with_HIC magic = true -> no_nul magic -> no_nul genome ->
  6 <= ver < 2 ^ 31 -> in_int64 mst ->
  Forall (fun kv => no_nul (fst kv) /\ no_nul (snd kv)) attrs ->
  Forall (fun nl => no_nul (fst nl) /\ in_int32 (snd nl)) chroms ->
  Forall in_int32 resolutions ->
  Z.of_nat (length attrs) < 2 ^ 31 ->
  Z.of_nat (length chroms) < 2 ^ 31 ->
  Z.of_nat (length resolutions) < 2 ^ 31 ->
  chroms <> [] ->
  let bytes :=
    header magic ver mst genome attrs chroms resolutions ++ rest in
  readHeader (hicInfo_init wanted) (open (Some bytes))
  = (Ok (header_info wanted ver mst chroms resolutions),
     stream_at bytes
       (length (header magic ver mst genome attrs chroms resolutions))
       []).
Proof.
  intros Hm Nm Ng Hv Hma Ha Hc Hr La Lc Lr Hne bytes.
  assert (H : skipn 0 bytes
              = cstring magic ++ le32 ver ++ le64 mst
                ++ cstring genome ++ le32 (Z.of_nat (length attrs))
                ++ flat_map (fun kv => cstring (fst kv) ++ cstring (snd kv))
                     attrs
                ++ le32 (Z.of_nat (length chroms))
                ++ flat_map (fun nl => cstring (fst nl) ++ le32 (snd nl))
                     chroms
                ++ le32 (Z.of_nat (length resolutions))
                ++ flat_map le32 resolutions ++ rest).
  { unfold bytes, header. cbn [skipn]. now rewrite <- !app_assoc. }
  assert (I32 : forall n : nat, Z.of_nat n < 2 ^ 31 -> in_int32 (Z.of_nat n)).
  { intros n Hn. unfold in_int32. lia. }
  assert (L4 : forall z, length (le32 z) = 4%nat).
  { intros z. unfold le32. apply Z_to_le_length. }
  assert (L8 : forall z, length (le64 z) = 8%nat).
  { intros z. unfold le64. apply Z_to_le_length. }
  change (open (Some bytes)) with (stream_at bytes 0 []).
  unfold readHeader, for_upto.
  rewrite (bind_run _ (readMagicString_at _ _ _ _ _ H Nm)).
  rewrite Hm. cbn [negb].
  apply skipn_advance in H.
  rewrite (bind_run _ (read_int32_at _ _ _ _ _ H
                         (ltac:(unfold in_int32; lia)))).
  destruct (ver <? 6) eqn:V; [apply Z.ltb_lt in V; lia|].
  apply skipn_advance in H. rewrite L4 in H.
  rewrite (bind_run _ (read_int64_at _ _ _ _ _ H Hma)).
  apply skipn_advance in H. rewrite L8 in H.
  rewrite (bind_run _ (getline_at _ _ _ _ _ H Ng)).
  apply skipn_advance in H.
  rewrite (bind_run _ (read_int32_at _ _ _ _ _ H (I32 _ La))).
  apply skipn_advance in H. rewrite L4 in H.
  rewrite Nat2Z.id.
  rewrite (bind_run _ (read_attributes_at _ _ _ Ha _ 0 _ H)).
  apply skipn_advance in H.
  rewrite (bind_run _ (read_int32_at _ _ _ _ _ H (I32 _ Lc))).
  apply skipn_advance in H. rewrite L4 in H. rewrite Nat2Z.id.
  rewrite (bind_run _ (read_chromosomes_at _ _ _ Hc _ 0 _ _ H)).
  apply skipn_advance in H.
  rewrite (bind_run _ (read_int32_at _ _ _ _ _ H (I32 _ Lr))).
  apply skipn_advance in H. rewrite L4 in H. rewrite Nat2Z.id.
  rewrite (bind_run _ (read_resolutions_at _ _ _ Hr _ 0 _ _ H)).
  cbn [chromosomes set_totalChromosomes set_master set_version
       set_selectedResolutionId hicInfo_init master availableResolutions
       resolution selectedResolutionId version chromosomeLengths
       totalChromosomes firstChromosomeIsAll app].
  destruct chroms as [|[name len] chroms']; [congruence|].
  cbn [map fst]. unfold ret, header_info. cbn [map fst snd hd].
  f_equal. apply stream_at_eq.
  unfold header. rewrite !length_app, !L4, !L8. cbn [length flat_map fst snd].
  rewrite !length_app, !L4. lia.
Qed.

End HeaderLayoutFacts.
Import HeaderLayoutFacts.

(** ** Block pointers, laid out *)

Module RegionFacts.

Section Files.
Variable inflate : list byte -> list byte.
Variable uninitialised : ifstream -> nat -> byte.
Variable bytes : list byte.

Lemma le32_length (z : Z) : length (le32 z) = 4%nat.
Proof. apply Z_to_le_length. Qed.

Lemma le64_length (z : Z) : length (le64 z) = 8%nat.
Proof. apply Z_to_le_length. Qed.

Lemma read4_at (rest : list byte) (p : nat) (l : list Z) (z : Z) :
  skipn p bytes = le32 z ++ rest ->
  read SIZE_OF_INT (stream_at bytes p l)
  = (Ok (Some (le32 z)), stream_at bytes (p + 4) l).
Proof.
  intros H. pose proof (read_at bytes (le32 z) rest p l H) as R.
  rewrite le32_length in R. apply R.
  intros E. apply (f_equal (@length byte)) in E.
  rewrite le32_length in E. discriminate.
Qed.

Lemma read8_at (rest : list byte) (p : nat) (l : list Z) (z : Z) :
  skipn p bytes = le64 z ++ rest ->
  read SIZE_OF_LONG (stream_at bytes p l)
  = (Ok (Some (le64 z)), stream_at bytes (p + 8) l).
Proof.
  intros H. pose proof (read_at bytes (le64 z) rest p l H) as R.
  rewrite le64_length in R. apply R.
  intros E. apply (f_equal (@length byte)) in E.
  rewrite le64_length in E. discriminate.
Qed.

Lemma seekg_at (p : nat) (l : list Z) (q : Z) :
  0 <= q ->
  seekg q (stream_at bytes p l) = (Ok tt, stream_at bytes (Z.to_nat q) (q :: l)).
Proof.
  intros Hq. unfold seekg, stream_at. cbn [failbit].
  destruct (Z.ltb_spec q 0); [lia | reflexivity].
Qed.

Lemma tellg_at (p : nat) (l : list Z) :
  tellg (stream_at bytes p l) = (Ok (Z.of_nat p), stream_at bytes p l).
Proof. reflexivity. Qed.

Lemma append_no_records (output : outputStr) (chromosomeId : Z) :
  append_records output chromosomeId no_records = output.
Proof.
  destruct output. unfold append_records, no_records.
  cbn [chromosome bin1 bin2 count bins1 bins2 counts length repeat].
  now rewrite !app_nil_r.
Qed.

(** [readBlock] on a block of size 0, or on one that lies within the
    file. *)
Lemma readBlock_at (ptr : Z * Z * Z) (r : records) (chromosomeId : Z)
    (info : hicInfo) (output : outputStr) (p : nat) (l : list Z) :
  block_at inflate bytes (version info) ptr r ->
  exists q l',
    readBlock inflate uninitialised (snd (fst ptr)) (snd ptr) chromosomeId
      info output (stream_at bytes p l)
    = (Ok (append_records output chromosomeId r), stream_at bytes q l').
Proof.
  destruct ptr as [[blockId position] size]. cbn [fst snd block_at].
  intros (_ & [[-> ->] | (Hpos & Hsize & Hroom & Hfit & Hdec)]).
  - exists p, l. rewrite append_no_records. reflexivity.
  - exists (Z.to_nat position + Z.to_nat size)%nat, (position :: l).
    unfold readBlock.
    destruct (Z.eqb_spec size 0); [lia|].
    destruct (Z.ltb_spec size 0); [lia|].
    assert (Hmul : int_mul size 10 = Ok (size * 10)).
    { unfold int_mul, INT_MIN, INT_MAX in *.
      destruct (Z.leb_spec (- 2 ^ 31) (size * 10)); [|lia].
      destruct (Z.leb_spec (size * 10) (2 ^ 31 - 1)); [reflexivity|lia]. }
    rewrite Hmul, bind_lift_Ok.
    unfold bind at 1. unfold get.
    rewrite (bind_run _ (seekg_at _ _ _ Hpos)).
    unfold bind at 1.
    rewrite read_into_within;
      [|reflexivity|exact Hfit|apply new_char_length].
    unfold stream_at. cbn [content gpos seeks].
    unfold bind, ret, lift. rewrite Hdec. reflexivity.
Qed.

(** The three fields of a block pointer. *)
Lemma pointer_fields_at (ptr : Z * Z * Z) (rest : list byte) (p : nat)
    (l : list Z) {A : Type}
    (k : option (list byte) -> option (list byte) -> M ifstream A) :
  skipn p bytes = pointer_bytes ptr ++ rest ->
  (blockId <- read SIZE_OF_INT ;;
   blockPosition <- read SIZE_OF_LONG ;;
   blockSize <- read SIZE_OF_INT ;;
   k blockPosition blockSize) (stream_at bytes p l)
  = k (Some (le64 (snd (fst ptr)))) (Some (le32 (snd ptr)))
      (stream_at bytes (p + 16) l).
Proof.
  destruct ptr as [[blockId position] size]. cbn [fst snd pointer_bytes].
  rewrite <- !app_assoc. intros H.
  rewrite (bind_run _ (read4_at _ _ _ _ H)).
  apply skipn_advance in H. rewrite le32_length in H.
  rewrite (bind_run _ (read8_at _ _ _ _ H)).
  apply skipn_advance in H. rewrite le64_length in H.
  rewrite (bind_run _ (read4_at _ _ _ _ H)).
  f_equal. apply stream_at_eq. lia.
Qed.

Lemma pointer_bytes_length (ptr : Z * Z * Z) :
  length (pointer_bytes ptr) = 16%nat.
Proof.
  destruct ptr as [[blockId position] size]. unfold pointer_bytes.
  now rewrite !length_app, !le32_length, le64_length.
Qed.

Lemma pointers_length (pointers : list (Z * Z * Z)) :
  length (flat_map pointer_bytes pointers) = (16 * length pointers)%nat.
Proof.
  induction pointers as [|ptr pointers IH]; [reflexivity|].
  cbn [flat_map length]. rewrite length_app, pointer_bytes_length, IH. lia.
Qed.

(** The block loop of the selected resolution. *)
Lemma selected_pointers_at (chromosomeId1 : Z) (info : hicInfo)
    (pointers : list (Z * Z * Z)) (rs : list records) :
  Forall2 (block_at inflate bytes (version info)) pointers rs ->
  forall (p : nat) (l : list Z) (i : Z) (output : outputStr)
         (rest : list byte),
  skipn p bytes = flat_map pointer_bytes pointers ++ rest ->
  exists l',
    for_loop (length pointers) i
      (read_block_pointer inflate uninitialised (selectedResolutionId info) chromosomeId1
         info) output (stream_at bytes p l)
    = (Ok (append_all output chromosomeId1 rs),
       stream_at bytes (p + 16 * length pointers) l').
Proof.
  induction 1 as [|ptr r pointers rs Hb _ IH]; intros p l i output rest H.
  - exists l. cbn. now rewrite Nat.add_0_r.
  - cbn [flat_map length for_loop append_all fold_left] in *.
    rewrite <- app_assoc in H.
    assert (B : exists l1,
               read_block_pointer inflate uninitialised
                 (selectedResolutionId info) chromosomeId1 info i output
                 (stream_at bytes p l)
               = (Ok (append_records output chromosomeId1 r),
                  stream_at bytes (p + 16) l1)).
    { unfold read_block_pointer.
      rewrite (pointer_fields_at ptr _ _ _ _ H).
      rewrite Z.eqb_refl.
      rewrite (bind_run _ (tellg_at _ _)).
      unfold value_of at 1 2. unfold bind at 1 2. unfold ret at 1 2.
      destruct (readBlock_at _ _ chromosomeId1 info output (p + 16) l Hb)
        as (q & l1 & R).
      destruct ptr as [[blockId position] size].
      assert (Hp : in_int64 position) by exact (proj1 Hb).
      assert (Hs : in_int32 size).
      { destruct Hb as (_ & [[-> _] | (_ & Hs & Hr & _)]);
          unfold in_int32, INT_MAX in *; lia. }
      cbn [fst snd] in *.
      unfold as_int64, as_int32.
      rewrite int64_of_bytes by exact Hp.
      rewrite int32_of_bytes by exact Hs.
      rewrite (bind_run _ R).
      rewrite (bind_run _ (seekg_at _ _ _ (Nat2Z.is_nonneg _))).
      rewrite Nat2Z.id. eexists. reflexivity. }
    destruct B as [l1 B].
    rewrite (bind_run _ B).
    apply skipn_advance in H. rewrite pointer_bytes_length in H.
    destruct (IH _ l1 (i + 1)
                 (append_records output chromosomeId1 r) rest H)
      as [l' E].
    exists l'. rewrite E. f_equal. apply stream_at_eq. lia.
Qed.

(** The block loop of any other resolution. *)
Lemma other_pointers_at (resolutionId chromosomeId1 : Z) (info : hicInfo)
    (pointers : list (Z * Z * Z)) :
  resolutionId <> selectedResolutionId info ->
  forall (p : nat) (l : list Z) (i : Z) (output : outputStr)
         (rest : list byte),
  skipn p bytes = flat_map pointer_bytes pointers ++ rest ->
  for_loop (length pointers) i
    (read_block_pointer inflate uninitialised resolutionId chromosomeId1 info) output
    (stream_at bytes p l)
  = (Ok output, stream_at bytes (p + 16 * length pointers) l).
Proof.
  intros Hne.
  induction pointers as [|ptr pointers IH]; intros p l i output rest H.
  - cbn. now rewrite Nat.add_0_r.
  - cbn [flat_map length for_loop] in *. rewrite <- app_assoc in H.
    assert (B : read_block_pointer inflate uninitialised resolutionId chromosomeId1 info i
                  output (stream_at bytes p l)
                = (Ok output, stream_at bytes (p + 16) l)).
    { unfold read_block_pointer.
      rewrite (pointer_fields_at ptr _ _ _ _ H).
      destruct (Z.eqb_spec resolutionId (selectedResolutionId info));
        [contradiction | reflexivity]. }
    rewrite (bind_run _ B).
    apply skipn_advance in H. rewrite pointer_bytes_length in H.
    rewrite (IH _ l (i + 1) output rest H). f_equal. apply stream_at_eq. lia.
Qed.

End Files.

End RegionFacts.
Import RegionFacts.

(** ** Directories, regions and the footer, laid out *)

Module FooterFacts.

Section Files.
Variable inflate : list byte -> list byte.
Variable uninitialised : ifstream -> nat -> byte.
Variable bytes : list byte.

Lemma directory_length (d : directory) :
  length (directory_bytes d)
  = (length (cstring (dir_unit d)) + 36
     + 16 * length (dir_pointers d))%nat.
Proof.
  unfold directory_bytes.
  rewrite !length_app, !le32_length, pointers_length. lia.
Qed.

(** The fixed part of a block directory: whatever the unit, the index, the
    statistics, the bin size and the block dimensions are, they are read and
    dropped. *)
Lemma read_block_directory_at (chromosomeId1 : Z) (info : hicInfo)
    (resolutionId : Z) (output : outputStr) (d : directory)
    (rest : list byte) (p : nat) (l : list Z) :
  skipn p bytes = directory_bytes d ++ rest ->
  directory_ok d ->
  read_block_directory inflate uninitialised chromosomeId1 info resolutionId
    output (stream_at bytes p l)
  = for_loop (length (dir_pointers d)) 0
      (read_block_pointer inflate uninitialised resolutionId chromosomeId1
         info) output
      (stream_at bytes (p + length (cstring (dir_unit d)) + 36) l)
    /\ skipn (p + length (cstring (dir_unit d)) + 36) bytes
       = flat_map pointer_bytes (dir_pointers d) ++ rest.
Proof.
  unfold directory_bytes. rewrite <- !app_assoc.
  intros H [Hunit Hlen]. unfold read_block_directory, SIZE_OF_FLOAT.
  rewrite (bind_run _ (getline_at _ _ _ _ _ H Hunit)).
  apply skipn_advance in H.
  do 8 (rewrite (bind_run _ (read4_at _ _ _ _ _ H));
        apply skipn_advance in H; rewrite le32_length in H).
  rewrite (bind_run _ (read_int32_at _ _ _ _ _ H
                         ltac:(unfold in_int32; lia))).
  apply skipn_advance in H. rewrite le32_length in H.
  unfold for_upto. rewrite Nat2Z.id.
  replace (p + length (cstring (dir_unit d))
           + 4 + 4 + 4 + 4 + 4 + 4 + 4 + 4 + 4)%nat
    with (p + length (cstring (dir_unit d)) + 36)%nat in * by lia.
  split; [reflexivity | exact H].
Qed.

Lemma selected_directory_at (chromosomeId1 : Z) (info : hicInfo)
    (output : outputStr) (d : directory) (rs : list records)
    (rest : list byte) (p : nat) (l : list Z) :
  skipn p bytes = directory_bytes d ++ rest ->
  directory_ok d ->
  Forall2 (block_at inflate bytes (version info)) (dir_pointers d) rs ->
  exists l',
    read_block_directory inflate uninitialised chromosomeId1 info
      (selectedResolutionId info) output (stream_at bytes p l)
    = (Ok (append_all output chromosomeId1 rs),
       stream_at bytes (p + length (directory_bytes d)) l').
Proof.
  intros H Hd Hb.
  destruct (read_block_directory_at chromosomeId1 info
              (selectedResolutionId info) output d rest p l H Hd)
    as [E H'].
  destruct (selected_pointers_at inflate uninitialised bytes chromosomeId1
              info _ _ Hb _ l 0 output rest H') as [l' E'].
  exists l'. rewrite E, E'. f_equal. apply stream_at_eq.
  rewrite directory_length. lia.
Qed.

Lemma other_directory_at (chromosomeId1 : Z) (info : hicInfo)
    (resolutionId : Z) (output : outputStr) (d : directory)
    (rest : list byte) (p : nat) (l : list Z) :
  resolutionId <> selectedResolutionId info ->
  skipn p bytes = directory_bytes d ++ rest ->
  directory_ok d ->
  read_block_directory inflate uninitialised chromosomeId1 info resolutionId
    output (stream_at bytes p l)
  = (Ok output, stream_at bytes (p + length (directory_bytes d)) l).
Proof.
  intros Hne H Hd.
  destruct (read_block_directory_at chromosomeId1 info resolutionId output
              d rest p l H Hd) as [E H'].
  rewrite E.
  rewrite (other_pointers_at inflate uninitialised bytes _ chromosomeId1
             info _ Hne _ l 0 output rest H').
  f_equal. apply stream_at_eq. rewrite directory_length. lia.
Qed.

(** The resolution loop over directories none of which is selected. *)
Lemma other_directories_at (chromosomeId1 : Z) (info : hicInfo)
    (dirs : list directory) :
  Forall directory_ok dirs ->
  forall (p : nat) (l : list Z) (i : Z) (output : outputStr)
         (rest : list byte),
  (selectedResolutionId info < i
   \/ i + Z.of_nat (length dirs) <= selectedResolutionId info) ->
  skipn p bytes = flat_map directory_bytes dirs ++ rest ->
  for_loop (length dirs) i
    (read_block_directory inflate uninitialised chromosomeId1 info)
    output (stream_at bytes p l)
  = (Ok output,
     stream_at bytes (p + length (flat_map directory_bytes dirs)) l).
Proof.
  induction 1 as [|d dirs Hd _ IH]; intros p l i output rest Hi H.
  - cbn. now rewrite Nat.add_0_r.
  - cbn [flat_map length for_loop] in *. rewrite <- app_assoc in H.
    rewrite (bind_run _ (other_directory_at chromosomeId1 info i output d _
                           p l ltac:(lia) H Hd)).
    apply skipn_advance in H.
    rewrite (IH _ l (i + 1) output rest ltac:(lia) H).
    f_equal. apply stream_at_eq. rewrite length_app. lia.
Qed.

Lemma for_loop_app {S A : Type} (n m : nat) (body : Z -> A -> M S A) :
  forall (i : Z) (a : A) (s : S),
  for_loop (n + m) i body a s
  = bind (for_loop n i body a) (for_loop m (i + Z.of_nat n) body) s.
Proof.
  induction n as [|n IH]; intros i a s.
  - cbn [Nat.add for_loop]. unfold bind, ret.
    now rewrite Z.add_0_r.
  - cbn [Nat.add for_loop]. unfold bind at 1 2 3.
    destruct (body i a s) as [[a'|e] s1]; [|reflexivity].
    rewrite IH. unfold bind.
    replace (i + 1 + Z.of_nat n) with (i + Z.of_nat (Datatypes.S n)) by lia.
    reflexivity.
Qed.

(** The resolution loop of a region: the directory whose ordinal is the
    selected index gives its blocks, the others nothing. *)
Lemma directories_at (chromosomeId1 : Z) (info : hicInfo)
    (dirs : list directory) (rs : list records) (output : outputStr)
    (rest : list byte) (p : nat) (l : list Z) :
  0 <= selectedResolutionId info ->
  Forall directory_ok dirs ->
  match nth_error dirs (Z.to_nat (selectedResolutionId info)) with
  | Some d =>
      Forall2 (block_at inflate bytes (version info)) (dir_pointers d) rs
  | None => rs = []
  end ->
  skipn p bytes = flat_map directory_bytes dirs ++ rest ->
  exists q l',
    for_loop (length dirs) 0
      (read_block_directory inflate uninitialised chromosomeId1 info)
      output (stream_at bytes p l)
    = (Ok (append_all output chromosomeId1 rs), stream_at bytes q l').
Proof.
  intros Hsel Hdirs Hnth H.
  destruct (nth_error dirs (Z.to_nat (selectedResolutionId info)))
    as [d|] eqn:En.
  - destruct (nth_error_split _ _ En) as (before & after & -> & Hlen).
    apply Forall_app in Hdirs. destruct Hdirs as [Hbefore Hrest].
    inversion Hrest as [|d' ds Hd Hafter]; subst.
    rewrite flat_map_app, <- app_assoc in H.
    cbn [flat_map] in H. rewrite <- app_assoc in H.
    rewrite length_app, for_loop_app.
    rewrite (bind_run _ (other_directories_at chromosomeId1 info before
                           Hbefore _ l 0 output _ ltac:(lia) H)).
    apply skipn_advance in H.
    cbn [length for_loop]. rewrite Z.add_0_l.
    replace (Z.of_nat (length before)) with (selectedResolutionId info)
      by lia.
    destruct (selected_directory_at chromosomeId1 info output d rs _ _ l H
                Hd Hnth) as [l' E].
    rewrite (bind_run _ E).
    apply skipn_advance in H.
    rewrite (other_directories_at chromosomeId1 info after Hafter _ l'
               (selectedResolutionId info + 1)
               (append_all output chromosomeId1 rs) rest ltac:(lia) H).
    eexists _, l'. reflexivity.
  - subst rs. apply nth_error_None in En.
    rewrite (other_directories_at chromosomeId1 info dirs Hdirs _ l 0
               output rest ltac:(lia) H).
    eexists _, l. reflexivity.
Qed.

(** [readMatrix] on a region it reads. *)
Lemma readMatrix_read (info : hicInfo) (fpos size c : Z)
    (rs : list records) (output : outputStr) (p : nat) (l : list Z) :
  0 <= selectedResolutionId info ->
  region_read inflate bytes info fpos c rs ->
  exists q l',
    readMatrix inflate uninitialised fpos size info output
      (stream_at bytes p l)
    = (Ok (append_all output c rs), stream_at bytes q l').
Proof.
  intros Hsel (dirs & rest & Hpos & Hc & Hall & H & Hlen & Hdirs & Hnth).
  unfold matrix_bytes in H. rewrite <- !app_assoc in H.
  rewrite <- flat_map_concat_map, length_map in H.
  unfold readMatrix.
  destruct (Z.eqb_spec fpos (-1)); [lia|]. cbn [negb].
  rewrite (bind_run _ (seekg_at bytes p l fpos Hpos)).
  rewrite (bind_run _ (read_int32_at _ _ _ _ _ H Hc)).
  apply skipn_advance in H. rewrite le32_length in H.
  rewrite (bind_run _ (read_int32_at _ _ _ _ _ H Hc)).
  apply skipn_advance in H. rewrite le32_length in H.
  rewrite Z.eqb_refl.
  assert (G : (negb (firstChromosomeIsAll info) || negb (c =? 0)) = true).
  { destruct Hall as [-> | Hne]; [reflexivity|].
    destruct (Z.eqb_spec c 0); [contradiction|]. apply orb_true_r. }
  rewrite G.
  rewrite (bind_run _ (read_int32_at _ _ _ _ _ H
                         ltac:(unfold in_int32; lia))).
  apply skipn_advance in H. rewrite le32_length in H.
  unfold for_upto. rewrite Nat2Z.id.
  exact (directories_at c info dirs rs output rest _ _ Hsel Hdirs Hnth H).
Qed.

(** [readMatrix] on a region it skips. *)
Lemma readMatrix_skip (info : hicInfo) (fpos size : Z)
    (output : outputStr) (p : nat) (l : list Z) :
  region_skipped bytes info fpos ->
  exists q l',
    readMatrix inflate uninitialised fpos size info output
      (stream_at bytes p l)
    = (Ok output, stream_at bytes q l').
Proof.
  intros [-> | (c1 & c2 & rest & Hpos & Hc1 & Hc2 & H & Hskip)].
  - exists p, l. reflexivity.
  - unfold readMatrix.
    destruct (Z.eqb_spec fpos (-1)); [lia|]. cbn [negb].
    rewrite (bind_run _ (seekg_at bytes p l fpos Hpos)).
    rewrite (bind_run _ (read_int32_at _ _ _ _ _ H Hc1)).
    apply skipn_advance in H. rewrite le32_length in H.
    rewrite (bind_run _ (read_int32_at _ _ _ _ _ H Hc2)).
    destruct (Z.eqb_spec c1 c2) as [<-|Hne].
    + destruct Hskip as [Hne | [-> ->]]; [contradiction|].
      cbn. eexists _, _. reflexivity.
    + eexists _, _. reflexivity.
Qed.

(** The body of the entry loop of [readFooter]. *)
Lemma read_entry_at (info : hicInfo) (e : entry) (i : Z)
    (output : outputStr) (rest : list byte) (p : nat) (l : list Z) :
  0 <= selectedResolutionId info ->
  entry_ok inflate bytes info e ->
  skipn p bytes = entry_bytes (fst e) ++ rest ->
  exists l',
    read_entry inflate uninitialised info i output (stream_at bytes p l)
    = (Ok (append_all output (fst (snd e)) (snd (snd e))),
       stream_at bytes (p + length (entry_bytes (fst e))) l').
Proof.
  destruct e as [[[key fpos] size] [c rs]]. cbn [fst snd entry_ok].
  intros Hsel (Hk & Hf & Hs & Hregion) H.
  unfold entry_bytes in *. rewrite <- !app_assoc in H.
  unfold read_entry.
  rewrite (bind_run _ (getline_at _ _ _ _ _ H Hk)).
  apply skipn_advance in H.
  rewrite (bind_run _ (read_int64_at _ _ _ _ _ H Hf)).
  apply skipn_advance in H. rewrite le64_length in H.
  rewrite (bind_run _ (read_int32_at _ _ _ _ _ H Hs)).
  rewrite (bind_run _ (tellg_at bytes _ _)).
  assert (R : exists q l',
             readMatrix inflate uninitialised fpos size info output
               (stream_at bytes (p + length (cstring key) + 8 + 4) l)
             = (Ok (append_all output c rs), stream_at bytes q l')).
  { destruct Hregion as [Hr | [-> Hskip]].
    - now apply readMatrix_read.
    - now apply readMatrix_skip. }
  destruct R as (q & l' & R). rewrite (bind_run _ R).
  rewrite (bind_run _ (seekg_at bytes _ _ _ (Nat2Z.is_nonneg _))).
  rewrite Nat2Z.id. eexists. unfold ret. f_equal. apply stream_at_eq.
  rewrite !length_app, le64_length, le32_length. lia.
Qed.

(** The entry loop of [readFooter]. *)
Lemma read_entries_at (info : hicInfo) (entries : list entry) :
  0 <= selectedResolutionId info ->
  Forall (entry_ok inflate bytes info) entries ->
  forall (p : nat) (l : list Z) (i : Z) (output : outputStr)
         (rest : list byte),
  skipn p bytes = flat_map entry_bytes (map fst entries) ++ rest ->
  exists q l',
    for_loop (length entries) i (read_entry inflate uninitialised info)
      output (stream_at bytes p l)
    = (Ok (all_records entries output), stream_at bytes q l').
Proof.
  intros Hsel.
  induction 1 as [|e entries He _ IH]; intros p l i output rest H.
  - exists p, l. reflexivity.
  - cbn [map flat_map length for_loop all_records fold_left] in *.
    rewrite <- app_assoc in H.
    destruct (read_entry_at info e i output _ p l Hsel He H) as [l1 E].
    rewrite (bind_run _ E).
    apply skipn_advance in H.
    exact (IH _ l1 (i + 1) _ rest H).
Qed.

(** [readFooter] on a laid-out footer, whatever its first field holds. *)
Lemma readFooter_at (info : hicInfo) (totalBytes : Z)
    (entries : list entry) (output : outputStr) (rest : list byte)
    (p : nat) (l : list Z) :
  0 <= selectedResolutionId info ->
  0 <= master info ->
  skipn (Z.to_nat (master info)) bytes
  = footer_bytes totalBytes (map fst entries) ++ rest ->
  Z.of_nat (length entries) < 2 ^ 31 ->
  Forall (entry_ok inflate bytes info) entries ->
  exists q l',
    readFooter inflate uninitialised info output (stream_at bytes p l)
    = (Ok (all_records entries output), stream_at bytes q l').
Proof.
  intros Hsel Hm H Hlen He. unfold footer_bytes in H.
  rewrite <- !app_assoc, length_map in H. unfold entry in *.
  unfold readFooter.
  rewrite (bind_run _ (seekg_at bytes p l _ Hm)).
  rewrite (bind_run _ (read4_at _ _ _ _ _ H)).
  apply skipn_advance in H. rewrite le32_length in H.
  rewrite (bind_run _ (read_int32_at _ _ _ _ _ H
                         ltac:(unfold in_int32; lia))).
  apply skipn_advance in H. rewrite le32_length in H.
  unfold for_upto. rewrite Nat2Z.id.
  exact (read_entries_at info entries Hsel He _ _ 0 output rest H).
Qed.

End Files.

End FooterFacts.
Import FooterFacts.

(** ** Whole files *)

Module FileFacts.

Lemma on_fin_run {A : Type} (m : M ifstream A) (w : world) (r : result A)
    (s : ifstream) :
  m (fin w) = (r, s) -> on_fin m w = (r, {| fin := s; Rcerr := Rcerr w |}).
Proof. intros E. unfold on_fin. now rewrite E. Qed.

Lemma getline_open (bytes : list byte) :
  exists s, getline (open (Some bytes)) = (Ok (first_string bytes), s)
            /\ seeks s = [].
Proof.
  unfold getline, open, first_string.
  cbn [good eofbit failbit negb andb gpos content seeks skipn].
  destruct (split_at_nul bytes) as [l [r|]]; eexists; split; reflexivity.
Qed.

Lemma readHeader_header_ok (wanted : Z) (magic : string) (ver mst : Z)
    (genome : string) (attrs : list (string * string))
    (chroms : list (string * Z)) (resolutions : list Z) (rest : list byte) :
  header_ok magic ver mst genome attrs chroms resolutions ->
  readHeader (hicInfo_init wanted)
    (open (Some (header magic ver mst genome attrs chroms resolutions
                 ++ rest)))
  = (Ok (header_info wanted ver mst chroms resolutions),
     stream_at (header magic ver mst genome attrs chroms resolutions ++ rest)
       (length (header magic ver mst genome attrs chroms resolutions)) []).
Proof.
  intros (H1 & H2 & H3 & H4 & H5 & H6 & H7 & H8 & H9 & H10 & H11 & H12).
  now apply readHeader_layout.
Qed.

Lemma Forall2_diag {A : Type} (R : A -> A -> Prop) (l : list A) :
  (forall x, R x x) -> Forall2 R l l.
Proof. intros HR. induction l; constructor; auto. Qed.

Lemma nth_error_tl {A : Type} (l : list A) (n : nat) :
  nth_error (tl l) n = nth_error l (Datatypes.S n).
Proof. destruct l; [now destruct n | reflexivity]. Qed.

Lemma sugar_times_Forall2 (v : list Z) (rhs : Z) (ps : list Z) :
  sugar_times v rhs = Ok ps -> rhs <> NA_INTEGER ->
  Forall2 (fun b p => b <> NA_INTEGER -> p = b * rhs) v ps.
Proof.
  intros E Hr. apply map_result_Forall2 in E.
  eapply Forall2_impl; [|exact E]. cbn beta. intros b p Eb Hb.
  destruct (Z.eqb_spec rhs NA_INTEGER); [contradiction|].
  destruct (Z.eqb_spec b NA_INTEGER); [contradiction|].
  unfold int_mul in Eb. destruct (_ && _); [|discriminate].
  now inversion Eb.
Qed.

(** X17.  A header laid out as the format describes it is read back field
    by field: the version, the master offset, the chromosome names and
    lengths, the resolutions; the genome name and the attributes are
    skipped; the selected index is what the selection of the wanted
    resolution among the listed ones gives; the flag of the aggregate
    chromosome says whether the first name is "ALL" or "All"; and the
    stream is left right behind the header, without any seek. *)
Theorem header_round_trip (wanted : Z) (magic : string) (ver mst : Z)
    (genome : string) (attrs : list (string * string))
    (chroms : list (string * Z)) (resolutions : list Z) (rest : list byte) :
  header_ok magic ver mst genome attrs chroms resolutions ->
  readHeader (hicInfo_init wanted)
    (open (Some (header magic ver mst genome attrs chroms resolutions
                 ++ rest)))
  = (Ok (header_info wanted ver mst chroms resolutions),
     stream_at (header magic ver mst genome attrs chroms resolutions ++ rest)
       (length (header magic ver mst genome attrs chroms resolutions)) [])
  /\ selection_of wanted resolutions
       (selectedResolutionId
          (header_info wanted ver mst chroms resolutions)).
Proof.
  intros Hok. pose proof (readHeader_header_ok wanted _ _ _ _ _ _ _ rest Hok)
    as E.
  split; [exact E|].
  exact (proj1 (readHeader_selection _ _ _ _ E)).
Qed.

(** X18.  A file whose first NUL-terminated string (or whole content, when
    it holds no NUL) does not start with "HIC" is rejected: the parse stops
    with the message of the missing magic string, whatever the file holds,
    the empty file included; nothing is printed and no seek is made. *)
Theorem not_a_hic_file_stops (inflate : list byte -> list byte)
    (uninitialised : ifstream -> nat -> byte)
    (fs : string -> option (list byte)) (fname : string) (resolution : Z)
    (bytes : list byte) :
  fs fname = Some bytes ->
  starts_with_HIC (first_string bytes) = false ->
  fst (parseHiCFile inflate uninitialised fs fname resolution)
  = Err (Stop
      "Hi-C magic string is missing, does not appear to be a hic file.")
  /\ Rcerr (snd (parseHiCFile inflate uninitialised fs fname resolution)) = EmptyString
  /\ seeks (fin (snd (parseHiCFile inflate uninitialised fs fname resolution))) = [].
Proof.
  intros Hfs Hm. unfold parseHiCFile, parse. rewrite Hfs.
  change (failbit (fin {| fin := open (Some bytes); Rcerr := EmptyString |}))
    with false. cbv iota.
  destruct (getline_open bytes) as (s & E & Hs).
  assert (R : readHeader (hicInfo_init resolution) (open (Some bytes))
              = (Err (Stop
                   "Hi-C magic string is missing, does not appear to be a hic file."),
                 s)).
  { unfold readHeader, readMagicString.
    unfold bind at 1 2. rewrite E. unfold ret at 1.
    change (match first_string bytes with
            | String "H" (String "I" (String "C" _)) => true
            | _ => false
            end) with (starts_with_HIC (first_string bytes)).
    rewrite Hm. reflexivity. }
  unfold bind.
  rewrite (on_fin_run (readHeader (hicInfo_init resolution))
             {| fin := open (Some bytes); Rcerr := EmptyString |} _ _ R).
  cbn [fst snd Rcerr fin]. auto.
Qed.

(** X19.  A file with the magic string and a version below 6 is rejected
    with the message that names the version, whatever follows the version
    field. *)
Theorem old_version_stops (inflate : list byte -> list byte)
    (uninitialised : ifstream -> nat -> byte)
    (fs : string -> option (list byte)) (fname : string) (resolution : Z)
    (magic : string) (ver : Z) (rest : list byte) :
  fs fname = Some (cstring magic ++ le32 ver ++ rest) ->
  starts_with_HIC magic = true -> no_nul magic ->
  in_int32 ver -> ver < 6 ->
  fst (parseHiCFile inflate uninitialised fs fname resolution)
  = Err (Stop ("Version " ++ to_string ver ++ " no longer supported.")).
Proof.
  intros Hfs Hm Hn Hv Hlt. unfold parseHiCFile, parse. rewrite Hfs.
  match goal with
  | |- context [failbit (fin ?w)] => change (failbit (fin w)) with false
  end.
  cbv iota.
  set (bytes := cstring magic ++ le32 ver ++ rest).
  assert (H : skipn 0 bytes = cstring magic ++ le32 ver ++ rest)
    by reflexivity.
  assert (R : readHeader (hicInfo_init resolution) (open (Some bytes))
              = (Err (Stop ("Version " ++ to_string ver
                            ++ " no longer supported.")),
                 stream_at bytes (0 + length (cstring magic) + 4) [])).
  { change (open (Some bytes)) with (stream_at bytes 0 []).
    unfold readHeader.
    rewrite (bind_run _ (readMagicString_at _ _ _ _ _ H Hn)).
    rewrite Hm. cbn [negb].
    apply skipn_advance in H.
    rewrite (bind_run _ (read_int32_at _ _ _ _ _ H Hv)).
    destruct (Z.ltb_spec ver 6); [reflexivity | lia]. }
  unfold bind.
  rewrite (on_fin_run (readHeader (hicInfo_init resolution))
             {| fin := open (Some bytes); Rcerr := EmptyString |} _ _ R).
  reflexivity.
Qed.

(** X20.  The whole reader on a file that holds a header and, at the master
    offset, a footer, each laid out field by field.  Every field that the
    code reads and drops is arbitrary: the genome and the attributes of the
    header, the first field of the footer, the key and the size of an entry,
    and, in a directory, the unit, the index, the four statistics, the bin
    size, the two block dimensions and the block ids.  An entry leads to a
    region that is read (an intra-chromosomal region, not the aggregate
    one, with any number of directories; the pointers of the directory
    whose ordinal is the selected index lead to blocks of size 0 or lying
    within the file) or skipped (no region, two different chromosome ids,
    or the aggregate pseudo-chromosome).  When the wanted resolution is
    listed, the parse is the data frame made of the records of these
    blocks, in the order of the entries and, within an entry, of the block
    pointers, each tagged with the chromosome id of its region; the other
    directories contribute nothing, and nothing is printed. *)
Theorem well_formed_file_parses (inflate : list byte -> list byte)
    (uninitialised : ifstream -> nat -> byte)
    (fs : string -> option (list byte)) (fname : string) (wanted : Z)
    (magic : string) (ver mst : Z) (genome : string)
    (attrs : list (string * string)) (chroms : list (string * Z))
    (resolutions : list Z) (rest : list byte) (totalBytes : Z)
    (entries : list entry) (tail : list byte) :
  fs fname
  = Some (header magic ver mst genome attrs chroms resolutions ++ rest) ->
  header_ok magic ver mst genome attrs chroms resolutions ->
  In wanted resolutions ->
  0 <= mst ->
  skipn (Z.to_nat mst)
    (header magic ver mst genome attrs chroms resolutions ++ rest)
  = footer_bytes totalBytes (map fst entries) ++ tail ->
  Z.of_nat (length entries) < 2 ^ 31 ->
  Forall (entry_ok inflate
            (header magic ver mst genome attrs chroms resolutions ++ rest)
            (header_info wanted ver mst chroms resolutions)) entries ->
  fst (parseHiCFile inflate uninitialised fs fname wanted)
  = to_DataFrame (header_info wanted ver mst chroms resolutions)
      (all_records entries outputStr_init) wanted
  /\ Rcerr (snd (parseHiCFile inflate uninitialised fs fname wanted))
     = EmptyString.
Proof.
  intros Hfs Hok Hin Hm Hfoot Hlen He.
  pose proof (readHeader_header_ok wanted _ _ _ _ _ _ _ rest Hok) as E.
  pose proof (proj1 (readHeader_selection _ _ _ _ E)) as Hsel.
  set (bytes := header magic ver mst genome attrs chroms resolutions ++ rest)
    in *.
  set (info := header_info wanted ver mst chroms resolutions) in *.
  assert (Hpos : 0 <= selectedResolutionId info).
  { destruct Hsel as [[_ Hnot] | (Hr & _)]; [now elim Hnot | lia]. }
  assert (Hne : (selectedResolutionId info =? -1) = false).
  { apply Z.eqb_neq. lia. }
  destruct (readFooter_at inflate uninitialised bytes info totalBytes
              entries outputStr_init tail
              (length (header magic ver mst genome attrs chroms resolutions))
              [] Hpos Hm Hfoot Hlen He) as (q & l' & F).
  assert (P : parseHiCFile inflate uninitialised fs fname wanted
              = (to_DataFrame info (all_records entries outputStr_init)
                   wanted,
                 {| fin := stream_at bytes q l'; Rcerr := EmptyString |})).
  { unfold parseHiCFile, parse. rewrite Hfs.
    match goal with
    | |- context [failbit (fin ?w)] => change (failbit (fin w)) with false
    end.
    cbv iota. unfold bind at 1.
    rewrite (on_fin_run (readHeader (hicInfo_init wanted))
               {| fin := open (Some bytes); Rcerr := EmptyString |} _ _ E).
    rewrite Hne. unfold bind. cbn [Rcerr].
    rewrite (on_fin_run (readFooter inflate uninitialised info outputStr_init)
               {| fin := stream_at bytes _ []; Rcerr := EmptyString |} _ _ F).
    reflexivity. }
  rewrite P. split; reflexivity.
Qed.

(** X21.  The columns of the returned data frame, read off the output
    vectors: [interaction] is the count vector; a position is the bin times
    the resolution; and the factor code of a row names, among the levels,
    the chromosome that the chromosome id of the row indexes in the header
    (ids from 1 on when the first chromosome is the aggregate one, which
    the levels leave out; from 0 on otherwise). *)
Theorem data_frame_columns (info : hicInfo) (output : outputStr)
    (resolution : Z) (df : DataFrame) :
  to_DataFrame info output resolution = Ok df ->
  resolution <> NA_INTEGER ->
  df_interaction df = count output
  /\ Forall2 (fun b p => b <> NA_INTEGER -> p = b * resolution)
       (bin1 output) (df_position_1 df)
  /\ Forall2 (fun b p => b <> NA_INTEGER -> p = b * resolution)
       (bin2 output) (df_position_2 df)
  /\ Forall2 (fun id code =>
                first_id info <= id ->
                nth_error (df_levels df) (Z.to_nat (code - 1))
                = nth_error (chromosomes info) (Z.to_nat id))
       (chromosome output) (df_chromosome df).
Proof.
  intros E Hr. unfold to_DataFrame in E.
  destruct (if firstChromosomeIsAll info then _ else _) as [codes|] eqn:Ec;
    [|discriminate].
  destruct (sugar_times (bin1 output) resolution) as [p1|] eqn:E1;
    [|discriminate].
  destruct (sugar_times (bin2 output) resolution) as [p2|] eqn:E2;
    [|discriminate].
  inversion E; subst df; clear E.
  cbn [df_interaction df_position_1 df_position_2 df_levels df_chromosome].
  split; [reflexivity|].
  split; [now apply sugar_times_Forall2|].
  split; [now apply sugar_times_Forall2|].
  unfold first_id. destruct (firstChromosomeIsAll info).
  - inversion Ec; subst codes. apply Forall2_diag. intros id Hid.
    rewrite nth_error_tl. f_equal. lia.
  - apply map_result_Forall2 in Ec.
    eapply Forall2_impl; [|exact Ec]. cbn beta. intros id code Eid Hid.
    change (1 =? NA_INTEGER) with false in Eid. cbv iota in Eid.
    destruct (Z.eqb_spec id NA_INTEGER) as [->|_].
    + unfold NA_INTEGER, INT_MIN in Hid. lia.
    + unfold int_add in Eid. destruct (_ && _); [|discriminate].
      inversion Eid. f_equal. lia.
Qed.

End FileFacts.
Import FileFacts.

(* ================================================================= *)
(** * Further properties *)

(** The block of the sample file, read in place (X1). *)
Lemma readBlock_run_witness :
  fst (readBlock Sample.stored Sample.fresh 50 28 0 (set_version (hicInfo_init 5000) 8)
         outputStr_init (open (Some Sample.file)))
  = Ok {| chromosome := [0; 0]; bin1 := [11; 14]; bin2 := [23; 23];
          count := [5; 7] |}.
Proof.
  rewrite (readBlock_run Sample.stored Sample.fresh 50 28 0
             (set_version (hicInfo_init 5000) 8) outputStr_init
             (open (Some Sample.file)));
    try reflexivity; try (unfold INT_MAX; lia).
  vm_compute. lia.
Defined.

(** The dense block of nine short counts whose point of index 4 is the
    sentinel (X2). *)
Lemma dense_short_block_decodes_witness :
  decodeBlock 8
    (block_type2 9 100 200 0 3 [1; 1; 1; 1; -32768; 1; 1; 1; 1] ++ [])
  = (Ok {| bins1 := [100; 101; 102; 100; 102; 100; 101; 102];
           bins2 := [200; 200; 200; 201; 201; 202; 202; 202];
           counts := [1; 1; 1; 1; 1; 1; 1; 1] |}, []).
Proof.
  apply (dense_short_block_decodes 8 9 100 200 3
           [1; 1; 1; 1; -32768; 1; 1; 1; 1] []);
    try (unfold in_int32, in_int16; lia); try (cbn; lia).
  - repeat constructor; unfold in_int16; lia.
  - repeat constructor; cbn; unfold in_int32; lia.
Defined.

(** A dense block of two float counts with the stride 0 (X3). *)
Lemma zero_stride_is_undefined_witness :
  fst (decodeBlock 9
         (block_type2 2 0 0 1 0 [0x3f800000; 0x3f800000] ++ []))
  = Err (Undefined DivisionByZero).
Proof.
  apply (zero_stride_is_undefined 9 2 0 0 1 [0x3f800000; 0x3f800000] []);
    try (unfold in_int32; lia); try (cbn; lia).
  discriminate.
Defined.

(** The header of the sample file (X4). *)
Lemma readHeader_needs_a_chromosome_witness :
  chromosomes
    {| master := 184; availableResolutions := [5000; 10000];
       resolution := 5000; selectedResolutionId := 0; version := 8;
       chromosomes := ["chr1"%string]; chromosomeLengths := [1000];
       totalChromosomes := 1; firstChromosomeIsAll := false |}
  <> [] /\ True.
Proof.
  split; [|exact I].
  refine (readHeader_needs_a_chromosome 5000 (open (Some Sample.file)) _
            (snd (readHeader (hicInfo_init 5000) (open (Some Sample.file))))
            _).
  vm_compute. reflexivity.
Defined.

(** [no_nul], by computation. *)
Lemma no_nul_by (s : string) :
  forallb (fun b => negb (Byte.eqb b x00)) (list_byte_of_string s) = true ->
  no_nul s.
Proof.
  unfold no_nul. intros H Hin. rewrite forallb_forall in H.
  specialize (H _ Hin). discriminate.
Qed.

(** A block of an unknown representation type, 3 (X5). *)
Lemma unknown_type_is_empty_witness :
  decodeBlock 8
    (le32 0 ++ le32 0 ++ le32 0 ++ [byte_of_Z 0; byte_of_Z 3] ++ [])
  = (Ok no_records, []).
Proof.
  apply (unknown_type_is_empty 8 0 0 0 0 3 []); unfold in_int32; lia.
Defined.

(** A block that declares -1 records (X6). *)
Lemma negative_record_count_throws_witness :
  decodeBlock 8 (le32 (-1) ++ []) = (Err LengthError, []).
Proof. apply (negative_record_count_throws 8 (-1) []). lia. Defined.

(** A version 6 block of one record, with the count 3.0 (X7). *)
Lemma v6_decodes_the_declared_count_witness :
  exists n : nat,
    as_int32 (firstn 4 (block_v6 [(1, 2, 1077936128)] ++ [])) = Z.of_nat n
    /\ length (bins1 {| bins1 := [1]; bins2 := [2]; counts := [3] |}) = n
    /\ length (bins2 {| bins1 := [1]; bins2 := [2]; counts := [3] |}) = n
    /\ length (counts {| bins1 := [1]; bins2 := [2]; counts := [3] |}) = n
    /\ length (block_v6 [(1, 2, 1077936128)] ++ [])
       = (4 + 12 * n + length (@nil byte))%nat.
Proof.
  apply (v6_decodes_the_declared_count 6
           (block_v6 [(1, 2, 1077936128)] ++ [])
           {| bins1 := [1]; bins2 := [2]; counts := [3] |} []).
  - lia.
  - vm_compute. reflexivity.
Defined.

(** The same block, by its layout (X8). *)
Lemma integer_counts_round_trip_witness :
  decodeBlock 6 (block_v6 [(1, 2, 1077936128)] ++ [])
  = (Ok {| bins1 := map rec_x [(1, 2, 1077936128)];
           bins2 := map rec_y [(1, 2, 1077936128)];
           counts := [3] |}, []).
Proof.
  apply (integer_counts_round_trip 6 [(1, 2, 1077936128)] [3] []).
  - lia.
  - repeat constructor; cbn; unfold in_int32, in_uint32; lia.
  - cbn. lia.
  - constructor; [|constructor]. eexists. split; [lazy; reflexivity|].
    split; [reflexivity | unfold INT_MIN, INT_MAX; lia].
Defined.

(** The dense block of nine short counts with the stride 3 (X9). *)
Lemma dense_records_lie_in_the_grid_witness :
  Forall (fun b => 100 <= b < 100 + 3)
    [100; 101; 102; 100; 102; 100; 101; 102]
  /\ Forall (fun b => 200 <= b <= 200 + (9 - 1) / 3)
       [200; 200; 200; 201; 201; 202; 202; 202]
  /\ (8 <= 9)%nat.
Proof.
  apply (dense_records_lie_in_the_grid 8 9 100 200 0 3
           [1; 1; 1; 1; -32768; 1; 1; 1; 1] []
           {| bins1 := [100; 101; 102; 100; 102; 100; 101; 102];
              bins2 := [200; 200; 200; 201; 201; 202; 202; 202];
              counts := [1; 1; 1; 1; 1; 1; 1; 1] |} []);
    try (unfold in_int32, in_int16; lia); try (cbn; lia).
  - repeat constructor; unfold in_int16; lia.
  - repeat constructor; cbn; unfold in_int32; lia.
  - vm_compute. reflexivity.
Defined.


(** The block of the sample file (X11). *)
Lemma blocks_append_tagged_records_witness :
  extends_with 0 outputStr_init sample_output.
Proof.
  apply (blocks_append_tagged_records Sample.stored Sample.fresh 50 28 0 sample_info
           outputStr_init (open (Some Sample.file)) sample_output
           (stream_at Sample.file 78 [50])).
  vm_compute. reflexivity.
Defined.

(** The region of the sample file (X12). *)
Lemma regions_append_tagged_records_witness :
  exists c1 c2 s1,
    read_region_ids 78 (open (Some Sample.file)) = (Ok (c1, c2), s1)
    /\ extends_with c1 outputStr_init sample_output.
Proof.
  apply (regions_append_tagged_records Sample.stored Sample.fresh 78 106 sample_info
           outputStr_init (open (Some Sample.file)) sample_output
           (stream_at Sample.file 184 [145; 50; 78])).
  - lia.
  - vm_compute. reflexivity.
Defined.

(** The footer of the sample file (X13). *)
Lemma readFooter_only_appends_witness :
  extends outputStr_init sample_output.
Proof.
  apply (readFooter_only_appends Sample.stored Sample.fresh sample_info outputStr_init
           (open (Some Sample.file)) sample_output
           (stream_at Sample.file 208 [208; 145; 50; 78; 184])).
  vm_compute. reflexivity.
Defined.

(** The second directory of the region of the sample file, that of the
    resolution 10000 (X14). *)
Lemma other_directories_read_no_block_witness :
  seeks (stream_at Sample.file 184 [78]) = seeks (stream_at Sample.file 145 [78])
  /\ (forall output', Ok outputStr_init = Ok output' ->
                      output' = outputStr_init).
Proof.
  apply (other_directories_read_no_block Sample.stored Sample.fresh 0 sample_info 1
           outputStr_init (stream_at Sample.file 145 [78])
           (Ok outputStr_init) (stream_at Sample.file 184 [78])).
  - vm_compute. discriminate.
  - vm_compute. reflexivity.
Defined.

(** The entry of the footer of the sample file (X15). *)
Lemma entry_body_returns_to_its_entry_witness :
  exists fields s1,
    read_entry_fields (stream_at Sample.file 192 [184]) = (Ok fields, s1)
    /\ gpos (stream_at Sample.file 208 [208; 145; 50; 78; 184]) = gpos s1.
Proof.
  apply (entry_body_returns_to_its_entry Sample.stored Sample.fresh sample_info 0
           outputStr_init (stream_at Sample.file 192 [184]) sample_output
           (stream_at Sample.file 208 [208; 145; 50; 78; 184])).
  - vm_compute. reflexivity.
  - reflexivity.
Defined.

(** The block pointer of the sample file (X16). *)
Lemma pointer_body_returns_to_its_pointer_witness :
  exists fields s1,
    read_pointer_fields (stream_at Sample.file 129 [78]) = (Ok fields, s1)
    /\ gpos (stream_at Sample.file 145 [145; 50; 78]) = gpos s1.
Proof.
  apply (pointer_body_returns_to_its_pointer Sample.stored Sample.fresh sample_info 0 0 0
           outputStr_init (stream_at Sample.file 129 [78]) sample_output
           (stream_at Sample.file 145 [145; 50; 78])).
  - vm_compute. reflexivity.
  - reflexivity.
Defined.

Lemma sample_header_ok :
  header_ok "HIC" 8 184 "hg19" [] [("chr1"%string, 1000)] [5000; 10000].
Proof.
  unfold header_ok, in_int64.
  repeat split; try (apply no_nul_by; reflexivity); try lia;
    try (cbn; lia); try discriminate;
    repeat constructor; try (apply no_nul_by; reflexivity);
    cbn; unfold in_int32; lia.
Qed.

Lemma sample_header_ok_2 :
  header_ok "HIC" 8 202 "hg19" [] [("chr1"%string, 1000)] [5000; 10000].
Proof.
  unfold header_ok, in_int64.
  repeat split; try (apply no_nul_by; reflexivity); try lia;
    try (cbn; lia); try discriminate;
    repeat constructor; try (apply no_nul_by; reflexivity);
    cbn; unfold in_int32; lia.
Qed.

(** The header of the sample file (X17). *)
Lemma header_round_trip_witness :
  readHeader (hicInfo_init 5000)
    (open (Some (header "HIC" 8 184 "hg19" [] [("chr1"%string, 1000)]
                   [5000; 10000] ++ [])))
  = (Ok sample_info,
     stream_at (header "HIC" 8 184 "hg19" [] [("chr1"%string, 1000)]
                  [5000; 10000] ++ [])
       (length (header "HIC" 8 184 "hg19" [] [("chr1"%string, 1000)]
                  [5000; 10000])) [])
  /\ selection_of 5000 [5000; 10000] (selectedResolutionId sample_info).
Proof.
  apply (header_round_trip 5000 "HIC" 8 184 "hg19" []
           [("chr1"%string, 1000)] [5000; 10000] []).
  exact sample_header_ok.
Defined.

(** The empty file (X18). *)
Lemma not_a_hic_file_stops_witness :
  fst (parseHiCFile Sample.stored Sample.fresh (Sample.fs []) "sample.hic" 5000)
  = Err (Stop
      "Hi-C magic string is missing, does not appear to be a hic file.")
  /\ Rcerr (snd (parseHiCFile Sample.stored Sample.fresh (Sample.fs []) "sample.hic"
                   5000)) = EmptyString
  /\ seeks (fin (snd (parseHiCFile Sample.stored Sample.fresh (Sample.fs []) "sample.hic"
                        5000))) = [].
Proof.
  apply (not_a_hic_file_stops Sample.stored Sample.fresh (Sample.fs []) "sample.hic" 5000
           []); reflexivity.
Defined.

(** A file of version 5 (X19). *)
Lemma old_version_stops_witness :
  fst (parseHiCFile Sample.stored Sample.fresh
         (Sample.fs (cstring "HIC" ++ le32 5 ++ [])) "sample.hic" 5000)
  = Err (Stop ("Version " ++ to_string 5 ++ " no longer supported.")).
Proof.
  apply (old_version_stops Sample.stored Sample.fresh
           (Sample.fs (cstring "HIC" ++ le32 5 ++ [])) "sample.hic" 5000
           "HIC" 5 []).
  - reflexivity.
  - reflexivity.
  - apply no_nul_by. reflexivity.
  - unfold in_int32. lia.
  - lia.
Defined.

(** The sample file with other values in the fields that the reader drops
    (X20). *)
Lemma well_formed_file_parses_witness :
  fst (parseHiCFile Sample.stored Sample.fresh (Sample.fs sample_file_2)
         "sample.hic" 5000)
  = Ok sample_frame
  /\ Rcerr (snd (parseHiCFile Sample.stored Sample.fresh
                   (Sample.fs sample_file_2) "sample.hic" 5000))
     = EmptyString.
Proof.
  destruct (well_formed_file_parses Sample.stored Sample.fresh
              (Sample.fs sample_file_2) "sample.hic" 5000 "HIC" 8 202
              "hg19" [] [("chr1"%string, 1000)] [5000; 10000]
              (skipn 50 sample_file_2) 123
              [(("chr1_chr1"%string, 78, 124),
                (0, [sample_records; no_records]))] [])
    as [P Q].
  - vm_compute. reflexivity.
  - exact sample_header_ok_2.
  - left. reflexivity.
  - lia.
  - vm_compute. reflexivity.
  - cbn. lia.
  - constructor; [|constructor].
    split; [apply no_nul_by; reflexivity|].
    split; [unfold in_int64; lia|].
    split; [unfold in_int32; lia|].
    left. exists sample_directories, (skipn 202 sample_file_2).
    split; [lia|].
    split; [unfold in_int32; lia|].
    split; [left; reflexivity|].
    split; [vm_compute; reflexivity|].
    split; [cbn; lia|].
    split.
    { repeat constructor; try (apply no_nul_by; reflexivity); cbn; lia. }
    cbn [nth_error sample_directories dir_pointers].
    change (Z.to_nat
              (selectedResolutionId
                 (header_info 5000 8 202 [("chr1"%string, 1000)]
                    [5000; 10000]))) with 0%nat.
    cbn [nth_error dir_pointers].
    constructor; [|constructor; [|constructor]].
    + split; [unfold in_int64; lia|]. right.
      unfold INT_MAX. repeat split; try lia; try (vm_compute; lia).
    + split; [unfold in_int64; lia|]. left. split; reflexivity.
  - split; [rewrite P; reflexivity | exact Q].
Defined.

(** The output and the data frame of the sample file (X21). *)
Lemma data_frame_columns_witness :
  df_interaction sample_frame = count sample_output
  /\ Forall2 (fun b p => b <> NA_INTEGER -> p = b * 5000)
       (bin1 sample_output) (df_position_1 sample_frame)
  /\ Forall2 (fun b p => b <> NA_INTEGER -> p = b * 5000)
       (bin2 sample_output) (df_position_2 sample_frame)
  /\ Forall2 (fun id code =>
                first_id sample_info <= id ->
                nth_error (df_levels sample_frame) (Z.to_nat (code - 1))
                = nth_error (chromosomes sample_info) (Z.to_nat id))
       (chromosome sample_output) (df_chromosome sample_frame).
Proof.
  apply (data_frame_columns sample_info sample_output 5000 sample_frame).
  - reflexivity.
  - unfold NA_INTEGER, INT_MIN. lia.
Defined.
